(** * Kleerer: harness synthesis for KLEE (src/Kleerer.cpp)

    A shallow embedding of the [Kleerer] pass and of the fragment of the
    LLVM program representation it reads and mutates, followed by the
    properties of the natural-language specification that concern it.

    Layout:
    - [IR]        the program representation (types, values, instructions,
                  functions, globals, modules) and the LLVM entry points
                  the pass calls;
    - [Services]  the external collaborators (target data, call graph,
                  candidate list, file system, verifier);
    - [Kleerer]   the pass itself, statement by statement, in a state and
                  failure monad;
    - [Harness]   an interpreter for the instructions the pass emits;
    - [Synthesis] the harness the pass builds for a candidate, as data;
    - [Example]   a small program to run the pass on;
    - then the facts: what each call of the pass does to the state, the
      outcomes of [writeMain], what a harness does when it runs, the
      theorems for the specification's claims, and further properties of
      the pass and of the harnesses it writes. *)

From Stdlib Require Import ZArith NArith Lia Bool.
From stdpp Require Import base option list strings numbers.

Set Warnings "-register-all".

Open Scope Z_scope.
Open Scope string_scope.
Open Scope list_scope.

(* ===================================================================== *)
(** ** The program representation *)
(* ===================================================================== *)

Module IR.

(** Types.  A named structure without a body is opaque. *)
Inductive Ty : Type :=
| VoidTy
| LabelTy
| FloatTy
| DoubleTy
| IntegerTy (bits : N)
| PointerTy (elem : Ty)
| FunctionTy (ret : Ty) (params : list Ty) (isVarArg : bool)
| StructTy (name : string) (body : option (list Ty))
| ArrayTy (n : N) (elem : Ty)
| VectorTy (n : N) (elem : Ty).

(** Equality of types (LLVM compares uniqued type pointers). *)
Fixpoint Ty_eqb (a b : Ty) {struct a} : bool :=
  let fix all2 (l l' : list Ty) {struct l} : bool :=
    match l, l' with
    | [], [] => true
    | x :: xs, y :: ys => Ty_eqb x y && all2 xs ys
    | _, _ => false
    end in
  match a, b with
  | VoidTy, VoidTy | LabelTy, LabelTy | FloatTy, FloatTy
  | DoubleTy, DoubleTy => true
  | IntegerTy n, IntegerTy m => N.eqb n m
  | PointerTy e, PointerTy e' => Ty_eqb e e'
  | FunctionTy r ps v, FunctionTy r' ps' v' =>
      Ty_eqb r r' && all2 ps ps' && Bool.eqb v v'
  | StructTy n None, StructTy n' None => String.eqb n n'
  | StructTy n (Some l), StructTy n' (Some l') => String.eqb n n' && all2 l l'
  | ArrayTy n e, ArrayTy n' e' => N.eqb n n' && Ty_eqb e e'
  | VectorTy n e, VectorTy n' e' => N.eqb n n' && Ty_eqb e e'
  | _, _ => false
  end.

Definition isIntegerTy (t : Ty) : bool :=
  match t with IntegerTy _ => true | _ => false end.
Definition isPointerTy (t : Ty) : bool :=
  match t with PointerTy _ => true | _ => false end.
Definition isFunctionTy (t : Ty) : bool :=
  match t with FunctionTy _ _ _ => true | _ => false end.
Definition isStructTy (t : Ty) : bool :=
  match t with StructTy _ _ => true | _ => false end.

(** [Type::isSized]: integers, floating point and pointers are sized;
    arrays and vectors are when their element is; a structure is when it
    is not opaque and all its members are; nothing else is. *)
Fixpoint isSized (t : Ty) : bool :=
  match t with
  | IntegerTy _ | FloatTy | DoubleTy | PointerTy _ => true
  | ArrayTy _ e | VectorTy _ e => isSized e
  | StructTy _ None => false
  | StructTy _ (Some l) =>
      (fix all (l : list Ty) : bool :=
         match l with [] => true | x :: xs => isSized x && all xs end) l
  | VoidTy | LabelTy | FunctionTy _ _ _ => false
  end.

(** Values that occur as operands.  An instruction used as an operand is
    named by its identity and carries its type, as [Value::getType]. *)
Inductive value : Type :=
| ConstantInt (ty : Ty) (v : Z)
| ConstantArrayStr (s : string)
| ConstantNull (ty : Ty)
| VInst (id : nat) (ty : Ty)
| VGlobal (idx : nat) (ty : Ty)
| VFunction (id : nat) (ty : Ty)
| ConstBitCast (c : value) (ty : Ty)
| ConstInBoundsGEP (c : value) (i0 i1 : value).

(** [ConstantInt::get(Ty, V)]: the value is kept modulo the width. *)
Definition ConstantInt_get (ty : Ty) (v : Z) : value :=
  match ty with
  | IntegerTy bits => ConstantInt ty (v mod 2 ^ Z.of_N bits)
  | _ => ConstantInt ty v
  end.

Definition i8 : Ty := IntegerTy 8.
Definition i32 : Ty := IntegerTy 32.
Definition i64 : Ty := IntegerTy 64.

Fixpoint type_of (v : value) : Ty :=
  match v with
  | ConstantInt ty _ => ty
  | ConstantArrayStr s => ArrayTy (N.of_nat (String.length s) + 1) i8
  | ConstantNull ty => ty
  | VInst _ ty => ty
  | VGlobal _ ty => ty
  | VFunction _ ty => ty
  | ConstBitCast _ ty => ty
  | ConstInBoundsGEP c _ _ =>
      match type_of c with
      | PointerTy (ArrayTy _ e) => PointerTy e
      | PointerTy (StructTy _ (Some (e :: _))) => PointerTy e
      | t => t
      end
  end.

Definition DebugLoc : Type := option (nat * nat).

Inductive Predicate := ICMP_EQ | ICMP_NE.

(** The instructions the pass creates.  [Malloc] stands for the result of
    [CallInst::CreateMalloc(BB, IntPtrTy, AllocTy, AllocSize, ArraySize)],
    a pointer to [AllocTy] onto [AllocSize * ArraySize] fresh bytes;
    [Other] is any instruction of a function the pass does not build. *)
Inductive InstKind : Type :=
| Malloc (intPtrTy allocTy : Ty) (allocSize arraySize : value)
| BitCast (v : value) (ty : Ty)
| Mul (a b : value)
| Add (a b : value)
| Call (callee : value) (args : list value)
| Store (v ptr : value) (isVolatile : bool)
| Load (ptr : value) (isVolatile : bool)
| Alloca (ty : Ty)
| GetElementPtrInBounds (ptr idx : value)
| ICmp (p : Predicate) (a b : value)
| Br (cond : value) (ifTrue ifFalse : string)
| Ret (v : value)
| Unreachable
| Other (tag : nat).

Record Instruction : Type := mkInst {
  inst_id : nat;
  inst_kind : InstKind;
  inst_debugLoc : DebugLoc
}.

Definition pointee (t : Ty) : Ty :=
  match t with PointerTy e => e | _ => VoidTy end.

Definition kind_type (k : InstKind) : Ty :=
  match k with
  | Malloc _ allocTy _ _ => PointerTy allocTy
  | BitCast _ ty => ty
  | Mul a _ | Add a _ => type_of a
  | Call callee _ =>
      match pointee (type_of callee) with
      | FunctionTy r _ _ => r
      | _ => VoidTy
      end
  | Load p _ => pointee (type_of p)
  | Alloca ty => PointerTy ty
  | GetElementPtrInBounds p _ => type_of p
  | ICmp _ _ _ => IntegerTy 1
  | Store _ _ _ | Br _ _ _ | Ret _ | Unreachable | Other _ => VoidTy
  end.

Definition inst_type (i : Instruction) : Ty := kind_type (inst_kind i).

(** An instruction used as an operand. *)
Definition val (i : Instruction) : value := VInst (inst_id i) (inst_type i).

Record BasicBlock : Type := mkBB {
  bb_name : string;
  bb_insts : list Instruction
}.

Record Argument : Type := mkArg {
  arg_name : string;
  arg_type : Ty
}.

Inductive Linkage := ExternalLinkage | PrivateLinkage | InternalLinkage.

Record Function : Type := mkFunction {
  fn_id : nat;
  fn_name : string;
  fn_retTy : Ty;
  fn_args : list Argument;
  fn_isVarArg : bool;
  fn_linkage : Linkage;
  fn_noReturn : bool;
  fn_blocks : list BasicBlock
}.

Definition fn_functionType (f : Function) : Ty :=
  FunctionTy (fn_retTy f) (map arg_type (fn_args f)) (fn_isVarArg f).

(** A function used as an operand has pointer-to-function type. *)
Definition fn_value (f : Function) : value :=
  VFunction (fn_id f) (PointerTy (fn_functionType f)).

Record GlobalVariable : Type := mkGlobal {
  gv_name : string;
  gv_valueType : Ty;
  gv_isConstant : bool;
  gv_linkage : Linkage;
  gv_initializer : option value;
  gv_unnamedAddr : bool;
  gv_alignment : N
}.

Record Module : Type := mkModule {
  moduleIdentifier : string;
  functions : list Function;
  globals : list GlobalVariable
}.

End IR.

Import IR.

(* ===================================================================== *)
(** ** External collaborators *)
(* ===================================================================== *)

(** [TargetData]: the layout queries the pass makes (sizes in bytes). *)
Record TargetData : Type := mkTD {
  getPointerSize : Z;
  getStructLayoutSize : Ty -> Z;
  getTypeAllocSize : Ty -> Z
}.

Definition getIntPtrType (TD : TargetData) : Ty :=
  IntegerTy (Z.to_N (8 * getPointerSize TD)).

(** [callgraph::Callgraph]: [calls f] lists the (call site, callee) pairs
    of the calls made from function [f]; [callees f] the entries for the
    calls that invoke [f].  Functions are named by their identity. *)
Record Callgraph : Type := mkCG {
  calls : nat -> list (nat * nat);
  callees : nat -> list (nat * nat)
}.

(** What the verifier pass does with a broken module. *)
Inductive VerifierFailureAction :=
| AbortProcessAction
| PrintMessageAction
| ReturnStatusAction.

Record Services : Type := mkServices {
  TD : TargetData;
  CG : Callgraph;
  (** [getInitFuns(M)]: the operands of the initial-functions array, if
      the prepare stage left one. *)
  getInitFuns : option (list value);
  (** whether [raw_fd_ostream] opens the named file without error *)
  can_open : string -> bool;
  (** the verdict of the verifier pass on a module, and what the pass
      was built to do on rejection: [createVerifierPass()], called
      without an argument as in [writeMain], gives [AbortProcessAction] *)
  verifier_accepts : Module -> bool;
  verifier_action : VerifierFailureAction;
  (** the symbol table's choice of a name not yet in use *)
  uniqueName : list string -> string -> string
}.

(* ===================================================================== *)
(** ** The state and failure monad of the pass *)
(* ===================================================================== *)

(** Diagnostics written to [errs()]. *)
Inductive Diag :=
| DiagTypes (expected : option Ty) (actual : Ty)
| DiagCannotWrite (name : string)
| DiagWritten (name : string)
| DiagBrokenModule.

(** The [Kleerer] object together with what it acts on: the module [M],
    the flag [done], the error stream, the files written with their
    contents, the files created (and truncated) by opening them for
    output, and the next unused instruction identity. *)
Record KState : Type := mkState {
  M : Module;
  done : bool;
  errs : list Diag;
  written : list (string * Module);
  opened : list string;
  fresh : nat
}.

(** A failed [assert] and a verifier abort both end the process. *)
Inductive Failure :=
| AssertionFailed (msg : string)
| VerifierAbort.

Inductive Result (A : Type) : Type :=
| Ok (a : A) (s : KState)
| Abort (f : Failure) (s : KState).
Arguments Ok {A} a s.
Arguments Abort {A} f s.

Definition K (A : Type) : Type := KState -> Result A.

Definition ret {A} (a : A) : K A := fun s => Ok a s.
Definition bind {A B} (m : K A) (k : A -> K B) : K B :=
  fun s => match m s with
           | Ok a s' => k a s'
           | Abort f s' => Abort f s'
           end.
Definition abort {A} (f : Failure) : K A := fun s => Abort f s.
Definition get : K KState := fun s => Ok s s.
Definition put (s : KState) : K unit := fun _ => Ok tt s.

#[global] Instance K_ret : MRet K := @ret.
#[global] Instance K_bind : MBind K := fun A B k m => bind m k.

Definition assert (b : bool) (msg : string) : K unit :=
  if b then ret tt else abort (AssertionFailed msg).

Definition state_of {A} (r : Result A) : KState :=
  match r with Ok _ s => s | Abort _ s => s end.

Definition modify_module (f : Module -> Module) : K unit :=
  fun s => Ok tt (mkState (f (M s)) (done s) (errs s) (written s) (opened s)
                          (fresh s)).

Definition report (d : Diag) : K unit :=
  fun s => Ok tt (mkState (M s) (done s) (errs s ++ [d]) (written s)
                          (opened s) (fresh s)).

Fixpoint for_each {A} (l : list A) (body : A -> K unit) : K unit :=
  match l with
  | [] => ret tt
  | x :: rest => body x;; for_each rest body
  end.

(* ===================================================================== *)
(** ** The LLVM entry points the pass calls *)
(* ===================================================================== *)

Definition set_functions (fs : list Function) (m : Module) : Module :=
  mkModule (moduleIdentifier m) fs (globals m).

Definition set_globals (gs : list GlobalVariable) (m : Module) : Module :=
  mkModule (moduleIdentifier m) (functions m) gs.

Definition set_blocks (bs : list BasicBlock) (f : Function) : Function :=
  mkFunction (fn_id f) (fn_name f) (fn_retTy f) (fn_args f) (fn_isVarArg f)
             (fn_linkage f) (fn_noReturn f) bs.

Definition set_initializer (c : option value) (g : GlobalVariable)
  : GlobalVariable :=
  mkGlobal (gv_name g) (gv_valueType g) (gv_isConstant g) (gv_linkage g)
           c (gv_unnamedAddr g) (gv_alignment g).

(** In-place change of the function object with identity [id]. *)
Definition update_function (id : nat) (g : Function -> Function)
  (m : Module) : Module :=
  set_functions
    (map (fun f => if Nat.eqb (fn_id f) id then g f else f) (functions m)) m.

(** In-place change of the block named [name]. *)
Definition update_block (name : string) (g : list Instruction -> list Instruction)
  (f : Function) : Function :=
  set_blocks
    (map (fun b => if String.eqb (bb_name b) name
                   then mkBB (bb_name b) (g (bb_insts b)) else b)
         (fn_blocks f)) f.

(** A basic block is referred to through its function and its name. *)
Definition BBRef : Type := (nat * string)%type.

(** An identity no function of the module has. *)
Definition fresh_fn_id (m : Module) : nat :=
  S (max_list (map fn_id (functions m))).

Definition symbol_names (m : Module) : list string :=
  map fn_name (functions m) ++ map gv_name (globals m).

Definition getFunction (m : Module) (name : string) : option Function :=
  find (fun f => String.eqb (fn_name f) name) (functions m).

Definition getFunctionById (m : Module) (id : nat) : option Function :=
  find (fun f => Nat.eqb (fn_id f) id) (functions m).

Definition hasName (n : string) : bool := negb (String.eqb n "").

Definition hasInitializer (g : GlobalVariable) : bool :=
  match gv_initializer g with Some _ => true | None => false end.

(** For a global variable, a declaration is one without initializer. *)
Definition isDeclaration (g : GlobalVariable) : bool :=
  negb (hasInitializer g).

Section Kleerer.

Variable env : Services.

(** [Function::Create(Ty, Linkage, Name, &M)]: a new function without
    body, appended to the module's function list. *)
Definition Function_Create (retTy : Ty) (args : list Argument)
  (isVarArg : bool) (l : Linkage) (name : string) : K Function :=
  s ← get;
  let f := mkFunction (fresh_fn_id (M s))
                      (uniqueName env (symbol_names (M s)) name)
                      retTy args isVarArg l false [] in
  modify_module (fun m => set_functions (functions m ++ [f]) m);;
  mret f.

(** [BasicBlock::Create(C, Name, Fn)]: a new empty block at the end of
    the function. *)
Definition BasicBlock_Create (name : string) (fn : nat) : K BBRef :=
  modify_module
    (update_function fn (fun f => set_blocks (fn_blocks f ++ [mkBB name []]) f));;
  mret (fn, name).

(** A new instruction that is in no block yet. *)
Definition new_inst_dbg (k : InstKind) (dl : DebugLoc) : K Instruction :=
  fun s => Ok (mkInst (fresh s) k dl)
              (mkState (M s) (done s) (errs s) (written s) (opened s)
                       (S (fresh s))).

Definition new_inst (k : InstKind) : K Instruction := new_inst_dbg k None.

Definition push_back (bb : BBRef) (i : Instruction) : K unit :=
  modify_module
    (update_function (fst bb) (update_block (snd bb) (fun l => l ++ [i]))).

Definition push_front (bb : BBRef) (i : Instruction) : K unit :=
  modify_module
    (update_function (fst bb) (update_block (snd bb) (fun l => i :: l))).

(** A new instruction created with an insert-at-end block. *)
Definition create_at_end (bb : BBRef) (k : InstKind) : K Instruction :=
  i ← new_inst k;
  push_back bb i;;
  mret i.

(** [Module::getOrInsertFunction]: the function of that name, cast to the
    requested type if its own differs, or else a new declaration, which
    alone gets the attributes asked for.  (A function of that name with
    local linkage is not told apart here; LLVM declares a new function
    beside it.) *)
Definition getOrInsertFunction (name : string) (noReturn : bool)
  (retTy : Ty) (params : list Ty) : K value :=
  s ← get;
  let fty := FunctionTy retTy params false in
  match getFunction (M s) name with
  | None =>
      let f := mkFunction (fresh_fn_id (M s)) name retTy
                          (map (mkArg "") params) false ExternalLinkage
                          noReturn [] in
      modify_module (fun m => set_functions (functions m ++ [f]) m);;
      mret (fn_value f)
  | Some f =>
      if Ty_eqb (fn_functionType f) fty then mret (fn_value f)
      else mret (ConstBitCast (fn_value f) (PointerTy fty))
  end.

(** [CallInst::CreateMalloc] with an insert-at-end block: declares
    [malloc] if the module has none and returns the allocation, which the
    caller inserts. *)
Definition CreateMalloc (BB : BBRef) (IntPtrTy AllocTy : Ty)
  (AllocSize ArraySize : value) : K Instruction :=
  getOrInsertFunction "malloc" false (PointerTy i8) [IntPtrTy];;
  new_inst (Malloc IntPtrTy AllocTy AllocSize ArraySize).

(** [GV.setInitializer(c)] on the global at position [idx] of the list.
    LLVM asserts there that [c] has the value type of the global; the
    assertion is not part of this definition, and the statements that
    depend on it are made for modules whose state variables have the
    type of the constant stored (see [state_typed] below). *)
Definition setInitializer (idx : nat) (c : value) : K unit :=
  modify_module
    (fun m => set_globals (alter (set_initializer (Some c)) idx (globals m)) m).

(** The global variables with their positions, as a traversal meets them. *)
Definition global_list : K (list (nat * GlobalVariable)) :=
  s ← get; mret (imap (fun i g => (i, g)) (globals (M s))).

(** [Function::eraseFromParent]. *)
Definition eraseFromParent (id : nat) : K unit :=
  modify_module
    (fun m => set_functions
                (filter (fun f => fn_id f ≠ id) (functions m)) m).

(** The verifier pass run by a pass manager. *)
Definition run_verifier : K unit :=
  s ← get;
  if verifier_accepts env (M s) then mret tt
  else match verifier_action env with
       | AbortProcessAction => report DiagBrokenModule;; abort VerifierAbort
       | PrintMessageAction => report DiagBrokenModule
       | ReturnStatusAction => mret tt
       end.

(** [raw_fd_ostream out(name, ErrorInfo)]: the file is created, or
    truncated if it exists, when the stream is constructed; the result
    tells whether [ErrorInfo] stayed empty. *)
Definition raw_fd_ostream (name : string) : K bool :=
  fun s => if can_open env name
           then Ok true (mkState (M s) (done s) (errs s) (written s)
                                 (opened s ++ [name]) (fresh s))
           else Ok false s.

(** [WriteBitcodeToFile(&M, out)]. *)
Definition WriteBitcodeToFile (name : string) : K unit :=
  fun s => Ok tt (mkState (M s) (done s) (errs s)
                          (written s ++ [(name, M s)]) (opened s) (fresh s)).

(* ===================================================================== *)
(** ** Kleerer.cpp *)
(* ===================================================================== *)

Definition voidPtrType : Ty := PointerTy i8.
Definition intType : Ty := i32.
Definition uintType : Ty := i32.
Definition intPtrTy : Ty := getIntPtrType (TD env).

(** Conversion of a size to the C type [unsigned]. *)
Definition to_unsigned (z : Z) : Z := z mod 2 ^ 32.

(** [check(Func, Args)] *)
Fixpoint check_args (params : list Ty) (Args : list value) (i : nat)
  : K unit :=
  match Args with
  | [] => mret tt
  | a :: rest =>
      let same := match params !! i with
                  | Some t => Ty_eqb t (type_of a)
                  | None => false
                  end in
      (if negb same then report (DiagTypes (params !! i) (type_of a))
       else mret tt);;
      assert (bool_decide (length params ≤ i)%nat || same)
             "YYCalling a function with a bad signature!";;
      check_args params rest (S i)
  end.

Definition check (Func : value) (Args : list value) : K unit :=
  match pointee (type_of Func) with
  | FunctionTy _ params isVarArg =>
      assert (bool_decide (length Args = length params)
              || (isVarArg && bool_decide (length params < length Args)%nat))
             "XXCalling a function with bad signature!";;
      check_args params Args 0
  | _ => abort (AssertionFailed "cast<Ty>() argument of incompatible type!")
  end.

(** [getTypeSize(TD, type)] *)
Definition getTypeSize (type : Ty) : Z :=
  if isFunctionTy type then to_unsigned (getPointerSize (TD env))
  else if negb (isSized type) then 100
  else if isStructTy type then to_unsigned (getStructLayoutSize (TD env) type)
  else to_unsigned (getTypeAllocSize (TD env) type).

(** [Kleerer::createMalloc] *)
Definition createMalloc (BB : BBRef) (type : Ty) (arraySize : value)
  : K Instruction :=
  let typeSize := getTypeSize type in
  CreateMalloc BB intPtrTy type (ConstantInt_get intPtrTy typeSize) arraySize.

(** [getGlobalString(C, M, str)] *)
Definition getGlobalString (str : string) : K value :=
  s ← get;
  let strArray := ConstantArrayStr str in
  let idx := length (globals (M s)) in
  let strVar := mkGlobal "" (type_of strArray) true PrivateLinkage
                         (Some strArray) true 1 in
  modify_module (fun m => set_globals (globals m ++ [strVar]) m);;
  mret (ConstInBoundsGEP (VGlobal idx (PointerTy (type_of strArray)))
          (ConstantInt_get i32 0) (ConstantInt_get i32 0)).

(** [Kleerer::call_klee_make_symbolic] *)
Definition call_klee_make_symbolic (klee_make_symbolic : Function)
  (name : value) (BB : BBRef) (type : Ty) (addr : value)
  (arraySize : option value) : K Instruction :=
  addr ← (if negb (Ty_eqb (type_of addr) voidPtrType)
          then i ← create_at_end BB (BitCast addr voidPtrType); mret (val i)
          else mret addr);
  let size := ConstantInt_get uintType (getTypeSize type) in
  size ← match arraySize with
         | Some arraySize =>
             i ← create_at_end BB (Mul arraySize size); mret (val i)
         | None => mret size
         end;
  let p := [addr; size; name] in
  check (fn_value klee_make_symbolic) p;;
  new_inst (Call (fn_value klee_make_symbolic) p).

Definition isAiState (g : GlobalVariable) : bool :=
  hasName (gv_name g) && String.prefix "__ai_state_" (gv_name g).

(** The address of the global at position [idx]. *)
Definition global_addr (idx : nat) (g : GlobalVariable) : value :=
  VGlobal idx (PointerTy (gv_valueType g)).

(** [Kleerer::makeAiStateSymbolic].  The string globals appended during
    the traversal have no name, so the traversal skips them: it acts on
    the globals present on entry.  In [new StoreInst(zero, &GV, "", true,
    BB)] the third argument converts to [isVolatile = true]. *)
Definition makeAiStateSymbolic (klee_make_symbolic : Function)
  (BB : BBRef) : K unit :=
  let zero := ConstantInt_get intType 0 in
  gs ← global_list;
  for_each gs (fun '(idx, GV) =>
    if negb (isAiState GV) then mret tt
    else
      setInitializer idx zero;;
      glob_str ← getGlobalString (gv_name GV);
      ci ← call_klee_make_symbolic klee_make_symbolic glob_str BB intType
                                   (global_addr idx GV) None;
      push_back BB ci;;
      create_at_end BB (Store zero (global_addr idx GV) true);;
      mret tt).

(** [Kleerer::get_assert_fail] *)
Definition get_assert_fail : K value :=
  let constCharPtrTy := PointerTy i8 in
  getOrInsertFunction "__assert_fail" true VoidTy
    [constCharPtrTy; constCharPtrTy; uintType; constCharPtrTy].

Fixpoint sum_ai_state (BB : BBRef) (gs : list (nat * GlobalVariable))
  (sum : value) : K value :=
  match gs with
  | [] => mret sum
  | (idx, ai_state) :: rest =>
      if negb (isAiState ai_state) then sum_ai_state BB rest sum
      else
        ai_stateVal ← create_at_end BB (Load (global_addr idx ai_state) true);
        sum ← create_at_end BB (Add (val ai_stateVal) sum);
        sum_ai_state BB rest (val sum)
  end.

(** [Kleerer::checkAiState] *)
Definition checkAiState (mainFun : nat) (BB : BBRef) (debugLoc : DebugLoc)
  : K BBRef :=
  let zero := ConstantInt_get intType 0 in
  finalBB ← BasicBlock_Create "final" mainFun;
  assBB ← BasicBlock_Create "assertBB" mainFun;
  p0 ← getGlobalString "leaving function with lock held";
  p1 ← getGlobalString "n/a";
  p3 ← getGlobalString "main";
  let params := [p0; p1; zero; p3] in
  assert_fail ← get_assert_fail;
  ci ← new_inst_dbg (Call assert_fail params) debugLoc;
  push_back assBB ci;;
  create_at_end assBB Unreachable;;
  gs ← global_list;
  sum ← sum_ai_state BB gs zero;
  ai_stateIsZero ← create_at_end BB (ICmp ICMP_EQ sum zero);
  create_at_end BB (Br (val ai_stateIsZero) (snd finalBB) (snd assBB));;
  mret finalBB.

(** [Kleerer::addGlobals] *)
Definition addGlobals : K unit :=
  gs ← global_list;
  for_each gs (fun '(idx, G) =>
    if negb (isDeclaration G) || hasInitializer G then mret tt
    else setInitializer idx (ConstantNull (gv_valueType G))).

(** The body of the loop over the formal parameters in [writeMain]:
    the value to pass for one parameter, if any. *)
Definition param_value (klee_make_symbolic : Function) (mainBB : BBRef)
  (param : Argument) : K (option value) :=
  let type := arg_type param in
  name ← getGlobalString (if hasName (arg_name param) then arg_name param
                          else "noname");
  match type with
  | PointerTy elementType =>
      let arrSize := ConstantInt_get intType 4000 in
      ins ← createMalloc mainBB elementType arrSize;
      push_back mainBB ins;;
      ci ← call_klee_make_symbolic klee_make_symbolic name mainBB
                                   elementType (val ins) (Some arrSize);
      push_back mainBB ci;;
      let cast := negb (Ty_eqb (inst_type ins) voidPtrType) in
      ins ← (if cast
             then i ← new_inst (BitCast (val ins) voidPtrType);
                  push_back mainBB i;; mret i
             else mret ins);
      ins ← new_inst (GetElementPtrInBounds (val ins)
                        (ConstantInt_get i64 2000));
      push_back mainBB ins;;
      ins ← (if cast
             then i ← new_inst (BitCast (val ins) type);
                  push_back mainBB i;; mret i
             else mret ins);
      mret (Some (val ins))
  | IntegerTy _ =>
      ins ← new_inst (Alloca type);
      push_front mainBB ins;;
      ci ← call_klee_make_symbolic klee_make_symbolic name mainBB type
                                   (val ins) None;
      push_back mainBB ci;;
      ins ← new_inst (Load (val ins) false);
      push_back mainBB ins;;
      mret (Some (val ins))
  | _ => mret None
  end.

Fixpoint build_params (klee_make_symbolic : Function) (mainBB : BBRef)
  (args : list Argument) (params : list value) : K (list value) :=
  match args with
  | [] => mret params
  | param :: rest =>
      v ← param_value klee_make_symbolic mainBB param;
      build_params klee_make_symbolic mainBB rest
        (match v with Some v => params ++ [v] | None => params end)
  end.

(** [F.back().back().getDebugLoc()]; [back()] asserts a non-empty list. *)
Definition last_debugLoc (F : Function) : K DebugLoc :=
  match list.last (fn_blocks F) with
  | None => abort (AssertionFailed "Called back() on empty list!")
  | Some b =>
      match list.last (bb_insts b) with
      | None => abort (AssertionFailed "Called back() on empty list!")
      | Some i => mret (inst_debugLoc i)
      end
  end.

Definition artifact_name (m : Module) (F : Function) : string :=
  moduleIdentifier m ++ ".main." ++ fn_name F ++ ".o".

(** [Kleerer::writeMain] *)
Definition writeMain (F : Function) : K unit :=
  s ← get;
  let name := artifact_name (M s) F in
  mainFun ← Function_Create intType [] false ExternalLinkage "main";
  mainBB ← BasicBlock_Create "entry" (fn_id mainFun);
  klee_make_symbolic ←
    Function_Create VoidTy
      [mkArg "" (PointerTy i8); mkArg "" uintType; mkArg "" (PointerTy i8)]
      false ExternalLinkage "klee_make_symbolic";
  params ← build_params klee_make_symbolic mainBB (fn_args F) [];
  makeAiStateSymbolic klee_make_symbolic mainBB;;
  addGlobals;;
  check (fn_value F) params;;
  create_at_end mainBB (Call (fn_value F) params);;
  debugLoc ← last_debugLoc F;
  final ← checkAiState (fn_id mainFun) mainBB debugLoc;
  create_at_end final (Ret (ConstantInt_get (fn_retTy mainFun) 0));;
  out ← raw_fd_ostream name;
  if negb out then
    report (DiagCannotWrite name)
  else
    run_verifier;;
    WriteBitcodeToFile name;;
    report (DiagWritten name);;
    eraseFromParent (fn_id mainFun);;
    eraseFromParent (fn_id klee_make_symbolic).

(** The operand of the initial-functions array as a function:
    [cast<ConstantExpr>], the assertion on the opcode, [cast<Function>]. *)
Definition init_function (op : value) : K Function :=
  match op with
  | ConstBitCast (VFunction id _) _ =>
      s ← get;
      match getFunctionById (M s) id with
      | Some F => mret F
      | None =>
          abort (AssertionFailed "cast<Ty>() argument of incompatible type!")
      end
  | ConstInBoundsGEP _ _ _ =>
      abort (AssertionFailed "CE->getOpcode() == Instruction::BitCast")
  | _ => abort (AssertionFailed "cast<Ty>() argument of incompatible type!")
  end.

(** The inner loop of [run] over [CG.calls(&F)]. *)
Fixpoint calls_loop (F__assert_fail : Function) (F : Function)
  (cs : list (nat * nat)) : K unit :=
  match cs with
  | [] => mret tt
  | (_, callee) :: rest =>
      if Nat.eqb callee (fn_id F__assert_fail) then writeMain F
      else calls_loop F__assert_fail F rest
  end.

(** The outer loop of [run] over the initial functions. *)
Fixpoint candidates_loop (F__assert_fail : Function) (ops : list value)
  : K unit :=
  match ops with
  | [] => mret tt
  | op :: rest =>
      F ← init_function op;
      calls_loop F__assert_fail F (calls (CG env) (fn_id F));;
      s ← get;
      if done s then mret tt
      else candidates_loop F__assert_fail rest
  end.

(** [Kleerer::run] *)
Definition run : K bool :=
  s ← get;
  match getFunction (M s) "__assert_fail" with
  | None => mret false
  | Some F__assert_fail =>
      if Nat.eqb (length (callees (CG env) (fn_id F__assert_fail))) 0
      then mret false
      else
        match getInitFuns env with
        | None =>
            abort (AssertionFailed
                     "No initial functions found. Did you run -prepare?")
        | Some initFuns =>
            candidates_loop F__assert_fail initFuns;;
            mret false
        end
  end.

(** [KleererPass::runOnModule]: a [Kleerer] with [done = false] is run on
    the module. *)
Definition runOnModule (m : Module) : Result bool :=
  run (mkState m false [] [] [] 0).

End Kleerer.

(* ===================================================================== *)
(** ** Running a harness *)
(* ===================================================================== *)

(** An interpreter for the instructions the pass emits, to state what a
    synthesized harness does when the symbolic-execution engine runs it. *)
Module Harness.

(** Memory objects: a global variable (by position), a heap allocation
    and a stack slot (by the instruction that made them). *)
Inductive loc := LGlobal (idx : nat) | LHeap (id : nat) | LStack (id : nat).

Definition loc_eqb (a b : loc) : bool :=
  match a, b with
  | LGlobal i, LGlobal j | LHeap i, LHeap j | LStack i, LStack j => Nat.eqb i j
  | _, _ => false
  end.

Inductive mval := MInt (z : Z) | MPtr (l : loc) (ofs : Z) | MUndef.

(** A region handed to the symbolic-marking primitive. *)
Record Marking : Type := mkMarking {
  mk_addr : mval;
  mk_size : mval;
  mk_name : mval
}.

Record Machine : Type := mkMachine {
  regs : nat -> mval;             (* results of executed instructions *)
  mem : loc -> Z;                 (* the scalar each object holds *)
  heap : list (nat * Z);          (* allocations and their byte sizes *)
  symbolic : list Marking         (* regions marked symbolic so far *)
}.

Inductive Outcome :=
| Returned (v : mval)
| AssertFail (args : list mval)
| EndedIn (f : nat)               (* the call of [f] did not return *)
| Stuck.

Inductive Step :=
| Next (m : Machine)
| Jump (label : string) (m : Machine)
| Stop (o : Outcome).

Definition set_reg (r : nat) (v : mval) (m : Machine) : Machine :=
  mkMachine (fun r' => if Nat.eqb r' r then v else regs m r')
            (mem m) (heap m) (symbolic m).

Definition set_mem (l : loc) (z : Z) (m : Machine) : Machine :=
  mkMachine (regs m) (fun l' => if loc_eqb l' l then z else mem m l')
            (heap m) (symbolic m).

Definition callee_id (v : value) : option nat :=
  match v with
  | VFunction id _ => Some id
  | ConstBitCast (VFunction id _) _ => Some id
  | _ => None
  end.

Definition int_bits (t : Ty) : Z :=
  match t with IntegerTy b => Z.of_N b | _ => 0 end.

Section Exec.

Variable TD : TargetData.
(** the identities of the symbolic-marking and of the failure-reporting
    function *)
Variable klee_make_symbolic : nat.
Variable assert_fail : nat.
(** the contents the engine picks for the n-th region marked symbolic *)
Variable choice : nat -> Z.
(** a call to any other function: the memory it leaves if it returns,
    [None] if it does not (it ends the run itself, as a function that
    reaches the failure-reporting function does, or it never ends) *)
Variable external : nat -> list mval -> (loc -> Z) -> option (loc -> Z).

Fixpoint eval (m : Machine) (v : value) : mval :=
  match v with
  | ConstantInt _ z => MInt z
  | VInst id _ => regs m id
  | VGlobal idx _ => MPtr (LGlobal idx) 0
  | ConstBitCast c _ => eval m c
  | ConstInBoundsGEP c i0 i1 =>
      match eval m c, eval m i0, eval m i1 with
      | MPtr l ofs, MInt a, MInt b =>
          let t := pointee (type_of c) in
          let e := match t with
                   | ArrayTy _ e => e
                   | StructTy _ (Some (e :: _)) => e
                   | _ => t
                   end in
          MPtr l (ofs + a * getTypeAllocSize TD t + b * getTypeAllocSize TD e)
      | _, _, _ => MUndef
      end
  | ConstantArrayStr _ | ConstantNull _ | VFunction _ _ => MUndef
  end.

Definition arith (op : Z -> Z -> Z) (m : Machine) (a b : value) : mval :=
  match eval m a, eval m b with
  | MInt x, MInt y => MInt (op x y mod 2 ^ int_bits (type_of a))
  | _, _ => MUndef
  end.

(** The symbolic-marking primitive: the region is recorded and the
    object it starts in gets contents of the engine's choice. *)
Definition mark_symbolic (vs : list mval) (m : Machine) : Machine :=
  match vs with
  | [addr; size; name] =>
      let m' := mkMachine (regs m) (mem m) (heap m)
                  (symbolic m ++ [mkMarking addr size name]) in
      match addr with
      | MPtr l _ => set_mem l (choice (length (symbolic m))) m'
      | _ => m'
      end
  | _ => m
  end.

Definition exec_call (id : nat) (callee : value) (args : list value)
  (m : Machine) : Step :=
  let vs := map (eval m) args in
  match callee_id callee with
  | Some f =>
      if Nat.eqb f assert_fail then Stop (AssertFail vs)
      else if Nat.eqb f klee_make_symbolic then Next (mark_symbolic vs m)
      else match external f vs (mem m) with
           | Some mem' => Next (mkMachine (regs m) mem' (heap m) (symbolic m))
           | None => Stop (EndedIn f)
           end
  | None => Stop Stuck
  end.

(** One instruction.  Operands of the wrong kind give an undefined
    result rather than stopping the run; only calls, branches, returns
    and [unreachable] can end straight-line execution. *)
Definition exec_inst (i : Instruction) (m : Machine) : Step :=
  let id := inst_id i in
  match inst_kind i with
  | Malloc intPtrTy _ allocSize arraySize =>
      let bytes := match eval m allocSize, eval m arraySize with
                   | MInt sz, MInt n => (sz * n) mod 2 ^ int_bits intPtrTy
                   | _, _ => 0
                   end in
      Next (set_reg id (MPtr (LHeap id) 0)
              (mkMachine (regs m) (mem m) (heap m ++ [(id, bytes)])
                         (symbolic m)))
  | BitCast v _ => Next (set_reg id (eval m v) m)
  | Mul a b => Next (set_reg id (arith Z.mul m a b) m)
  | Add a b => Next (set_reg id (arith Z.add m a b) m)
  | Call callee args => exec_call id callee args m
  | Store v p _ =>
      match eval m p, eval m v with
      | MPtr l _, MInt z => Next (set_mem l z m)
      | _, _ => Next m
      end
  | Load p _ =>
      match eval m p with
      | MPtr l _ => Next (set_reg id (MInt (mem m l)) m)
      | _ => Next (set_reg id MUndef m)
      end
  | Alloca _ => Next (set_reg id (MPtr (LStack id) 0) m)
  | GetElementPtrInBounds p idx =>
      match eval m p, eval m idx with
      | MPtr l ofs, MInt n =>
          Next (set_reg id
                  (MPtr l (ofs + n * getTypeAllocSize TD (pointee (type_of p))))
                  m)
      | _, _ => Next (set_reg id MUndef m)
      end
  | ICmp p a b =>
      match eval m a, eval m b with
      | MInt x, MInt y =>
          let eq := Z.eqb x y in
          Next (set_reg id
                  (MInt (if match p with ICMP_EQ => eq | ICMP_NE => negb eq end
                         then 1 else 0)) m)
      | _, _ => Next (set_reg id MUndef m)
      end
  | Br c t f =>
      match eval m c with
      | MInt z => Jump (if Z.eqb z 0 then f else t) m
      | _ => Stop Stuck
      end
  | Ret v => Stop (Returned (eval m v))
  | Unreachable | Other _ => Stop Stuck
  end.

(** Straight-line execution, up to the first jump or stop. *)
Fixpoint exec_insts (l : list Instruction) (m : Machine) : Step :=
  match l with
  | [] => Next m
  | i :: rest =>
      match exec_inst i m with
      | Next m' => exec_insts rest m'
      | r => r
      end
  end.

Definition find_block (bs : list BasicBlock) (label : string)
  : option BasicBlock :=
  find (fun b => String.eqb (bb_name b) label) bs.

(** Execution of a function body from the block [label]; [fuel] bounds
    the number of blocks entered. *)
Fixpoint exec_blocks (fuel : nat) (bs : list BasicBlock) (label : string)
  (m : Machine) : Outcome :=
  match fuel with
  | O => Stuck
  | S fuel =>
      match find_block bs label with
      | None => Stuck
      | Some b =>
          match exec_insts (bb_insts b) m with
          | Next _ => Stuck
          | Jump l m' => exec_blocks fuel bs l m'
          | Stop o => o
          end
      end
  end.

(** Execution resumed inside a block, at the instructions [rest]. *)
Definition exec_from (fuel : nat) (bs : list BasicBlock)
  (rest : list Instruction) (m : Machine) : Outcome :=
  match exec_insts rest m with
  | Next _ => Stuck
  | Jump l m' => exec_blocks fuel bs l m'
  | Stop o => o
  end.

End Exec.

End Harness.

Import Harness.

(* ===================================================================== *)
(** ** The harness [writeMain] builds, as data *)
(* ===================================================================== *)

(** The instructions, globals and states that the calls of [writeMain]
    produce one after the other, written as functions of the state the
    call starts from.  The facts further down show that the pass computes
    exactly these. *)

Section Synthesis.

Variable env : Services.

#[local] Abbreviation getTypeSize := (getTypeSize env).
#[local] Abbreviation intPtrTy := (intPtrTy env).

Definition klee_args : list Argument :=
  [mkArg "" (PointerTy i8); mkArg "" uintType; mkArg "" (PointerTy i8)].

(** The entry function created from state [s0], with blocks [bs]. *)
Definition main_fn (s0 : KState) (bs : list BasicBlock) : Function :=
  mkFunction (fresh_fn_id (M s0))
             (uniqueName env (symbol_names (M s0)) "main")
             intType [] false ExternalLinkage false bs.

(** The declaration of the symbolic-marking primitive created next. *)
Definition klee_fn (s0 : KState) : Function :=
  mkFunction (S (fresh_fn_id (M s0)))
             (uniqueName env
                (symbol_names
                   (set_functions
                      (functions (M s0) ++ [main_fn s0 [mkBB "entry" []]])
                      (M s0)))
                "klee_make_symbolic")
             VoidTy klee_args false ExternalLinkage false [].

(** Declarations of library functions added on demand. *)
Definition lib_decl (f : Function) : Prop :=
  fn_blocks f = [] /\ (fn_name f = "malloc" \/ fn_name f = "__assert_fail").

Definition decls_ok (s0 : KState) (decls : list Function) : Prop :=
  Forall (fun f => (S (fresh_fn_id (M s0)) < fn_id f)%nat /\ lib_decl f) decls.

(** The state while the harness for a candidate is under construction:
    the module of [s0] followed by the two scaffolding functions and the
    library declarations [decls], with globals [gs]. *)
Definition st (s0 : KState) (bs : list BasicBlock) (decls : list Function)
  (gs : list GlobalVariable) (n : nat) : KState :=
  mkState (mkModule (moduleIdentifier (M s0))
             (functions (M s0) ++ main_fn s0 bs :: klee_fn s0 :: decls) gs)
          (done s0) (errs s0) (written s0) (opened s0) n.

Definition on_block (name : string)
  (g : list Instruction -> list Instruction) (bs : list BasicBlock)
  : list BasicBlock :=
  map (fun b => if String.eqb (bb_name b) name
                then mkBB (bb_name b) (g (bb_insts b)) else b) bs.

(** The private constant that [getGlobalString] creates, and the pointer
    to its first character the call returns. *)
Definition str_global (s : string) : GlobalVariable :=
  mkGlobal "" (type_of (ConstantArrayStr s)) true PrivateLinkage
           (Some (ConstantArrayStr s)) true 1.

Definition str_ptr (idx : nat) (s : string) : value :=
  ConstInBoundsGEP (VGlobal idx (PointerTy (type_of (ConstantArrayStr s))))
                   (ConstantInt_get i32 0) (ConstantInt_get i32 0).

(** [v] denotes, possibly through a cast, a function of [fs] called
    [name]. *)
Definition denotes (fs : list Function) (v : value) (name : string) : Prop :=
  exists f, In f fs /\ fn_name f = name /\ callee_id v = Some (fn_id f).

(** [v] is, possibly through a cast, the function called [name] that the
    module of [s0] has, if it has one. *)
Definition own (s0 : KState) (v : value) (name : string) : Prop :=
  forall f0, getFunction (M s0) name = Some f0 ->
             callee_id v = Some (fn_id f0).

#[local] Abbreviation st1 s0 E decls gs n :=
  (st s0 [mkBB "entry" E] decls gs n).

Definition mainBB (s0 : KState) : BBRef := (fresh_fn_id (M s0), "entry").

(** *** [call_klee_make_symbolic] *)

(** The address operand, cast to [i8*] unless it has that type. *)
Definition klee_cast (n : nat) (addr : value) : list Instruction :=
  if negb (Ty_eqb (type_of addr) voidPtrType)
  then [mkInst n (BitCast addr voidPtrType) None] else [].

Definition klee_addr (n : nat) (addr : value) : value :=
  if negb (Ty_eqb (type_of addr) voidPtrType)
  then VInst n voidPtrType else addr.

Definition klee_n1 (n : nat) (addr : value) : nat :=
  if negb (Ty_eqb (type_of addr) voidPtrType) then S n else n.

(** The size operand: the type's size, times the element count if any. *)
Definition klee_mul (n : nat) (type : Ty) (arraySize : option value)
  : list Instruction :=
  match arraySize with
  | Some a =>
      [mkInst n (Mul a (ConstantInt_get uintType (getTypeSize type))) None]
  | None => []
  end.

Definition klee_size (n : nat) (type : Ty) (arraySize : option value)
  : value :=
  match arraySize with
  | Some a => VInst n (type_of a)
  | None => ConstantInt_get uintType (getTypeSize type)
  end.

Definition klee_n2 (n : nat) (arraySize : option value) : nat :=
  match arraySize with Some _ => S n | None => n end.

(** What one call to [call_klee_make_symbolic] appends to the block, the
    call it returns, and the next free identity. *)
Definition klee_pre (n : nat) (type : Ty) (addr : value)
  (arraySize : option value) : list Instruction :=
  klee_cast n addr ++ klee_mul (klee_n1 n addr) type arraySize.

Definition klee_call (s0 : KState) (n : nat) (name : value) (type : Ty)
  (addr : value) (arraySize : option value) : Instruction :=
  mkInst (klee_n2 (klee_n1 n addr) arraySize)
         (Call (fn_value (klee_fn s0))
               [klee_addr n addr;
                klee_size (klee_n1 n addr) type arraySize; name])
         None.

Definition klee_next (n : nat) (addr : value) (arraySize : option value)
  : nat :=
  S (klee_n2 (klee_n1 n addr) arraySize).

(** *** The code for one formal parameter *)

Definition param_label (param : Argument) : string :=
  if hasName (arg_name param) then arg_name param else "noname".

Definition arrSize : value := ConstantInt_get intType 4000.

Record ParamCode : Type := mkPC {
  pc_front : list Instruction;   (* pushed at the front of the block *)
  pc_back : list Instruction;    (* pushed at the back of the block *)
  pc_val : option value;         (* the argument passed, if any *)
  pc_next : nat                  (* the next unused identity *)
}.

Definition malloc_inst (n : nat) (e : Ty) : Instruction :=
  mkInst n (Malloc intPtrTy e (ConstantInt_get intPtrTy (getTypeSize e))
                   arrSize) None.

Definition pointer_code (s0 : KState) (n glen : nat) (param : Argument)
  (e : Ty) : ParamCode :=
  let name := str_ptr glen (param_label param) in
  let ins := malloc_inst n e in
  let pre := klee_pre (S n) e (val ins) (Some arrSize) in
  let ci := klee_call s0 (S n) name e (val ins) (Some arrSize) in
  let n1 := klee_next (S n) (val ins) (Some arrSize) in
  if negb (Ty_eqb (PointerTy e) voidPtrType) then
    let i1 := mkInst n1 (BitCast (val ins) voidPtrType) None in
    let gep := mkInst (S n1) (GetElementPtrInBounds (val i1)
                                (ConstantInt_get i64 2000)) None in
    let i2 := mkInst (S (S n1)) (BitCast (val gep) (PointerTy e)) None in
    mkPC [] (ins :: pre ++ [ci; i1; gep; i2]) (Some (val i2)) (S (S (S n1)))
  else
    let gep := mkInst n1 (GetElementPtrInBounds (val ins)
                            (ConstantInt_get i64 2000)) None in
    mkPC [] (ins :: pre ++ [ci; gep]) (Some (val gep)) (S n1).

Definition integer_code (s0 : KState) (n glen : nat) (param : Argument)
  : ParamCode :=
  let type := arg_type param in
  let name := str_ptr glen (param_label param) in
  let al := mkInst n (Alloca type) None in
  let pre := klee_pre (S n) type (val al) None in
  let ci := klee_call s0 (S n) name type (val al) None in
  let n1 := klee_next (S n) (val al) None in
  let ld := mkInst n1 (Load (val al) false) None in
  mkPC [al] (pre ++ [ci; ld]) (Some (val ld)) (S n1).

Definition param_code (s0 : KState) (n glen : nat) (param : Argument)
  : ParamCode :=
  match arg_type param with
  | PointerTy e => pointer_code s0 n glen param e
  | IntegerTy _ => integer_code s0 n glen param
  | _ => mkPC [] [] None n
  end.

(** *** The loop over the formal parameters *)

Record ParamsCode : Type := mkPS {
  ps_front : list Instruction;
  ps_back : list Instruction;
  ps_vals : list value;
  ps_next : nat
}.

Definition option_list {A} (o : option A) : list A :=
  match o with Some a => [a] | None => [] end.

Fixpoint params_code (s0 : KState) (n glen : nat) (args : list Argument)
  : ParamsCode :=
  match args with
  | [] => mkPS [] [] [] n
  | param :: rest =>
      let c := param_code s0 n glen param in
      let r := params_code s0 (pc_next c) (S glen) rest in
      mkPS (ps_front r ++ pc_front c) (pc_back c ++ ps_back r)
           (option_list (pc_val c) ++ ps_vals r) (ps_next r)
  end.

(** *** The traversals of the global variables *)

(** The globals [l] with their positions, the first one at [k]. *)
Definition indexed (k : nat) (l : list GlobalVariable)
  : list (nat * GlobalVariable) :=
  imap (fun i g => ((k + i)%nat, g)) l.

Definition zero : value := ConstantInt_get intType 0.

(** What [makeAiStateSymbolic] emits for the state variable [g] at
    position [idx]. *)
Definition ai_insts (s0 : KState) (n glen idx : nat) (g : GlobalVariable)
  : list Instruction :=
  let addr := global_addr idx g in
  klee_pre n intType addr None ++
  [klee_call s0 n (str_ptr glen (gv_name g)) intType addr None;
   mkInst (klee_next n addr None) (Store zero addr true) None].

Definition ai_next (n idx : nat) (g : GlobalVariable) : nat :=
  S (klee_next n (global_addr idx g) None).

Fixpoint ai_code (s0 : KState) (n glen : nat)
  (l : list (nat * GlobalVariable)) : list Instruction * nat :=
  match l with
  | [] => ([], n)
  | (idx, g) :: rest =>
      if isAiState g then
        let r := ai_code s0 (ai_next n idx g) (S glen) rest in
        (ai_insts s0 n glen idx g ++ fst r, snd r)
      else ai_code s0 n glen rest
  end.

(** Its effect on the globals: state variables get a zero initializer;
    one string constant per state variable is appended. *)
Definition zeroed (g : GlobalVariable) : GlobalVariable :=
  if isAiState g then set_initializer (Some zero) g else g.

Definition ai_strings (l : list GlobalVariable) : list GlobalVariable :=
  map (fun g => str_global (gv_name g)) (List.filter isAiState l).

Definition ai_body (s0 : KState) : nat * GlobalVariable -> K unit :=
  fun '(idx, GV) =>
    if negb (isAiState GV) then mret tt
    else
      setInitializer idx zero;;
      glob_str ← getGlobalString (gv_name GV);
      ci ← call_klee_make_symbolic env (klee_fn s0) glob_str (mainBB s0)
                                   intType (global_addr idx GV) None;
      push_back (mainBB s0) ci;;
      create_at_end (mainBB s0) (Store zero (global_addr idx GV) true);;
      mret tt.

(** [addGlobals] gives every global without initializer a null one. *)
Definition nulled (g : GlobalVariable) : GlobalVariable :=
  if hasInitializer g then g
  else set_initializer (Some (ConstantNull (gv_valueType g))) g.

Definition add_body : nat * GlobalVariable -> K unit :=
  fun '(idx, G) =>
    if negb (isDeclaration G) || hasInitializer G then mret tt
    else setInitializer idx (ConstantNull (gv_valueType G)).

(** *** The invariant check *)

Fixpoint sum_code (n : nat) (l : list (nat * GlobalVariable)) (sum : value)
  : list Instruction * (value * nat) :=
  match l with
  | [] => ([], (sum, n))
  | (idx, g) :: rest =>
      if isAiState g then
        let ld := mkInst n (Load (global_addr idx g) true) None in
        let ad := mkInst (S n) (Add (val ld) sum) None in
        let r := sum_code (S (S n)) rest (val ad) in
        (ld :: ad :: fst r, snd r)
      else sum_code n rest sum
  end.

Definition lock_msg : string := "leaving function with lock held".

Definition check_strings : list GlobalVariable :=
  [str_global lock_msg; str_global "n/a"; str_global "main"].

(** The failure block: the call to [__assert_fail] and [unreachable]. *)
Definition assert_block (af : value) (dl : DebugLoc) (n glen : nat)
  : list Instruction :=
  [mkInst n (Call af [str_ptr glen lock_msg; str_ptr (S glen) "n/a"; zero;
                      str_ptr (S (S glen)) "main"]) dl;
   mkInst (S n) Unreachable None].

(** What [checkAiState] appends to the entry block: the loads and the
    sum, the comparison with zero and the branch. *)
Definition check_tail (n : nat) (gs : list GlobalVariable)
  : list Instruction :=
  let c := sum_code n (indexed 0 gs) zero in
  let n2 := snd (snd c) in
  let cmp := mkInst n2 (ICmp ICMP_EQ (fst (snd c)) zero) None in
  fst c ++ [cmp; mkInst (S n2) (Br (val cmp) "final" "assertBB") None].

Definition check_next (n : nat) (gs : list GlobalVariable) : nat :=
  S (S (snd (snd (sum_code n (indexed 0 gs) zero)))).

(** *** The arguments constructed for the candidate *)

Definition supported (t : Ty) : bool := isPointerTy t || isIntegerTy t.

Section Candidate.

Variable s0 : KState.
Variable F : Function.

Definition h_params : ParamsCode :=
  params_code s0 (fresh s0) (length (globals (M s0))) (fn_args F).

(** the globals after the parameter loop ... *)
Definition h_globals1 : list GlobalVariable :=
  globals (M s0) ++ map (fun a => str_global (param_label a)) (fn_args F).

Definition h_ai : list Instruction * nat :=
  ai_code s0 (ps_next h_params) (length h_globals1) (indexed 0 h_globals1).

(** ... after [makeAiStateSymbolic] and [addGlobals] ... *)
Definition h_globals3 : list GlobalVariable :=
  map nulled (map zeroed h_globals1 ++ ai_strings h_globals1).

(** ... and in the finished harness. *)
Definition h_globals : list GlobalVariable := h_globals3 ++ check_strings.

(** The entry block up to the call of the candidate. *)
Definition h_prefix : list Instruction :=
  ps_front h_params ++ ps_back h_params ++ fst h_ai.

Definition h_call : Instruction :=
  mkInst (snd h_ai) (Call (fn_value F) (ps_vals h_params)) None.

Definition h_tail : list Instruction :=
  check_tail (S (S (S (snd h_ai)))) h_globals.

Definition h_entry : list Instruction := h_prefix ++ h_call :: h_tail.

Definition h_assert (af : value) (dl : DebugLoc) : list Instruction :=
  assert_block af dl (S (snd h_ai)) (length h_globals3).

Definition h_ret : Instruction :=
  mkInst (check_next (S (S (S (snd h_ai)))) h_globals)
         (Ret (ConstantInt_get intType 0)) None.

(** The blocks of the finished entry function. *)
Definition h_blocks (af : value) (dl : DebugLoc) : list BasicBlock :=
  [mkBB "entry" h_entry; mkBB "final" [h_ret];
   mkBB "assertBB" (h_assert af dl)].

(** The state when the harness is finished, before the file is opened. *)
Definition built (af : value) (dl : DebugLoc) (decls : list Function)
  : KState :=
  st s0 (h_blocks af dl) decls h_globals (S (inst_id h_ret)).

(** The state when the signature check runs. *)
Definition prepared (decls : list Function) : KState :=
  st1 s0 h_prefix decls h_globals3 (snd h_ai).

(** [F.back().back().getDebugLoc()], when both lists are non-empty. *)
Definition debugLoc_of : option DebugLoc :=
  match list.last (fn_blocks F) with
  | None => None
  | Some b =>
      match list.last (bb_insts b) with
      | None => None
      | Some i => Some (inst_debugLoc i)
      end
  end.

(** The last part of [writeMain]: opening the file, verifying, writing
    and removing the scaffolding. *)
Definition emit (name : string) : K unit :=
  out ← raw_fd_ostream env name;
  if negb out then
    report (DiagCannotWrite name)
  else
    run_verifier env;;
    WriteBitcodeToFile name;;
    report (DiagWritten name);;
    eraseFromParent (fn_id (main_fn s0 []));;
    eraseFromParent (fn_id (klee_fn s0)).

(** The part of [writeMain] from the signature check on. *)
Definition finish (params : list value) : K unit :=
  check (fn_value F) params;;
  create_at_end (mainBB s0) (Call (fn_value F) params);;
  debugLoc ← last_debugLoc F;
  final ← checkAiState (fresh_fn_id (M s0)) (mainBB s0) debugLoc;
  create_at_end final (Ret (ConstantInt_get intType 0));;
  emit (artifact_name (M s0) F).

(** *** Opening, verifying, writing, cleaning up *)

(** The state [s] once the file [name] has been created. *)
Definition created (name : string) (s : KState) : KState :=
  mkState (M s) (done s) (errs s) (written s) (opened s ++ [name]) (fresh s).

Definition add_errs (ds : list Diag) (s : KState) : KState :=
  mkState (M s) (done s) (errs s ++ ds) (written s) (opened s) (fresh s).

(** The state once an artifact is written and the scaffolding removed. *)
Definition cleaned (name : string) (ds : list Diag) (s : KState)
  (decls : list Function) : KState :=
  mkState (mkModule (moduleIdentifier (M s0)) (functions (M s0) ++ decls)
                    (globals (M s)))
          (done s) (errs s ++ ds ++ [DiagWritten name])
          (written s ++ [(name, M s)]) (opened s ++ [name]) (fresh s).

End Candidate.

End Synthesis.

(* ===================================================================== *)
(** ** A small program to run the pass on *)
(* ===================================================================== *)

Module Example.

(** A 64-bit target: integers take their width in bytes, pointers 8. *)
Definition td : TargetData :=
  mkTD 8 (fun _ => 12)
       (fun t => match t with
                 | IntegerTy b => (Z.of_N b + 7) / 8
                 | PointerTy _ => 8
                 | _ => 16
                 end).

Definition assert_fail_fn : Function :=
  mkFunction 0 "__assert_fail" VoidTy
    [mkArg "" (PointerTy i8); mkArg "" (PointerTy i8); mkArg "" i32;
     mkArg "" (PointerTy i8)]
    false ExternalLinkage true [].

Definition body : list BasicBlock :=
  [mkBB "entry" [mkInst 0 (Other 0) (Some (3, 1)%nat)]].

(** Candidates: [A] takes a pointer to [i32] and an integer, [B] a
    pointer to [i8], [G] a floating-point number; [idle] calls nothing. *)
Definition fA : Function :=
  mkFunction 1 "A" VoidTy [mkArg "p" (PointerTy i32); mkArg "" i32]
             false ExternalLinkage false body.
Definition fB : Function :=
  mkFunction 2 "B" VoidTy [mkArg "q" (PointerTy i8)]
             false ExternalLinkage false body.
Definition fG : Function :=
  mkFunction 3 "G" VoidTy [mkArg "x" DoubleTy; mkArg "n" i32]
             false ExternalLinkage false body.
Definition idle : Function :=
  mkFunction 4 "idle" VoidTy [] false ExternalLinkage false body.

Definition lock : GlobalVariable :=
  mkGlobal "__ai_state_lock" i32 false ExternalLinkage
           (Some (ConstantInt i32 7)) false 4.
Definition ext : GlobalVariable :=
  mkGlobal "ext" i64 false ExternalLinkage None false 8.

Definition m0 : Module :=
  mkModule "mod" [assert_fail_fn; fA; fB; fG; idle] [lock; ext].

(** The same program with [__assert_fail] declared without the
    [noreturn] attribute. *)
Definition returning_assert_fail : Function :=
  mkFunction 0 "__assert_fail" VoidTy
    [mkArg "" (PointerTy i8); mkArg "" (PointerTy i8); mkArg "" i32;
     mkArg "" (PointerTy i8)]
    false ExternalLinkage false [].
Definition m_returning : Module :=
  mkModule "mod" [returning_assert_fail; fA; fB; fG; idle] [lock; ext].

(** The same program without the failure-reporting function. *)
Definition m_quiet : Module := mkModule "mod" [fA; fB; idle] [lock; ext].

(** [A] and [G] call [__assert_fail] directly, [B] after another call;
    [idle] reaches it only through [A]. *)
Definition cg : Callgraph :=
  mkCG (fun f => match f with
                 | 1 => [(10, 0)]
                 | 2 => [(11, 4); (12, 0)]
                 | 3 => [(13, 0)]
                 | 4 => [(14, 1)]
                 | _ => []
                 end)%nat
       (fun f => match f with
                 | 0 => [(10, 0); (12, 0); (13, 0)]
                 | _ => []
                 end)%nat.

(** A call graph in which nothing calls [__assert_fail]. *)
Definition cg_uncalled : Callgraph := mkCG (fun _ => []) (fun _ => []).

Definition cand (f : Function) : value :=
  ConstBitCast (fn_value f) (PointerTy i8).

Definition plain_name (used : list string) (s : string) : string := s.

(** Services: candidates [A; B], every file opens, the verifier accepts. *)
Definition env0 : Services :=
  mkServices td cg (Some [cand fA; cand fB]) (fun _ => true) (fun _ => true)
             AbortProcessAction plain_name.

(** Nothing calls the failure-reporting function. *)
Definition env_uncalled : Services :=
  mkServices td cg_uncalled (Some [cand fA; cand fB]) (fun _ => true)
             (fun _ => true) AbortProcessAction plain_name.

(** No file can be opened. *)
Definition env_readonly : Services :=
  mkServices td cg (Some [cand fA; cand fB]) (fun _ => false)
             (fun _ => true) AbortProcessAction plain_name.

(** Only [B]'s file can be opened. *)
Definition env_only_B : Services :=
  mkServices td cg (Some [cand fA; cand fB])
             (fun n => String.eqb n "mod.main.B.o")
             (fun _ => true) AbortProcessAction plain_name.

(** The verifier rejects everything. *)
Definition env_reject_abort : Services :=
  mkServices td cg (Some [cand fA; cand fB]) (fun _ => true)
             (fun _ => false) AbortProcessAction plain_name.

(** Candidates [G; B]. *)
Definition env_G : Services :=
  mkServices td cg (Some [cand fG; cand fB]) (fun _ => true) (fun _ => true)
             AbortProcessAction plain_name.

Definition s0 : KState := mkState m0 false [] [] [] 0.
Definition s_quiet : KState := mkState m_quiet false [] [] [] 0.
Definition s_returning : KState := mkState m_returning false [] [] [] 0.

(** A machine whose registers are undefined and whose cells hold [v]. *)
Definition machine (v : Z) : Machine :=
  mkMachine (fun _ => MUndef) (fun _ => v) [] [].

End Example.

(* ===================================================================== *)
(** ** Notions the statements are written with *)
(* ===================================================================== *)

(** [i] is not a call of [v]. *)
Definition not_call_to (v : value) (i : Instruction) : Prop :=
  forall args, inst_kind i <> Call v args.

(** Every formal parameter of [F] is a pointer or an integer. *)
Definition all_supported (F : Function) : bool :=
  forallb (fun a => supported (arg_type a)) (fn_args F).

(** The candidate [F] has a direct call edge to [Faf]. *)
Definition qualifies (env : Services) (Faf F : Function) : bool :=
  existsb (fun c => Nat.eqb (snd c) (fn_id Faf)) (calls (CG env) (fn_id F)).

Definition failure_of {A} (r : Result A) : option Failure :=
  match r with Ok _ _ => None | Abort f _ => Some f end.

(** The function an operand of the initial-functions array stands for. *)
Definition candidate_of (m : Module) (op : value) : option Function :=
  match op with
  | ConstBitCast (VFunction id _) _ => getFunctionById m id
  | _ => None
  end.

(** A candidate for which synthesis and emission go through. *)
Definition well_behaved (env : Services) (m : Module) (F : Function) : Prop :=
  all_supported F = true /\ debugLoc_of F <> None /\
  can_open env (artifact_name m F) = true.

(** Every state variable of [m] is an [i32], the type of the constant
    that [makeAiStateSymbolic] makes its initializer and stores to it, and
    of the sum that [checkAiState] adds its value to. *)
Definition state_typed (m : Module) : Prop :=
  Forall (fun g => isAiState g = true -> gv_valueType g = intType)
         (globals m).

(** The state is that of a run on [m]: same identifier, the functions of
    [m] followed by library declarations, flag not set. *)
Definition run_state (m : Module) (s : KState) : Prop :=
  moduleIdentifier (M s) = moduleIdentifier m /\
  (exists decls, functions (M s) = functions m ++ decls) /\
  done s = false.

Section Running.

Variable env : Services.
Variable s0 : KState.

(** The harness calls the symbolic-marking primitive it declared. *)
Definition klee_id : nat := fn_id (klee_fn env s0).

(** Instructions after which execution always continues: no terminator,
    and no call but to the symbolic-marking primitive. *)
Definition plain (i : Instruction) : Prop :=
  match inst_kind i with
  | Br _ _ _ | Ret _ | Unreachable | Other _ => False
  | Call c _ => callee_id c = Some klee_id
  | _ => True
  end.

(** [l] is one of the state variables listed in [gs]. *)
Definition is_state_loc (gs : list (nat * GlobalVariable)) (l : loc) : bool :=
  existsb (fun p => isAiState (snd p) && loc_eqb l (LGlobal (fst p))) gs.

End Running.

(** The sum the harness computes from the state variables listed in
    [gs], starting from [acc]: each addition wraps at the width of the
    variable added. *)
Fixpoint state_sum (mem : loc -> Z) (gs : list (nat * GlobalVariable))
  (acc : Z) : Z :=
  match gs with
  | [] => acc
  | (idx, g) :: rest =>
      if isAiState g then
        state_sum mem rest
          ((mem (LGlobal idx) + acc) mod 2 ^ int_bits (gv_valueType g))
      else state_sum mem rest acc
  end.

(** [v] is a constant or the result of an instruction older than [n]. *)
Definition older (n : nat) (v : value) : Prop :=
  match v with
  | VInst r _ => (r < n)%nat
  | ConstantInt _ _ => True
  | _ => False
  end.

(** The identities of a piece of emitted code lie in [lo, hi). *)
Definition ids_in (lo hi : nat) (l : list Instruction) : Prop :=
  Forall (fun i => (lo <= inst_id i < hi)%nat) l.

Section Buffer.

Variable env : Services.

(** The width of the target's pointer-sized integer. *)
Definition ptr_bits : Z := int_bits (intPtrTy env).

(** The bytes [malloc] is asked for, and the size handed to the
    symbolic-marking primitive, for 4000 elements of type [e]. *)
Definition buffer_bytes (e : Ty) : Z :=
  ((getTypeSize env e mod 2 ^ ptr_bits) * 4000) mod 2 ^ ptr_bits.

Definition symbolic_bytes (e : Ty) : Z :=
  (4000 * (getTypeSize env e mod 2 ^ 32)) mod 2 ^ 32.

End Buffer.

(** The state [s] with its module's globals replaced by [gs]. *)
Definition with_globals (gs : list GlobalVariable) (s : KState) : KState :=
  mkState (set_globals gs (M s)) (done s) (errs s) (written s) (opened s)
          (fresh s).

(** The file names announced by the [written:] diagnostics among [ds]. *)
Definition written_diags (ds : list Diag) : list string :=
  omap (fun d => match d with DiagWritten n => Some n | _ => None end) ds.

Definition is_alloca (i : Instruction) : bool :=
  match inst_kind i with Alloca _ => true | _ => false end.

Definition is_terminator (i : Instruction) : bool :=
  match inst_kind i with
  | Br _ _ _ | Ret _ | Unreachable => true
  | _ => false
  end.

(** The labels an instruction can pass control to. *)
Definition successors (i : Instruction) : list string :=
  match inst_kind i with Br _ t f => [t; f] | _ => [] end.

(** A block ends in a terminator, has no other one, and passes control
    only to blocks of [bs]. *)
Definition well_terminated (bs : list BasicBlock) (b : BasicBlock) : Prop :=
  exists body t,
    bb_insts b = body ++ [t] /\ is_terminator t = true /\
    Forall (fun i => is_terminator i = false) body /\
    Forall (fun l => In l (map bb_name bs)) (successors t).

(** The instructions whose results a value is computed from. *)
Fixpoint value_uses (v : value) : list nat :=
  match v with
  | VInst id _ => [id]
  | ConstBitCast c _ => value_uses c
  | ConstInBoundsGEP c i0 i1 => value_uses c ++ value_uses i0 ++ value_uses i1
  | _ => []
  end.

Definition operands (k : InstKind) : list value :=
  match k with
  | Malloc _ _ a b | Mul a b | Add a b | ICmp _ a b => [a; b]
  | BitCast v _ | Load v _ | Br v _ _ | Ret v => [v]
  | Call c args => c :: args
  | Store v p _ | GetElementPtrInBounds v p => [v; p]
  | Alloca _ | Unreachable | Other _ => []
  end.

Definition uses (i : Instruction) : list nat :=
  flat_map value_uses (operands (inst_kind i)).

(** Every instruction of [l] uses only results that are in [avail] or
    that an earlier instruction of [l] defines. *)
Fixpoint well_scoped (avail : list nat) (l : list Instruction) : bool :=
  match l with
  | [] => true
  | i :: rest =>
      forallb (fun r => existsb (Nat.eqb r) avail) (uses i)
      && well_scoped (inst_id i :: avail) rest
  end.

(** If [i] calls [f], the arguments have the types [sig]. *)
Definition calls_with (f : value) (sig : list Ty) (i : Instruction) : Prop :=
  forall args, inst_kind i = Call f args -> map type_of args = sig.

(* ===================================================================== *)
(** ** Basic facts *)
(* ===================================================================== *)

Lemma Ty_eqb_eq : forall a b, Ty_eqb a b = true <-> a = b.
Proof.
  fix IH 1.
  assert (IHl : forall l l' : list Ty,
    (fix all2 (l l' : list Ty) {struct l} : bool :=
       match l, l' with
       | [], [] => true
       | x :: xs, y :: ys => Ty_eqb x y && all2 xs ys
       | _, _ => false
       end) l l' = true <-> l = l').
  { fix IHl 1. intros [|x xs] [|y ys]; try (split; [discriminate|congruence]).
    - split; reflexivity.
    - rewrite andb_true_iff, IH, IHl.
      split; [intros [-> ->]; reflexivity | intros [= -> ->]; auto]. }
  intros a b;
    destruct a as [| | | |n|e|r ps v|nm [body|]|n e|n e],
             b as [| | | |n'|e'|r' ps' v'|nm' [body'|]|n' e'|n' e'];
    simpl; try (split; [discriminate|congruence]); try (split; reflexivity).
  - rewrite N.eqb_eq. split; congruence.
  - rewrite IH. split; congruence.
  - rewrite !andb_true_iff, IH, IHl, Bool.eqb_true_iff.
    split; [intros [[-> ->] ->]; reflexivity | intros [= -> -> ->]; auto].
  - rewrite andb_true_iff, String.eqb_eq, IHl.
    split; [intros [-> ->]; reflexivity | intros [= -> ->]; auto].
  - rewrite String.eqb_eq. split; congruence.
  - rewrite andb_true_iff, N.eqb_eq, IH.
    split; [intros [-> ->]; reflexivity | intros [= -> ->]; auto].
  - rewrite andb_true_iff, N.eqb_eq, IH.
    split; [intros [-> ->]; reflexivity | intros [= -> ->]; auto].
Qed.

Lemma Ty_eqb_refl t : Ty_eqb t t = true.
Proof. now apply Ty_eqb_eq. Qed.

Lemma Ty_eqb_sym a b : Ty_eqb a b = Ty_eqb b a.
Proof.
  destruct (Ty_eqb a b) eqn:E.
  - apply Ty_eqb_eq in E as ->. now rewrite Ty_eqb_refl.
  - destruct (Ty_eqb b a) eqn:E'; [|reflexivity].
    apply Ty_eqb_eq in E' as ->. now rewrite Ty_eqb_refl in E.
Qed.

(** Sequencing in the monad. *)
Ltac kunfold := unfold mbind, K_bind, bind, mret, K_ret, ret.
Ltac kred := cbv beta iota.
(* [state_typed] of a concrete module, one global at a time *)
Ltac typed :=
  unfold state_typed;
  repeat (apply Forall_cons;
          [vm_compute; first [discriminate | intros _; reflexivity]|]);
  apply Forall_nil.
Ltac norm_app := repeat (rewrite <- app_assoc || (progress cbn [app])).
Ltac norm_app_in H :=
  repeat (rewrite <- app_assoc in H || (progress cbn [app] in H)).

Lemma bind_Ok {A B} (m : K A) (k : A -> K B) s a s' :
  m s = Ok a s' -> (m ≫= k) s = k a s'.
Proof. unfold mbind, K_bind, bind. now intros ->. Qed.

Lemma bind_Abort {A B} (m : K A) (k : A -> K B) s f s' :
  m s = Abort f s' -> (m ≫= k) s = Abort f s'.
Proof. unfold mbind, K_bind, bind. now intros ->. Qed.

Lemma bind_get {B} (k : KState -> K B) s : (get ≫= k) s = k s s.
Proof. reflexivity. Qed.

Lemma bind_ret {A B} (a : A) (k : A -> K B) s : (mret a ≫= k) s = k a s.
Proof. reflexivity. Qed.

(** Identities of functions: the fresh one is above all others. *)
Lemma fresh_fn_id_above m :
  Forall (fun f => (fn_id f < fresh_fn_id m)%nat) (functions m).
Proof.
  apply Forall_forall. intros f Hf. unfold fresh_fn_id.
  apply Nat.lt_succ_r, max_list_elem_of_le.
  apply list_elem_of_fmap. exists f. split; [reflexivity|].
  now apply list_elem_of_In.
Qed.

Lemma map_if_id_ne (g : Function -> Function) id fs :
  Forall (fun f => fn_id f ≠ id) fs ->
  map (fun f => if Nat.eqb (fn_id f) id then g f else f) fs = fs.
Proof.
  induction 1 as [|f fs Hf _ IH]; simpl; [reflexivity|].
  rewrite IH. apply Nat.eqb_neq in Hf. now rewrite Hf.
Qed.

Lemma filter_id_ne id (fs : list Function) :
  Forall (fun f => fn_id f ≠ id) fs ->
  filter (fun f => fn_id f ≠ id) fs = fs.
Proof.
  induction 1 as [|f fs Hf _ IH]; [reflexivity|].
  rewrite filter_cons. destruct (decide (fn_id f ≠ id)); [|contradiction].
  now rewrite IH.
Qed.

Lemma max_list_app_nat (l1 l2 : list nat) :
  max_list (l1 ++ l2) = Nat.max (max_list l1) (max_list l2).
Proof. induction l1; simpl; [reflexivity|]. rewrite IHl1. lia. Qed.

(* ===================================================================== *)
(** ** The state while a harness is built *)
(* ===================================================================== *)

Arguments ConstantInt_get : simpl never.
Arguments fresh_fn_id : simpl never.
Arguments symbol_names : simpl never.
Arguments getTypeSize : simpl never.
Arguments String.eqb : simpl nomatch.

Section SynthesisFacts.

Variable env : Services.

(** In this section the pieces of the harness are read at [env]. *)
#[local] Abbreviation main_fn := (main_fn env).
#[local] Abbreviation klee_fn := (klee_fn env).
#[local] Abbreviation st := (st env).
#[local] Abbreviation klee_mul := (klee_mul env).
#[local] Abbreviation klee_size := (klee_size env).
#[local] Abbreviation klee_pre := (klee_pre env).
#[local] Abbreviation klee_call := (klee_call env).
#[local] Abbreviation malloc_inst := (malloc_inst env).
#[local] Abbreviation pointer_code := (pointer_code env).
#[local] Abbreviation integer_code := (integer_code env).
#[local] Abbreviation param_code := (param_code env).
#[local] Abbreviation params_code := (params_code env).
#[local] Abbreviation ai_insts := (ai_insts env).
#[local] Abbreviation ai_code := (ai_code env).
#[local] Abbreviation ai_body := (ai_body env).

#[local] Abbreviation getTypeSize := (getTypeSize env).
#[local] Abbreviation intPtrTy := (intPtrTy env).

Lemma decls_ok_ne s0 decls :
  decls_ok s0 decls ->
  Forall (fun f => fn_id f ≠ fresh_fn_id (M s0)) decls.
Proof. unfold decls_ok. apply Forall_impl. intros f [H _]. lia. Qed.

Lemma orig_ne s0 :
  Forall (fun f => fn_id f ≠ fresh_fn_id (M s0)) (functions (M s0)).
Proof.
  eapply Forall_impl; [|apply fresh_fn_id_above]. simpl. intros; lia.
Qed.

Lemma update_main s0 bs decls gs n g :
  decls_ok s0 decls ->
  update_function (fresh_fn_id (M s0)) g (M (st s0 bs decls gs n)) =
  mkModule (moduleIdentifier (M s0))
    (functions (M s0) ++ g (main_fn s0 bs) :: klee_fn s0 :: decls) gs.
Proof.
  intros Hd. unfold update_function, set_functions, st.
  cbn [M functions globals moduleIdentifier].
  f_equal. rewrite map_app, !map_cons.
  rewrite (map_if_id_ne _ _ _ (orig_ne s0)).
  rewrite (map_if_id_ne _ _ _ (decls_ok_ne _ _ Hd)).
  change (fn_id (main_fn s0 bs)) with (fresh_fn_id (M s0)).
  change (fn_id (klee_fn s0)) with (S (fresh_fn_id (M s0))).
  rewrite Nat.eqb_refl.
  replace (S (fresh_fn_id (M s0)) =? fresh_fn_id (M s0))%nat with false
    by (symmetry; apply Nat.eqb_neq; lia).
  reflexivity.
Qed.

Lemma push_back_st s0 bs decls gs n nm i :
  decls_ok s0 decls ->
  push_back (fresh_fn_id (M s0), nm) i (st s0 bs decls gs n) =
  Ok tt (st s0 (on_block nm (fun l => l ++ [i]) bs) decls gs n).
Proof.
  intros Hd. unfold push_back, modify_module. simpl fst; simpl snd.
  rewrite update_main by assumption. reflexivity.
Qed.

Lemma push_front_st s0 bs decls gs n nm i :
  decls_ok s0 decls ->
  push_front (fresh_fn_id (M s0), nm) i (st s0 bs decls gs n) =
  Ok tt (st s0 (on_block nm (fun l => i :: l) bs) decls gs n).
Proof.
  intros Hd. unfold push_front, modify_module. simpl fst; simpl snd.
  rewrite update_main by assumption. reflexivity.
Qed.

Lemma new_inst_dbg_st s0 bs decls gs n k dl :
  new_inst_dbg k dl (st s0 bs decls gs n) =
  Ok (mkInst n k dl) (st s0 bs decls gs (S n)).
Proof. reflexivity. Qed.

Lemma new_inst_st s0 bs decls gs n k :
  new_inst k (st s0 bs decls gs n) =
  Ok (mkInst n k None) (st s0 bs decls gs (S n)).
Proof. reflexivity. Qed.

Lemma create_at_end_st s0 bs decls gs n nm k :
  decls_ok s0 decls ->
  create_at_end (fresh_fn_id (M s0), nm) k (st s0 bs decls gs n) =
  Ok (mkInst n k None)
     (st s0 (on_block nm (fun l => l ++ [mkInst n k None]) bs) decls gs (S n)).
Proof.
  intros Hd. unfold create_at_end.
  rewrite (bind_Ok _ _ _ _ _ (new_inst_st _ _ _ _ _ _)).
  rewrite (bind_Ok _ _ _ _ _ (push_back_st _ _ _ _ _ _ _ Hd)).
  reflexivity.
Qed.

Lemma BasicBlock_Create_st s0 bs decls gs n nm :
  decls_ok s0 decls ->
  BasicBlock_Create nm (fresh_fn_id (M s0)) (st s0 bs decls gs n) =
  Ok (fresh_fn_id (M s0), nm) (st s0 (bs ++ [mkBB nm []]) decls gs n).
Proof.
  intros Hd. unfold BasicBlock_Create, modify_module.
  unfold mbind, K_bind, bind. rewrite update_main by assumption. reflexivity.
Qed.

Lemma getGlobalString_st s0 bs decls gs n str :
  getGlobalString str (st s0 bs decls gs n) =
  Ok (str_ptr (length gs) str) (st s0 bs decls (gs ++ [str_global str]) n).
Proof. reflexivity. Qed.

Lemma setInitializer_st s0 bs decls gs n idx c :
  setInitializer idx c (st s0 bs decls gs n) =
  Ok tt (st s0 bs decls (alter (set_initializer (Some c)) idx gs) n).
Proof. reflexivity. Qed.

Lemma global_list_st s0 bs decls gs n :
  global_list (st s0 bs decls gs n) =
  Ok (imap (fun i g => (i, g)) gs) (st s0 bs decls gs n).
Proof. reflexivity. Qed.

Lemma type_of_str_ptr idx s : type_of (str_ptr idx s) = PointerTy i8.
Proof. reflexivity. Qed.

Lemma fresh_st_gt s0 bs decls gs n :
  (S (fresh_fn_id (M s0)) < fresh_fn_id (M (st s0 bs decls gs n)))%nat.
Proof.
  unfold fresh_fn_id at 2, st. cbn [M functions].
  rewrite map_app, max_list_app_nat, !map_cons.
  change (fn_id (klee_fn s0)) with (S (fresh_fn_id (M s0))).
  assert (H : forall a b l, (b <= max_list (a :: b :: l))%nat)
    by (intros; simpl; lia).
  specialize (H (fn_id (main_fn s0 bs)) (S (fresh_fn_id (M s0)))
                (map fn_id decls)).
  lia.
Qed.

Lemma denotes_main_blocks s0 bs bs' fs rest v name :
  denotes (fs ++ main_fn s0 bs :: rest) v name ->
  denotes (fs ++ main_fn s0 bs' :: rest) v name.
Proof.
  intros (f & Hin & Hnm & Hid).
  apply in_app_or in Hin as [Hin|[Hin|Hin]].
  - exists f. split; [apply in_or_app; now left|now split].
  - exists (main_fn s0 bs'). subst f.
    split; [apply in_or_app; right; now left|now split].
  - exists f. split; [apply in_or_app; right; now right|now split].
Qed.

Lemma find_app_Some {A} (p : A -> bool) (l l' : list A) x :
  find p l = Some x -> find p (l ++ l') = Some x.
Proof.
  induction l as [|a l IH]; [discriminate|]. cbn [find app].
  destruct (p a); [trivial|exact IH].
Qed.

(** [getOrInsertFunction] for a library function: the value returned
    denotes a function of that name in the module, and at most a
    declaration is added. *)
Lemma getOrInsertFunction_st s0 bs decls gs n name nr rt ps :
  decls_ok s0 decls ->
  name = "malloc" \/ name = "__assert_fail" ->
  exists v decls',
    getOrInsertFunction name nr rt ps (st s0 bs decls gs n) =
      Ok v (st s0 bs decls' gs n) /\
    decls_ok s0 decls' /\
    denotes (functions (M (st s0 bs decls' gs n))) v name /\
    type_of v = PointerTy (FunctionTy rt ps false) /\
    own s0 v name.
Proof.
  intros Hd Hname. unfold getOrInsertFunction.
  rewrite bind_get.
  assert (Hown : forall f0, getFunction (M s0) name = Some f0 ->
                 getFunction (M (st s0 bs decls gs n)) name = Some f0).
  { intros f0 H0. unfold getFunction in *. cbn [st M functions].
    now apply find_app_Some. }
  destruct (getFunction (M (st s0 bs decls gs n)) name) as [f|] eqn:Hf.
  - apply find_some in Hf as [Hin Hnm]. apply String.eqb_eq in Hnm.
    destruct (Ty_eqb (fn_functionType f) (FunctionTy rt ps false)) eqn:Ht.
    + exists (fn_value f), decls.
      split; [reflexivity|split; [assumption|split; [|split]]].
      * exists f. now repeat split.
      * simpl. apply Ty_eqb_eq in Ht. now rewrite Ht.
      * intros f0 H0. specialize (Hown f0 H0). now injection Hown as ->.
    + exists (ConstBitCast (fn_value f) (PointerTy (FunctionTy rt ps false))),
        decls.
      split; [reflexivity|split; [assumption|split; [|split; [reflexivity|]]]].
      * exists f. now repeat split.
      * intros f0 H0. specialize (Hown f0 H0). now injection Hown as ->.
  - set (f := mkFunction (fresh_fn_id (M (st s0 bs decls gs n))) name rt
                (map (mkArg "") ps) false ExternalLinkage nr []).
    exists (fn_value f), (decls ++ [f]).
    split; [|split; [|split; [exists f; split; [|split]|split]]].
    + unfold modify_module, mbind, K_bind, bind, st, set_functions. simpl.
      rewrite <- app_assoc. reflexivity.
    + apply Forall_app. split; [assumption|]. constructor; [|constructor].
      split; [|split; [reflexivity|exact Hname]].
      subst f. cbn [fn_id]. apply fresh_st_gt.
    + simpl. apply in_or_app. right. right. right.
      apply in_or_app. right. now left.
    + reflexivity.
    + reflexivity.
    + simpl. unfold fn_functionType. simpl.
      rewrite map_map. simpl. now rewrite map_id.
    + intros f0 H0. specialize (Hown f0 H0). discriminate.
Qed.

Lemma CreateMalloc_st s0 bs decls gs n BB ipt ty a b :
  decls_ok s0 decls ->
  exists decls',
    CreateMalloc BB ipt ty a b (st s0 bs decls gs n) =
      Ok (mkInst n (Malloc ipt ty a b) None) (st s0 bs decls' gs (S n)) /\
    decls_ok s0 decls'.
Proof.
  intros Hd. unfold CreateMalloc.
  destruct (getOrInsertFunction_st s0 bs decls gs n "malloc" false
              (PointerTy i8) [ipt] Hd (or_introl eq_refl))
    as (v & decls' & Hgo & Hd' & _).
  exists decls'. split; [|assumption].
  rewrite (bind_Ok _ _ _ _ _ Hgo). reflexivity.
Qed.

(** The two shapes of the entry function: while the arguments are
    prepared it has its entry block only; [checkAiState] adds the two
    exit blocks. *)
#[local] Abbreviation st1 s0 E decls gs n :=
  (st s0 [mkBB "entry" E] decls gs n).

#[local] Abbreviation st3 s0 E Fi As decls gs n :=
  (st s0 [mkBB "entry" E; mkBB "final" Fi; mkBB "assertBB" As] decls gs n).

Lemma push_back_st1 s0 E decls gs n i :
  decls_ok s0 decls ->
  push_back (mainBB s0) i (st1 s0 E decls gs n) =
  Ok tt (st1 s0 (E ++ [i]) decls gs n).
Proof. intros Hd. unfold mainBB. now rewrite push_back_st. Qed.

Lemma push_front_st1 s0 E decls gs n i :
  decls_ok s0 decls ->
  push_front (mainBB s0) i (st1 s0 E decls gs n) =
  Ok tt (st1 s0 (i :: E) decls gs n).
Proof. intros Hd. unfold mainBB. now rewrite push_front_st. Qed.

Lemma create_at_end_st1 s0 E decls gs n k :
  decls_ok s0 decls ->
  create_at_end (mainBB s0) k (st1 s0 E decls gs n) =
  Ok (mkInst n k None) (st1 s0 (E ++ [mkInst n k None]) decls gs (S n)).
Proof. intros Hd. unfold mainBB. now rewrite create_at_end_st. Qed.

Lemma create_at_end_st3 s0 E Fi As decls gs n k :
  decls_ok s0 decls ->
  create_at_end (mainBB s0) k (st3 s0 E Fi As decls gs n) =
  Ok (mkInst n k None)
     (st3 s0 (E ++ [mkInst n k None]) Fi As decls gs (S n)).
Proof. intros Hd. unfold mainBB. now rewrite create_at_end_st. Qed.

(** *** [check] *)

Lemma check_args_ok params : forall Args i s,
  Forall2 (fun t a => t = type_of a) (drop i params) Args ->
  check_args params Args i s = Ok tt s.
Proof.
  induction Args as [|a rest IH]; intros i s H; [reflexivity|].
  inversion H as [|t a' tl rest' Ht Hrest Hdrop]; subst.
  assert (Hi : params !! i = Some (type_of a)).
  { pose proof (lookup_drop params i 0) as L.
    rewrite <- Hdrop, Nat.add_0_r in L. now symmetry. }
  assert (Htl : drop (S i) params = tl).
  { pose proof (drop_drop params 1 i) as L.
    rewrite <- Hdrop in L. cbn [drop] in L.
    replace (i + 1)%nat with (S i) in L by lia. now symmetry. }
  cbn [check_args]. rewrite Hi, Ty_eqb_refl. cbn [negb].
  rewrite bind_ret. rewrite orb_true_r. cbn [assert]. rewrite bind_ret.
  apply IH. now rewrite Htl.
Qed.

Lemma check_ok id r params va Args s :
  Forall2 (fun t a => t = type_of a) params Args ->
  check (VFunction id (PointerTy (FunctionTy r params va))) Args s = Ok tt s.
Proof.
  intros H. unfold check. cbn [type_of pointee].
  pose proof (Forall2_length H) as Hlen.
  rewrite bool_decide_eq_true_2 by (symmetry; exact Hlen).
  cbn [orb assert]. rewrite bind_ret. now apply check_args_ok.
Qed.

Lemma check_short id r params va Args s :
  (length Args < length params)%nat ->
  check (VFunction id (PointerTy (FunctionTy r params va))) Args s =
  Abort (AssertionFailed "XXCalling a function with bad signature!") s.
Proof.
  intros H. unfold check. cbn [type_of pointee].
  rewrite bool_decide_eq_false_2 by lia.
  rewrite (bool_decide_eq_false_2 (length params < length Args)%nat) by lia.
  rewrite andb_false_r. reflexivity.
Qed.

(** *** [call_klee_make_symbolic] *)

Lemma type_of_klee_addr n addr : type_of (klee_addr n addr) = voidPtrType.
Proof.
  unfold klee_addr.
  destruct (Ty_eqb (type_of addr) voidPtrType) eqn:E; [|reflexivity].
  now apply Ty_eqb_eq in E.
Qed.

Lemma call_klee_make_symbolic_st1 s0 E decls gs n name type addr arraySize :
  decls_ok s0 decls ->
  type_of name = PointerTy i8 ->
  (forall a, arraySize = Some a -> type_of a = uintType) ->
  call_klee_make_symbolic env (klee_fn s0) name (mainBB s0) type addr
                          arraySize (st1 s0 E decls gs n) =
  Ok (klee_call s0 n name type addr arraySize)
     (st1 s0 (E ++ klee_pre n type addr arraySize) decls gs
          (klee_next n addr arraySize)).
Proof.
  intros Hd Hname Harr. unfold call_klee_make_symbolic.
  assert (Hchk : forall sz s,
    type_of sz = uintType ->
    check (fn_value (klee_fn s0)) [klee_addr n addr; sz; name] s = Ok tt s).
  { intros sz s Hsz. apply check_ok. cbn [map klee_args arg_type].
    repeat constructor; [now rewrite type_of_klee_addr|now rewrite Hsz
                        |now rewrite Hname]. }
  unfold klee_call, klee_pre, klee_next, klee_cast, klee_addr, klee_n1 in *.
  kunfold.
  destruct (negb (Ty_eqb (type_of addr) voidPtrType)) eqn:Hc;
    destruct arraySize as [a|]; cbn [klee_mul klee_size klee_n2]; kred;
    repeat (rewrite create_at_end_st1 by assumption; kred);
    (rewrite Hchk by (first [apply (Harr _ eq_refl) | reflexivity])); kred;
    rewrite new_inst_st;
    rewrite <- ?app_assoc, ?app_nil_r; reflexivity.
Qed.

(** *** The code for one formal parameter *)

Lemma type_of_arrSize : type_of arrSize = uintType.
Proof. reflexivity. Qed.

Lemma param_value_st1 s0 E decls gs n param :
  decls_ok s0 decls ->
  let c := param_code s0 n (length gs) param in
  exists decls',
    param_value env (klee_fn s0) (mainBB s0) param (st1 s0 E decls gs n) =
      Ok (pc_val c)
         (st1 s0 (pc_front c ++ E ++ pc_back c) decls'
              (gs ++ [str_global (param_label param)]) (pc_next c)) /\
    decls_ok s0 decls'.
Proof.
  intros Hd c. subst c. unfold param_value, param_code. kunfold.
  rewrite getGlobalString_st. kred.
  fold (param_label param).
  destruct (arg_type param) as [| | | |bits|e|r ps v|nm body|k e|k e] eqn:Hty;
    try (exists decls; split; [|assumption];
         cbn [pc_val pc_front pc_back pc_next app];
         now rewrite app_nil_r).
  - (* integer *)
    exists decls. split; [|assumption].
    unfold integer_code. rewrite Hty. cbn [pc_val pc_front pc_back pc_next].
    rewrite new_inst_st. kred.
    rewrite push_front_st1 by assumption. kred.
    rewrite call_klee_make_symbolic_st1
      by (first [assumption | reflexivity | discriminate]). kred.
    rewrite push_back_st1 by assumption. kred.
    rewrite new_inst_st. kred.
    rewrite push_back_st1 by assumption. kred.
    cbn [app]. rewrite <- !app_assoc. reflexivity.
  - (* pointer *)
    unfold createMalloc.
    destruct (CreateMalloc_st s0 [mkBB "entry" E] decls
                (gs ++ [str_global (param_label param)]) n (mainBB s0)
                intPtrTy e (ConstantInt_get intPtrTy (getTypeSize e))
                arrSize Hd) as (decls' & Hm & Hd').
    exists decls'. split; [|assumption].
    fold arrSize. rewrite Hm. kred.
    fold (malloc_inst n e).
    rewrite push_back_st1 by assumption. kred.
    rewrite call_klee_make_symbolic_st1
      by (first [assumption | reflexivity
                | intros a [= <-]; apply type_of_arrSize]). kred.
    rewrite push_back_st1 by assumption. kred.
    unfold pointer_code.
    change (inst_type (malloc_inst n e)) with (PointerTy e).
    destruct (negb (Ty_eqb (PointerTy e) voidPtrType)) eqn:Hc; kred;
      cbn [pc_val pc_front pc_back pc_next].
    + rewrite new_inst_st. kred.
      rewrite push_back_st1 by assumption. kred.
      rewrite new_inst_st. kred.
      rewrite push_back_st1 by assumption. kred.
      rewrite new_inst_st. kred.
      rewrite push_back_st1 by assumption. kred.
      cbn [app]. rewrite <- !app_assoc. reflexivity.
    + rewrite new_inst_st. kred.
      rewrite push_back_st1 by assumption. kred.
      cbn [app]. rewrite <- !app_assoc. reflexivity.
Qed.

(** *** The loop over the formal parameters *)

Lemma build_params_st1 s0 : forall args E decls gs n acc,
  decls_ok s0 decls ->
  let r := params_code s0 n (length gs) args in
  exists decls',
    build_params env (klee_fn s0) (mainBB s0) args acc
                 (st1 s0 E decls gs n) =
      Ok (acc ++ ps_vals r)
         (st1 s0 (ps_front r ++ E ++ ps_back r) decls'
              (gs ++ map (fun a => str_global (param_label a)) args)
              (ps_next r)) /\
    decls_ok s0 decls'.
Proof.
  induction args as [|param rest IH]; intros E decls gs n acc Hd r.
  - exists decls. split; [|assumption]. subst r. cbn.
    now rewrite !app_nil_r.
  - destruct (param_value_st1 s0 E decls gs n param Hd)
      as (decls1 & Hpv & Hd1).
    set (c := param_code s0 n (length gs) param) in *.
    destruct (IH (pc_front c ++ E ++ pc_back c) decls1
                 (gs ++ [str_global (param_label param)]) (pc_next c)
                 (acc ++ option_list (pc_val c)) Hd1)
      as (decls2 & Hbp & Hd2).
    exists decls2. split; [|assumption].
    cbn [build_params]. kunfold. rewrite Hpv. kred.
    replace (match pc_val c with Some v => acc ++ [v] | None => acc end)
      with (acc ++ option_list (pc_val c))
      by (destruct (pc_val c); [reflexivity|apply app_nil_r]).
    rewrite Hbp. subst r. cbn [params_code]. fold c.
    rewrite length_app, Nat.add_1_r. cbn [length ps_vals ps_front ps_back
                                          ps_next map].
    rewrite <- !app_assoc. reflexivity.
Qed.

(** *** The traversals of the global variables *)

Lemma indexed_cons k g l : indexed k (g :: l) = (k, g) :: indexed (S k) l.
Proof.
  unfold indexed. rewrite imap_cons. rewrite Nat.add_0_r. f_equal.
  apply imap_ext. intros i x _. cbn. f_equal. lia.
Qed.

Lemma alter_middle {A} (f : A -> A) (l1 : list A) x l2 :
  alter f (length l1) (l1 ++ x :: l2) = l1 ++ f x :: l2.
Proof.
  rewrite <- (Nat.add_0_r (length l1)) at 1. now rewrite alter_app_r.
Qed.

Lemma ai_loop_st1 s0 decls : forall todo done extra E n,
  decls_ok s0 decls ->
  let code := ai_code s0 n (length (done ++ todo ++ extra))
                      (indexed (length done) todo) in
  for_each (indexed (length done) todo) (ai_body s0)
           (st1 s0 E decls (done ++ todo ++ extra) n) =
  Ok tt (st1 s0 (E ++ fst code) decls
             (done ++ map zeroed todo ++ extra ++ ai_strings todo)
             (snd code)).
Proof.
  induction todo as [|g todo IH]; intros done extra E n Hd code.
  - subst code. cbn. now rewrite !app_nil_r.
  - subst code. rewrite indexed_cons. cbn [for_each ai_code ai_body].
    change ((g :: todo) ++ extra) with (g :: todo ++ extra).
    unfold ai_strings. cbn [List.filter map]. unfold zeroed at 1.
    destruct (isAiState g) eqn:Hg; cbn [negb]; kunfold; kred.
    + rewrite setInitializer_st. kred.
      rewrite alter_middle.
      rewrite getGlobalString_st. kred.
      rewrite call_klee_make_symbolic_st1
        by (first [assumption | reflexivity | discriminate]). kred.
      rewrite push_back_st1 by assumption. kred.
      rewrite create_at_end_st1 by assumption. kred.
      specialize (IH (done ++ [set_initializer (Some zero) g])
                     (extra ++ [str_global (gv_name g)])
                     (((E ++ klee_pre n intType (global_addr (length done) g)
                                      None) ++
                       [klee_call s0 n
                          (str_ptr (length (done ++
                                      set_initializer (Some zero) g ::
                                      todo ++ extra)) (gv_name g))
                          intType (global_addr (length done) g) None]) ++
                      [mkInst (klee_next n (global_addr (length done) g) None)
                              (Store zero (global_addr (length done) g) true)
                              None])
                     (S (klee_next n (global_addr (length done) g) None)) Hd).
      cbn zeta in IH.
      rewrite length_app, Nat.add_1_r in IH. cbn [length] in IH.
      norm_app_in IH. norm_app.
      rewrite IH. unfold ai_insts, ai_next, ai_strings.
      cbn [length fst snd map]. norm_app.
      rewrite !length_app. cbn [length]. rewrite !length_app. cbn [length].
      replace (length done + S (length todo + (length extra + 1)))%nat
        with (S (length done + S (length todo + length extra))) by lia.
      reflexivity.
    + specialize (IH (done ++ [g]) extra E n Hd). cbn zeta in IH.
      rewrite length_app, Nat.add_1_r in IH. cbn [length] in IH.
      norm_app_in IH.
      rewrite IH.
      rewrite !length_app. cbn [length]. rewrite !length_app.
      replace (length done + S (length todo + length extra))%nat
        with (S (length done) + (length todo + length extra))%nat by lia.
      reflexivity.
Qed.

Lemma makeAiStateSymbolic_st1 s0 E decls gs n :
  decls_ok s0 decls ->
  let code := ai_code s0 n (length gs) (indexed 0 gs) in
  makeAiStateSymbolic env (klee_fn s0) (mainBB s0) (st1 s0 E decls gs n) =
  Ok tt (st1 s0 (E ++ fst code) decls (map zeroed gs ++ ai_strings gs)
             (snd code)).
Proof.
  intros Hd code. unfold makeAiStateSymbolic. kunfold.
  rewrite global_list_st. kred.
  pose proof (ai_loop_st1 s0 decls gs [] [] E n Hd) as H.
  cbn zeta in H. cbn [app length] in H. rewrite !app_nil_r in H.
  change (for_each (indexed 0 gs) (ai_body s0) (st1 s0 E decls gs n)
          = Ok tt (st1 s0 (E ++ fst code) decls
                       (map zeroed gs ++ ai_strings gs) (snd code))) in H.
  exact H.
Qed.

Lemma add_loop_st s0 bs decls n : forall todo done,
  for_each (indexed (length done) todo) add_body
           (st s0 bs decls (done ++ todo) n) =
  Ok tt (st s0 bs decls (done ++ map nulled todo) n).
Proof.
  induction todo as [|g todo IH]; intros done; [reflexivity|].
  rewrite indexed_cons. cbn [for_each add_body map]. unfold nulled at 1.
  unfold isDeclaration. kunfold.
  specialize (IH (done ++ [g])) as IH1.
  specialize (IH (done ++ [set_initializer
                             (Some (ConstantNull (gv_valueType g))) g])).
  rewrite length_app, Nat.add_1_r in IH, IH1. cbn [length] in IH, IH1.
  norm_app_in IH. norm_app_in IH1.
  destruct (hasInitializer g); cbn [negb orb]; kred.
  - exact IH1.
  - rewrite setInitializer_st. kred. rewrite alter_middle. exact IH.
Qed.

Lemma addGlobals_st s0 bs decls gs n :
  addGlobals (st s0 bs decls gs n) =
  Ok tt (st s0 bs decls (map nulled gs) n).
Proof.
  unfold addGlobals. kunfold. rewrite global_list_st. kred.
  exact (add_loop_st s0 bs decls n gs []).
Qed.

(** *** The invariant check *)

Lemma sum_ai_state_st3 s0 Fi As decls gs : forall l E n sum,
  decls_ok s0 decls ->
  let c := sum_code n l sum in
  sum_ai_state (mainBB s0) l sum (st3 s0 E Fi As decls gs n) =
  Ok (fst (snd c)) (st3 s0 (E ++ fst c) Fi As decls gs (snd (snd c))).
Proof.
  induction l as [|[idx g] l IH]; intros E n sum Hd c; subst c.
  - cbn. now rewrite app_nil_r.
  - cbn [sum_ai_state sum_code]. destruct (isAiState g); cbn [negb].
    + kunfold. rewrite create_at_end_st3 by assumption. kred.
      rewrite create_at_end_st3 by assumption. kred.
      rewrite IH by assumption. cbn [fst snd]. norm_app. reflexivity.
    + now apply IH.
Qed.

Lemma checkAiState_st s0 E decls gs n dl :
  decls_ok s0 decls ->
  exists af decls',
    checkAiState (fresh_fn_id (M s0)) (mainBB s0) dl
                 (st1 s0 E decls gs n) =
      Ok (fresh_fn_id (M s0), "final")
         (st3 s0 (E ++ check_tail (S (S n)) (gs ++ check_strings)) []
              (assert_block af dl n (length gs)) decls'
              (gs ++ check_strings)
              (check_next (S (S n)) (gs ++ check_strings))) /\
    decls_ok s0 decls' /\
    denotes (functions (M s0) ++ main_fn s0 [] :: klee_fn s0 :: decls')
            af "__assert_fail" /\
    own s0 af "__assert_fail".
Proof.
  intros Hd. unfold checkAiState. kunfold.
  rewrite BasicBlock_Create_st by assumption. kred.
  rewrite BasicBlock_Create_st by assumption. kred.
  rewrite !getGlobalString_st. kred.
  unfold get_assert_fail.
  match goal with |- context [getOrInsertFunction _ _ _ _ ?s] =>
    match s with st ?a ?b ?c ?d ?e =>
      destruct (getOrInsertFunction_st a b c d e "__assert_fail" true VoidTy
                  [PointerTy i8; PointerTy i8; uintType; PointerTy i8] Hd
                  (or_intror eq_refl))
        as (af & decls' & Hgo & Hd' & Hden & _ & Hown)
    end
  end.
  exists af, decls'.
  rewrite Hgo. kred. rewrite new_inst_dbg_st. kred.
  rewrite push_back_st by assumption. kred.
  rewrite create_at_end_st by assumption. kred.
  rewrite global_list_st. kred.
  cbn [on_block map app bb_name bb_insts String.eqb Ascii.eqb Bool.eqb].
  norm_app. rewrite !length_app. cbn [length]. rewrite !Nat.add_1_r.
  replace (length gs + 2)%nat with (S (S (length gs))) by lia.
  change (imap (fun i g => (i, g))
            (gs ++ [str_global "leaving function with lock held";
                    str_global "n/a"; str_global "main"]))
    with (indexed 0 (gs ++ check_strings)).
  rewrite sum_ai_state_st3 by assumption. kred.
  rewrite create_at_end_st3 by assumption. kred.
  rewrite create_at_end_st3 by assumption. kred.
  split; [|split; [assumption|split; [|assumption]]].
  - unfold check_tail, check_next. cbn [snd]. norm_app. reflexivity.
  - cbn [st M functions] in Hden. eapply denotes_main_blocks, Hden.
Qed.

(** *** The arguments constructed for the candidate *)

Lemma param_code_val_supported s0 n glen param :
  supported (arg_type param) = true ->
  exists v, pc_val (param_code s0 n glen param) = Some v /\
            type_of v = arg_type param.
Proof.
  unfold param_code, supported.
  destruct (arg_type param) as [| | | |bits|e|r ps v|nm body|k e|k e] eqn:Hty;
    try discriminate; intros _.
  - unfold integer_code. rewrite Hty. eexists. split; reflexivity.
  - unfold pointer_code.
    destruct (negb (Ty_eqb (PointerTy e) voidPtrType));
      eexists; split; reflexivity.
Qed.

Lemma param_code_val_unsupported s0 n glen param :
  supported (arg_type param) = false ->
  pc_val (param_code s0 n glen param) = None.
Proof.
  unfold param_code, supported.
  destruct (arg_type param); try discriminate; reflexivity.
Qed.

Lemma params_code_types s0 : forall args n glen,
  forallb (fun a => supported (arg_type a)) args = true ->
  Forall2 (fun t a => t = type_of a) (map arg_type args)
          (ps_vals (params_code s0 n glen args)).
Proof.
  induction args as [|param rest IH]; intros n glen H; [constructor|].
  cbn [forallb] in H. apply andb_true_iff in H as [Hp Hrest].
  cbn [params_code ps_vals map].
  destruct (param_code_val_supported s0 n glen param Hp) as (v & -> & Hv).
  cbn [option_list app]. constructor; [now symmetry|now apply IH].
Qed.

Lemma params_code_length_le s0 : forall args n glen,
  (length (ps_vals (params_code s0 n glen args)) <= length args)%nat.
Proof.
  induction args as [|param rest IH]; intros n glen; [reflexivity|].
  cbn [params_code ps_vals]. rewrite length_app.
  specialize (IH (pc_next (param_code s0 n glen param)) (S glen)).
  destruct (pc_val (param_code s0 n glen param)); cbn [option_list length];
    lia.
Qed.

Lemma params_code_length_lt s0 : forall args n glen,
  forallb (fun a => supported (arg_type a)) args = false ->
  (length (ps_vals (params_code s0 n glen args)) < length args)%nat.
Proof.
  induction args as [|param rest IH]; intros n glen H; [discriminate|].
  cbn [forallb] in H. cbn [params_code ps_vals]. rewrite length_app.
  destruct (supported (arg_type param)) eqn:Hp.
  - cbn [andb] in H.
    specialize (IH (pc_next (param_code s0 n glen param)) (S glen) H).
    destruct (pc_val (param_code s0 n glen param)); cbn [option_list length];
      lia.
  - rewrite (param_code_val_unsupported _ _ _ _ Hp). cbn [option_list length].
    pose proof (params_code_length_le s0 rest
                  (pc_next (param_code s0 n glen param)) (S glen)).
    lia.
Qed.

(** *** The harness for a candidate *)

Section CandidateFacts.

Variable s0 : KState.
Variable F : Function.

(** ... and the harness is the one of candidate [F], built from [s0]. *)
#[local] Abbreviation h_params := (h_params env s0 F).
#[local] Abbreviation h_globals1 := (h_globals1 s0 F).
#[local] Abbreviation h_ai := (h_ai env s0 F).
#[local] Abbreviation h_globals3 := (h_globals3 s0 F).
#[local] Abbreviation h_globals := (h_globals s0 F).
#[local] Abbreviation h_prefix := (h_prefix env s0 F).
#[local] Abbreviation h_call := (h_call env s0 F).
#[local] Abbreviation h_tail := (h_tail env s0 F).
#[local] Abbreviation h_entry := (h_entry env s0 F).
#[local] Abbreviation h_assert := (h_assert env s0 F).
#[local] Abbreviation h_ret := (h_ret env s0 F).
#[local] Abbreviation h_blocks := (h_blocks env s0 F).
#[local] Abbreviation built := (built env s0 F).
#[local] Abbreviation prepared := (prepared env s0 F).
#[local] Abbreviation debugLoc_of := (debugLoc_of F).
#[local] Abbreviation emit := (emit env s0).
#[local] Abbreviation finish := (finish env s0 F).
#[local] Abbreviation cleaned := (cleaned s0).

Lemma fresh_with_main bs :
  fresh_fn_id (mkModule (moduleIdentifier (M s0))
                 (functions (M s0) ++ [main_fn s0 bs]) (globals (M s0)))
  = S (fresh_fn_id (M s0)).
Proof.
  unfold fresh_fn_id at 1. cbn [functions].
  rewrite map_app, max_list_app_nat.
  change (max_list (map fn_id [main_fn s0 bs]))
    with (Nat.max (fresh_fn_id (M s0)) 0).
  unfold fresh_fn_id. lia.
Qed.

(** The first statements of [writeMain] create the two scaffolding
    functions and the empty entry block. *)
Lemma scaffolding_created :
  (mainFun ← Function_Create env intType [] false ExternalLinkage "main";
   mainBB ← BasicBlock_Create "entry" (fn_id mainFun);
   klee ← Function_Create env VoidTy klee_args false ExternalLinkage
                          "klee_make_symbolic";
   mret (mainFun, mainBB, klee)) s0 =
  Ok (main_fn s0 [], mainBB s0, klee_fn s0)
     (st1 s0 [] [] (globals (M s0)) (fresh s0)).
Proof.
  unfold Function_Create, BasicBlock_Create, modify_module. kunfold.
  unfold get. kred. cbn [M done errs written opened fresh].
  unfold update_function, set_functions.
  cbn [functions globals moduleIdentifier fn_id main_fn].
  rewrite map_app, (map_if_id_ne _ _ _ (orig_ne s0)).
  cbn [map fn_id]. rewrite Nat.eqb_refl.
  unfold set_blocks. cbn [fn_id fn_name fn_retTy fn_args fn_isVarArg
                          fn_linkage fn_noReturn fn_blocks app].
  fold (main_fn s0 [mkBB "entry" []]).
  rewrite fresh_with_main. unfold st, klee_fn, mainBB, set_functions.
  rewrite <- app_assoc. reflexivity.
Qed.

(** Up to the signature check [writeMain] cannot fail: it reaches the
    check in the state [prepared]. *)
Lemma writeMain_prepared :
  exists decls,
    decls_ok s0 decls /\
    writeMain env F s0 = finish (ps_vals h_params) (prepared decls).
Proof.
  pose proof scaffolding_created as Hs. revert Hs.
  unfold writeMain. kunfold. unfold get at 1. kred.
  destruct (Function_Create env intType [] false ExternalLinkage "main" s0)
    as [mf sA|] eqn:E1; [|discriminate].
  destruct (BasicBlock_Create "entry" (fn_id mf) sA)
    as [bb sB|] eqn:E2; [|discriminate].
  change [mkArg "" (PointerTy i8); mkArg "" uintType; mkArg "" (PointerTy i8)]
    with klee_args.
  destruct (Function_Create env VoidTy klee_args false ExternalLinkage
              "klee_make_symbolic" sB) as [kf sC|] eqn:E3; [|discriminate].
  intros [= -> -> -> ->].
  destruct (build_params_st1 s0 (fn_args F) [] [] (globals (M s0)) (fresh s0)
              [] (Forall_nil _)) as (decls & Hbp & Hd).
  exists decls. split; [assumption|].
  rewrite Hbp. kred.
  rewrite makeAiStateSymbolic_st1 by assumption. kred.
  rewrite addGlobals_st. kred.
  norm_app. reflexivity.
Qed.

Lemma last_debugLoc_eq s :
  last_debugLoc F s =
  match debugLoc_of with
  | Some dl => Ok dl s
  | None => Abort (AssertionFailed "Called back() on empty list!") s
  end.
Proof.
  unfold last_debugLoc, debugLoc_of.
  destruct (list.last (fn_blocks F)) as [b|]; [|reflexivity].
  destruct (list.last (bb_insts b)); reflexivity.
Qed.

(** A dropped parameter makes the signature check fail. *)
Lemma writeMain_bad_signature :
  forallb (fun a => supported (arg_type a)) (fn_args F) = false ->
  exists decls,
    writeMain env F s0 =
    Abort (AssertionFailed "XXCalling a function with bad signature!")
          (prepared decls).
Proof.
  intros H. destruct writeMain_prepared as (decls & Hd & ->).
  exists decls. unfold finish. kunfold.
  unfold fn_value, fn_functionType. rewrite check_short; [reflexivity|].
  rewrite length_map. now apply params_code_length_lt.
Qed.

(** A candidate without instructions stops [writeMain] at [back()]. *)
Lemma writeMain_no_body :
  forallb (fun a => supported (arg_type a)) (fn_args F) = true ->
  debugLoc_of = None ->
  exists decls,
    writeMain env F s0 =
    Abort (AssertionFailed "Called back() on empty list!")
          (st1 s0 (h_prefix ++ [h_call]) decls h_globals3 (S (snd h_ai))).
Proof.
  intros H Hdl. destruct writeMain_prepared as (decls & Hd & ->).
  exists decls. unfold finish. kunfold.
  unfold fn_value at 1, fn_functionType.
  rewrite check_ok by now apply params_code_types. kred.
  unfold prepared. rewrite create_at_end_st1 by assumption. kred.
  rewrite last_debugLoc_eq, Hdl. reflexivity.
Qed.

(** Otherwise the harness gets built, and what remains is [emit].  The
    failure block calls the module's own [__assert_fail], if it has
    one. *)
Lemma writeMain_built_own dl :
  forallb (fun a => supported (arg_type a)) (fn_args F) = true ->
  debugLoc_of = Some dl ->
  exists af decls,
    decls_ok s0 decls /\
    denotes (functions (M (built af dl decls))) af "__assert_fail" /\
    own s0 af "__assert_fail" /\
    writeMain env F s0 = emit (artifact_name (M s0) F) (built af dl decls).
Proof.
  intros H Hdl. destruct writeMain_prepared as (decls & Hd & ->).
  unfold finish. kunfold.
  unfold fn_value at 1, fn_functionType.
  rewrite check_ok by now apply params_code_types. kred.
  unfold prepared. rewrite create_at_end_st1 by assumption. kred.
  rewrite last_debugLoc_eq, Hdl. kred.
  destruct (checkAiState_st s0 (h_prefix ++ [h_call]) decls h_globals3
              (S (snd h_ai)) dl Hd) as (af & decls' & Hc & Hd' & Hden & Hown).
  exists af, decls'. split; [assumption|]. split; [|split; [assumption|]].
  - unfold built, st. cbn [M functions].
    eapply denotes_main_blocks, Hden.
  - fold h_call. rewrite Hc. kred.
    rewrite create_at_end_st by assumption. kred.
    unfold built, h_blocks, h_entry, h_tail, h_assert, h_ret, h_globals.
    cbn [on_block map bb_name bb_insts app inst_id].
    norm_app. reflexivity.
Qed.

Lemma writeMain_built dl :
  forallb (fun a => supported (arg_type a)) (fn_args F) = true ->
  debugLoc_of = Some dl ->
  exists af decls,
    decls_ok s0 decls /\
    denotes (functions (M (built af dl decls))) af "__assert_fail" /\
    writeMain env F s0 = emit (artifact_name (M s0) F) (built af dl decls).
Proof.
  intros H Hdl.
  destruct (writeMain_built_own dl H Hdl) as (af & decls & Hd & Hden & _ & Hw).
  now exists af, decls.
Qed.

(** *** Opening, verifying, writing, cleaning up *)

Lemma emit_cannot_open name s :
  can_open env name = false ->
  emit name s = Ok tt (add_errs [DiagCannotWrite name] s).
Proof.
  intros H. unfold emit. kunfold. unfold raw_fd_ostream. now rewrite H.
Qed.

Lemma erase_scaffolding bs decls :
  decls_ok s0 decls ->
  filter (fun f => fn_id f ≠ S (fresh_fn_id (M s0)))
    (filter (fun f => fn_id f ≠ fresh_fn_id (M s0))
       (functions (M s0) ++ main_fn s0 bs :: klee_fn s0 :: decls)) =
  functions (M s0) ++ decls.
Proof.
  intros Hd.
  assert (H1 : Forall (fun f => fn_id f ≠ S (fresh_fn_id (M s0)))
                      (functions (M s0))).
  { eapply Forall_impl; [|apply fresh_fn_id_above]. simpl. intros; lia. }
  assert (H2 : Forall (fun f => fn_id f ≠ S (fresh_fn_id (M s0))) decls).
  { eapply Forall_impl; [|apply Hd]. simpl. intros f [Hf _]. lia. }
  rewrite list.filter_app, (filter_id_ne _ _ (orig_ne s0)).
  rewrite filter_cons_False by (cbn; lia).
  rewrite filter_cons_True by (cbn; lia).
  rewrite (filter_id_ne _ _ (decls_ok_ne _ _ Hd)).
  rewrite list.filter_app, (filter_id_ne _ _ H1).
  rewrite filter_cons_False by (cbn; lia).
  now rewrite (filter_id_ne _ _ H2).
Qed.

Lemma emit_written name bs decls gs n :
  decls_ok s0 decls ->
  can_open env name = true ->
  let s := st s0 bs decls gs n in
  verifier_accepts env (M s) = true \/
  verifier_action env ≠ AbortProcessAction ->
  exists ds,
    emit name s = Ok tt (cleaned name ds s decls) /\
    (ds = [] \/ ds = [DiagBrokenModule]).
Proof.
  intros Hd Ho s Hv. unfold emit. kunfold. unfold raw_fd_ostream.
  rewrite Ho. kred. cbn [negb].
  unfold run_verifier. kunfold. unfold get. kred.
  fold (created name s). change (M (created name s)) with (M s).
  assert (Hfin : forall ds,
    match WriteBitcodeToFile name (add_errs ds (created name s)) with
    | Ok _ s' =>
        match report (DiagWritten name) s' with
        | Ok _ s'0 =>
            match eraseFromParent (fn_id (main_fn s0 [])) s'0 with
            | Ok _ s'1 => eraseFromParent (fn_id (klee_fn s0)) s'1
            | Abort f s'1 => Abort f s'1
            end
        | Abort f s'0 => Abort f s'0
        end
    | Abort f s' => Abort f s'
    end = Ok tt (cleaned name ds s decls)).
  { intros ds. unfold WriteBitcodeToFile, report, eraseFromParent,
      modify_module, cleaned, add_errs, created. kred.
    cbn [M done errs written opened fresh]. unfold set_functions.
    cbn [functions globals moduleIdentifier main_fn klee_fn fn_id].
    subst s. unfold st at 1 2. cbn [M functions globals moduleIdentifier].
    rewrite erase_scaffolding by assumption.
    unfold st. cbn [M done errs written opened fresh globals].
    rewrite <- app_assoc. reflexivity. }
  assert (Hnil : add_errs [] (created name s) = created name s).
  { unfold add_errs. now rewrite app_nil_r. }
  destruct (verifier_accepts env (M s)) eqn:Hacc.
  - exists []. split; [|now left]. rewrite <- (Hfin []), Hnil. reflexivity.
  - destruct Hv as [Hv|Hv]; [discriminate|].
    destruct (verifier_action env) eqn:Hact; [contradiction| |].
    + exists [DiagBrokenModule]. split; [|now right].
      rewrite <- (Hfin [DiagBrokenModule]). reflexivity.
    + exists []. split; [|now left]. rewrite <- (Hfin []), Hnil. reflexivity.
Qed.

Lemma emit_verifier_abort name s :
  can_open env name = true ->
  verifier_accepts env (M s) = false ->
  verifier_action env = AbortProcessAction ->
  emit name s =
  Abort VerifierAbort (add_errs [DiagBrokenModule] (created name s)).
Proof.
  intros Ho Hacc Hact. unfold emit. kunfold. unfold raw_fd_ostream.
  rewrite Ho. kred. cbn [negb].
  unfold run_verifier. kunfold. unfold get. kred. cbn [M].
  rewrite Hacc, Hact. reflexivity.
Qed.

End CandidateFacts.

End SynthesisFacts.

(* ===================================================================== *)
(** ** The claims of the specification *)
(* ===================================================================== *)

(** *** No-op runs *)

(** C6.  If the module has no function called [__assert_fail], or the
    call graph lists no call site of it, [run] returns (with [false]) in
    the very state it started in: the module is unchanged and no file is
    created or written; a run of the pass on the module therefore ends
    with empty lists of created and of written files. *)
Theorem C6_run_without_failure_routine_is_noop (env : Services) (s : KState) :
  getFunction (M s) "__assert_fail" = None \/
  (exists Faf, getFunction (M s) "__assert_fail" = Some Faf /\
               callees (CG env) (fn_id Faf) = []) ->
  run env s = Ok false s /\
  runOnModule env (M s) = Ok false (mkState (M s) false [] [] [] 0).
Proof.
  intros H. unfold runOnModule, run. kunfold. unfold get. kred.
  cbn [M]. destruct H as [->|(Faf & -> & ->)]; split; reflexivity.
Qed.

Lemma C6_witness :
  (run Example.env0 Example.s_quiet = Ok false Example.s_quiet /\
   runOnModule Example.env0 (M Example.s_quiet) =
     Ok false (mkState (M Example.s_quiet) false [] [] [] 0)) /\
  (run Example.env_uncalled Example.s0 = Ok false Example.s0 /\
   runOnModule Example.env_uncalled (M Example.s0) =
     Ok false (mkState (M Example.s0) false [] [] [] 0)).
Proof.
  split.
  - apply (C6_run_without_failure_routine_is_noop Example.env0
             Example.s_quiet).
    left. reflexivity.
  - apply (C6_run_without_failure_routine_is_noop Example.env_uncalled
             Example.s0).
    right. exists Example.assert_fail_fn. split; reflexivity.
Defined.

(** *** Signature validation *)

Section EmittedFacts.

Variable env : Services.

Lemma klee_pre_not_call v n ty addr arr :
  Forall (not_call_to v) (klee_pre env n ty addr arr).
Proof.
  unfold klee_pre, klee_cast, klee_mul.
  destruct (negb (Ty_eqb (type_of addr) voidPtrType)), arr;
    repeat constructor; intros args; discriminate.
Qed.

Lemma klee_call_not_call s0 v n name ty addr arr :
  fn_value (klee_fn env s0) <> v ->
  not_call_to v (klee_call env s0 n name ty addr arr).
Proof. intros H args [= Hv _]. contradiction. Qed.

Lemma param_code_not_call s0 v n glen param :
  fn_value (klee_fn env s0) <> v ->
  Forall (not_call_to v) (pc_front (param_code env s0 n glen param)) /\
  Forall (not_call_to v) (pc_back (param_code env s0 n glen param)).
Proof.
  intros H. unfold param_code.
  destruct (arg_type param) as [| | | |bits|elem|r ps va|nm body|k e|k e];
    try (split; constructor).
  - unfold integer_code. cbn [pc_front pc_back]. split.
    + repeat constructor. intros args; discriminate.
    + apply Forall_app. split; [apply klee_pre_not_call|].
      repeat constructor; [now apply klee_call_not_call|].
      intros args; discriminate.
  - unfold pointer_code.
    destruct (negb (Ty_eqb (PointerTy elem) voidPtrType));
      cbn [pc_front pc_back]; (split; [constructor|]);
      (constructor; [intros args; discriminate|]);
      (apply Forall_app; split; [apply klee_pre_not_call|]);
      repeat constructor;
      first [now apply klee_call_not_call | intros args; discriminate].
Qed.

Lemma params_code_not_call s0 v : forall args n glen,
  fn_value (klee_fn env s0) <> v ->
  Forall (not_call_to v) (ps_front (params_code env s0 n glen args)) /\
  Forall (not_call_to v) (ps_back (params_code env s0 n glen args)).
Proof.
  induction args as [|param rest IH]; intros n glen H.
  - split; constructor.
  - cbn [params_code ps_front ps_back].
    destruct (param_code_not_call s0 v n glen param H) as [Hf Hb].
    destruct (IH (pc_next (param_code env s0 n glen param)) (S glen) H)
      as [Hf' Hb'].
    split; apply Forall_app; now split.
Qed.

Lemma ai_code_not_call s0 v : forall l n glen,
  fn_value (klee_fn env s0) <> v ->
  Forall (not_call_to v) (fst (ai_code env s0 n glen l)).
Proof.
  induction l as [|[idx g] l IH]; intros n glen H; [constructor|].
  cbn [ai_code]. destruct (isAiState g); [|now apply IH].
  cbn [fst]. apply Forall_app. split; [|now apply IH].
  unfold ai_insts. apply Forall_app. split; [apply klee_pre_not_call|].
  repeat constructor; [now apply klee_call_not_call|].
  intros args; discriminate.
Qed.

Lemma h_prefix_not_call s0 F v :
  fn_value (klee_fn env s0) <> v ->
  Forall (not_call_to v) (h_prefix env s0 F).
Proof.
  intros H. unfold h_prefix.
  destruct (params_code_not_call s0 v (fn_args F) (fresh s0)
              (length (globals (M s0))) H) as [Hf Hb].
  repeat (apply Forall_app; split); try assumption.
  now apply ai_code_not_call.
Qed.

(** A candidate with a parameter that is neither a pointer nor an
    integer is not the symbolic-marking primitive, whose parameters all
    are. *)
Lemma unsupported_not_klee s0 F :
  forallb (fun a => supported (arg_type a)) (fn_args F) = false ->
  fn_value (klee_fn env s0) <> fn_value F.
Proof.
  intros H E. unfold fn_value, fn_functionType in E.
  injection E as _ _ Hargs _.
  assert (Hs : forallb supported (map arg_type (fn_args F)) = true)
    by (rewrite <- Hargs; reflexivity).
  assert (Hm : forall l : list Argument,
             forallb supported (map arg_type l) =
             forallb (fun a => supported (arg_type a)) l).
  { induction l as [|a l IH]; [reflexivity|]. cbn [map forallb].
    now rewrite IH. }
  rewrite Hm in Hs. congruence.
Qed.

End EmittedFacts.

(** C8.  For a candidate with a formal parameter that is neither
    pointer-typed nor integer-typed, the loop over the parameters returns
    an argument list strictly shorter than the parameter list, and
    [writeMain] stops at the signature assertion of [check] (a fatal
    assertion failure), in a state where the entry function consists of
    its entry block only, that block holds no call of the candidate, and
    no file has been written. *)
Theorem C8_dropped_parameter_fails_signature_check
  (env : Services) (s : KState) (F : Function) :
  forallb (fun a => supported (arg_type a)) (fn_args F) = false ->
  exists args s1 decls,
    build_params env (klee_fn env s) (mainBB s) (fn_args F) []
                 (st env s [mkBB "entry" []] [] (globals (M s)) (fresh s))
      = Ok args s1 /\
    (length args < length (fn_args F))%nat /\
    writeMain env F s =
      Abort (AssertionFailed "XXCalling a function with bad signature!")
            (prepared env s F decls) /\
    functions (M (prepared env s F decls)) =
      functions (M s) ++
      main_fn env s [mkBB "entry" (h_prefix env s F)] :: klee_fn env s :: decls /\
    Forall (fun f => fn_blocks f = []) decls /\
    Forall (not_call_to (fn_value F)) (h_prefix env s F) /\
    written (prepared env s F decls) = written s.
Proof.
  intros H.
  destruct (build_params_st1 env s (fn_args F) [] [] (globals (M s)) (fresh s)
              [] (Forall_nil _)) as (decls0 & Hbp & _).
  destruct (writeMain_bad_signature env s F H) as (decls & Hw).
  destruct (writeMain_prepared env s F) as (decls' & Hd & Hw').
  assert (Hdecls : decls' = decls).
  { rewrite Hw' in Hw. unfold finish in Hw. revert Hw. kunfold.
    unfold fn_value, fn_functionType. rewrite check_short.
    - intros Hst.
      assert (Hfs : functions (M (prepared env s F decls')) =
                    functions (M (prepared env s F decls)))
        by congruence.
      unfold prepared, st in Hfs. cbn [M functions] in Hfs.
      apply app_inv_head in Hfs. now injection Hfs.
    - rewrite length_map. now apply params_code_length_lt. }
  subst decls'.
  eexists _, _, decls. split; [exact Hbp|]. cbn [app].
  split; [now apply params_code_length_lt|].
  split; [exact Hw|]. split; [reflexivity|].
  split; [|split; [|reflexivity]].
  - eapply Forall_impl; [|apply Hd]. intros f [_ [Hb _]]. exact Hb.
  - apply h_prefix_not_call. now apply unsupported_not_klee.
Qed.

Lemma C8_witness :
  forallb (fun a => supported (arg_type a)) (fn_args Example.fG) = false /\
  exists args s1 decls,
    build_params Example.env0 (klee_fn Example.env0 Example.s0)
                 (mainBB Example.s0) (fn_args Example.fG) []
                 (st Example.env0 Example.s0 [mkBB "entry" []] []
                     (globals (M Example.s0)) (fresh Example.s0))
      = Ok args s1 /\
    (length args < length (fn_args Example.fG))%nat /\
    writeMain Example.env0 Example.fG Example.s0 =
      Abort (AssertionFailed "XXCalling a function with bad signature!")
            (prepared Example.env0 Example.s0 Example.fG decls) /\
    functions (M (prepared Example.env0 Example.s0 Example.fG decls)) =
      functions (M Example.s0) ++
      main_fn Example.env0 Example.s0
        [mkBB "entry" (h_prefix Example.env0 Example.s0 Example.fG)]
      :: klee_fn Example.env0 Example.s0 :: decls /\
    Forall (fun f => fn_blocks f = []) decls /\
    Forall (not_call_to (fn_value Example.fG))
           (h_prefix Example.env0 Example.s0 Example.fG) /\
    written (prepared Example.env0 Example.s0 Example.fG decls) =
      written Example.s0.
Proof.
  split; [reflexivity|].
  apply (C8_dropped_parameter_fails_signature_check Example.env0 Example.s0
           Example.fG).
  reflexivity.
Defined.

(** *** The outcomes of [writeMain] *)

(** [writeMain] returns normally in two ways only: the harness was built
    and the file could not be opened, or it was built, written and the
    scaffolding removed. *)
Lemma writeMain_Ok_cases_own (env : Services) (F : Function) (s s' : KState) :
  writeMain env F s = Ok tt s' ->
  exists af dl decls,
    decls_ok s decls /\
    all_supported F = true /\ debugLoc_of F = Some dl /\
    denotes (functions (M (built env s F af dl decls))) af "__assert_fail" /\
    own s af "__assert_fail" /\
    let name := artifact_name (M s) F in
    let b := built env s F af dl decls in
    (can_open env name = false /\ s' = add_errs [DiagCannotWrite name] b) \/
    (can_open env name = true /\
     exists ds, s' = cleaned s name ds b decls /\
                (ds = [] \/ ds = [DiagBrokenModule])).
Proof.
  intros Hw. unfold all_supported.
  destruct (forallb (fun a => supported (arg_type a)) (fn_args F)) eqn:Hs.
  2:{ destruct (writeMain_bad_signature env s F Hs) as (d & Hb).
      congruence. }
  destruct (debugLoc_of F) as [dl|] eqn:Hdl.
  2:{ destruct (writeMain_no_body env s F Hs Hdl) as (d & Hb). congruence. }
  destruct (writeMain_built_own env s F dl Hs Hdl)
    as (af & decls & Hd & Hden & Hown & Hb).
  exists af, dl, decls. repeat (split; [assumption || reflexivity|]).
  cbn zeta. rewrite Hb in Hw.
  destruct (can_open env (artifact_name (M s) F)) eqn:Ho.
  - right. split; [reflexivity|].
    destruct (verifier_accepts env (M (built env s F af dl decls))) eqn:Hacc.
    + destruct (emit_written env s (artifact_name (M s) F)
                  (h_blocks env s F af dl) decls (h_globals s F)
                  (S (inst_id (h_ret env s F))) Hd Ho (or_introl Hacc))
        as (ds & He & Hds).
      exists ds. split; [|assumption]. unfold built in *. congruence.
    + destruct (verifier_action env) eqn:Hact.
      * rewrite (emit_verifier_abort env s _ _ Ho Hacc Hact) in Hw.
        discriminate.
      * destruct (emit_written env s (artifact_name (M s) F)
                    (h_blocks env s F af dl) decls (h_globals s F)
                    (S (inst_id (h_ret env s F))) Hd Ho)
          as (ds & He & Hds); [right; congruence|].
        exists ds. split; [|assumption]. unfold built in *. congruence.
      * destruct (emit_written env s (artifact_name (M s) F)
                    (h_blocks env s F af dl) decls (h_globals s F)
                    (S (inst_id (h_ret env s F))) Hd Ho)
          as (ds & He & Hds); [right; congruence|].
        exists ds. split; [|assumption]. unfold built in *. congruence.
  - left. split; [reflexivity|].
    rewrite (emit_cannot_open env s _ _ Ho) in Hw. congruence.
Qed.

Lemma writeMain_Ok_cases (env : Services) (F : Function) (s s' : KState) :
  writeMain env F s = Ok tt s' ->
  exists af dl decls,
    decls_ok s decls /\
    all_supported F = true /\ debugLoc_of F = Some dl /\
    denotes (functions (M (built env s F af dl decls))) af "__assert_fail" /\
    let name := artifact_name (M s) F in
    let b := built env s F af dl decls in
    (can_open env name = false /\ s' = add_errs [DiagCannotWrite name] b) \/
    (can_open env name = true /\
     exists ds, s' = cleaned s name ds b decls /\
                (ds = [] \/ ds = [DiagBrokenModule])).
Proof.
  intros Hw.
  destruct (writeMain_Ok_cases_own env F s s' Hw)
    as (af & dl & decls & Hd & Hs & Hdl & Hden & _ & H).
  now exists af, dl, decls.
Qed.

(** An artifact written by [writeMain] is the module with the finished
    harness in it, whose failure block calls the module's own
    [__assert_fail] if it has one. *)
Lemma writeMain_artifact_own (env : Services) (F : Function) (s s' : KState)
  (name : string) (M' : Module) :
  writeMain env F s = Ok tt s' ->
  written s' = written s ++ [(name, M')] ->
  exists af dl decls,
    denotes (functions M') af "__assert_fail" /\
    own s af "__assert_fail" /\
    M' = M (built env s F af dl decls).
Proof.
  intros Hw Hwr.
  destruct (writeMain_Ok_cases_own env F s s' Hw)
    as (af & dl & decls & Hd & Hs & Hdl & Hden & Hown &
        [[Ho ->]|[Ho (ds & -> & _)]]).
  - exfalso. cbn [add_errs written built st] in Hwr.
    apply (f_equal (@length _)) in Hwr. rewrite length_app in Hwr.
    cbn [length] in Hwr. lia.
  - cbn [cleaned written built st] in Hwr.
    apply app_inj_tail in Hwr as [_ [= <- <-]].
    now exists af, dl, decls.
Qed.

(** An artifact written by [writeMain] is the module with the finished
    harness in it. *)
Lemma writeMain_artifact (env : Services) (F : Function) (s s' : KState)
  (name : string) (M' : Module) :
  writeMain env F s = Ok tt s' ->
  written s' = written s ++ [(name, M')] ->
  exists af dl decls ds,
    decls_ok s decls /\
    all_supported F = true /\ debugLoc_of F = Some dl /\
    denotes (functions M') af "__assert_fail" /\
    name = artifact_name (M s) F /\
    M' = M (built env s F af dl decls) /\
    s' = cleaned s name ds (built env s F af dl decls) decls.
Proof.
  intros Hw Hwr.
  destruct (writeMain_Ok_cases env F s s' Hw)
    as (af & dl & decls & Hd & Hs & Hdl & Hden & [[Ho ->]|[Ho (ds & -> & _)]]).
  - exfalso. cbn [add_errs written built st] in Hwr.
    apply (f_equal (@length _)) in Hwr. rewrite length_app in Hwr.
    cbn [length] in Hwr. lia.
  - cbn [cleaned written built st] in Hwr.
    apply app_inj_tail in Hwr as [_ [= <- <-]].
    exists af, dl, decls, ds. repeat (split; [assumption || reflexivity|]).
    reflexivity.
Qed.

(** *** Facts about the globals of a harness *)

Lemma isAiState_str_global str : isAiState (str_global str) = false.
Proof. reflexivity. Qed.

Lemma isAiState_zeroed g : isAiState (zeroed g) = isAiState g.
Proof. unfold zeroed. now destruct (isAiState g) eqn:E. Qed.

Lemma isAiState_nulled g : isAiState (nulled g) = isAiState g.
Proof. unfold nulled. now destruct (hasInitializer g). Qed.

Lemma hasInitializer_nulled g : hasInitializer (nulled g) = true.
Proof. unfold nulled. now destruct (hasInitializer g) eqn:E. Qed.

Lemma nulled_zeroed_state g :
  isAiState g = true ->
  nulled (zeroed g) = set_initializer (Some zero) g.
Proof. intros H. unfold zeroed. now rewrite H. Qed.

(** In a finished harness every state variable has the initializer zero
    and every global has an initializer. *)
Lemma h_globals_state_zero s F g :
  In g (h_globals s F) -> isAiState g = true ->
  gv_initializer g = Some zero.
Proof.
  unfold h_globals, h_globals3. intros Hin Hg.
  apply in_app_or in Hin as [Hin|Hin].
  - apply in_map_iff in Hin as (g1 & <- & Hin).
    rewrite isAiState_nulled in Hg.
    apply in_app_or in Hin as [Hin|Hin].
    + apply in_map_iff in Hin as (g0 & <- & Hin).
      rewrite isAiState_zeroed in Hg. now rewrite nulled_zeroed_state.
    + unfold ai_strings in Hin. apply in_map_iff in Hin as (g0 & <- & _).
      discriminate.
  - cbn in Hin. destruct Hin as [<-|[<-|[<-|[]]]]; discriminate.
Qed.

Lemma h_globals_initialized s F g :
  In g (h_globals s F) -> hasInitializer g = true.
Proof.
  unfold h_globals, h_globals3. intros Hin.
  apply in_app_or in Hin as [Hin|Hin].
  - apply in_map_iff in Hin as (g1 & <- & _). apply hasInitializer_nulled.
  - cbn in Hin. destruct Hin as [<-|[<-|[<-|[]]]]; reflexivity.
Qed.

Lemma main_fn_not_in env s bs fs decls :
  Forall (fun f => (fn_id f < fresh_fn_id (M s))%nat) fs ->
  decls_ok s decls ->
  ~ In (main_fn env s bs) (fs ++ decls) /\ ~ In (klee_fn env s) (fs ++ decls).
Proof.
  intros Hfs Hd.
  split; intros Hin; apply in_app_or in Hin as [Hin|Hin].
  - rewrite Forall_forall in Hfs. apply Hfs in Hin. cbn in Hin. lia.
  - unfold decls_ok in Hd. rewrite Forall_forall in Hd.
    apply Hd in Hin as [Hin _]. cbn in Hin. lia.
  - rewrite Forall_forall in Hfs. apply Hfs in Hin. cbn in Hin. lia.
  - unfold decls_ok in Hd. rewrite Forall_forall in Hd.
    apply Hd in Hin as [Hin _]. cbn in Hin. lia.
Qed.

(** *** Scaffolding across candidates *)

(** C10.  If the output file of a candidate cannot be opened, [writeMain]
    reports that and returns: nothing is written, the verifier has not
    run (the result is the same whatever the verifier would say or do),
    and the entry function and the declaration of the symbolic-marking
    primitive, which were not in the module before, stay in it.  An
    artifact written for a candidate processed next contains both. *)
Theorem C10_open_failure_leaves_scaffolding
  (env : Services) (s : KState) (F : Function) :
  all_supported F = true ->
  debugLoc_of F <> None ->
  can_open env (artifact_name (M s) F) = false ->
  exists s' bs decls,
    writeMain env F s = Ok tt s' /\
    errs s' = errs s ++ [DiagCannotWrite (artifact_name (M s) F)] /\
    written s' = written s /\
    functions (M s') =
      functions (M s) ++ main_fn env s bs :: klee_fn env s :: decls /\
    ~ In (main_fn env s bs) (functions (M s)) /\
    ~ In (klee_fn env s) (functions (M s)) /\
    forall G s'' name' M',
      writeMain env G s' = Ok tt s'' ->
      written s'' = written s' ++ [(name', M')] ->
      In (main_fn env s bs) (functions M') /\
      In (klee_fn env s) (functions M').
Proof.
  intros Hs Hdl Ho.
  destruct (debugLoc_of F) as [dl|] eqn:Edl; [clear Hdl|contradiction].
  destruct (writeMain_built env s F dl Hs Edl) as (af & decls & Hd & _ & Hw).
  rewrite (emit_cannot_open env s _ _ Ho) in Hw.
  eexists _, (h_blocks env s F af dl), decls.
  split; [exact Hw|]. split; [reflexivity|]. split; [reflexivity|].
  split; [reflexivity|].
  destruct (main_fn_not_in env s (h_blocks env s F af dl) (functions (M s)) []
              (fresh_fn_id_above _) (Forall_nil _)) as [H1 H2].
  rewrite app_nil_r in H1, H2. split; [exact H1|]. split; [exact H2|].
  intros G s'' name' M' HwG Hwr.
  destruct (writeMain_artifact env G _ s'' name' M' HwG Hwr)
    as (af' & dl' & decls' & ds & _ & _ & _ & _ & _ & -> & _).
  cbn [built st M functions add_errs].
  split; apply in_or_app; left; apply in_or_app; right.
  - now left.
  - right. now left.
Qed.

Lemma C10_witness :
  (all_supported Example.fA = true /\
   debugLoc_of Example.fA <> None /\
   can_open Example.env_only_B (artifact_name (M Example.s0) Example.fA)
     = false) /\
  exists s' bs decls,
    writeMain Example.env_only_B Example.fA Example.s0 = Ok tt s' /\
    errs s' = errs Example.s0 ++
              [DiagCannotWrite (artifact_name (M Example.s0) Example.fA)] /\
    written s' = written Example.s0 /\
    functions (M s') =
      functions (M Example.s0) ++
      main_fn Example.env_only_B Example.s0 bs
      :: klee_fn Example.env_only_B Example.s0 :: decls /\
    ~ In (main_fn Example.env_only_B Example.s0 bs)
         (functions (M Example.s0)) /\
    ~ In (klee_fn Example.env_only_B Example.s0) (functions (M Example.s0)) /\
    forall G s'' name' M',
      writeMain Example.env_only_B G s' = Ok tt s'' ->
      written s'' = written s' ++ [(name', M')] ->
      In (main_fn Example.env_only_B Example.s0 bs) (functions M') /\
      In (klee_fn Example.env_only_B Example.s0) (functions M').
Proof.
  split; [split; [reflexivity|split; [discriminate|reflexivity]]|].
  apply (C10_open_failure_leaves_scaffolding Example.env_only_B Example.s0
           Example.fA); [reflexivity|discriminate|reflexivity].
Defined.

(** C9.  When [writeMain] has written a candidate's artifact, the entry
    function and the declaration of the symbolic-marking primitive, which
    the artifact contains, are gone from the module: its functions are
    those it had before the synthesis plus at most declarations of the
    library functions [malloc] and [__assert_fail].  The globals are not
    restored: the module keeps the globals of the artifact, where every
    state variable has the initializer zero and every global has an
    initializer.  The artifact of the candidate processed next consists
    of that module and of the scaffolding created for that candidate. *)
Theorem C9_scaffolding_erased_after_write
  (env : Services) (s : KState) (F : Function) (s' : KState)
  (name : string) (M' : Module) :
  writeMain env F s = Ok tt s' ->
  written s' = written s ++ [(name, M')] ->
  exists bs decls,
    functions M' =
      functions (M s) ++ main_fn env s bs :: klee_fn env s :: decls /\
    functions (M s') = functions (M s) ++ decls /\
    Forall lib_decl decls /\
    ~ In (main_fn env s bs) (functions (M s')) /\
    ~ In (klee_fn env s) (functions (M s')) /\
    globals (M s') = globals M' /\
    (forall g, In g (globals (M s')) -> isAiState g = true ->
               gv_initializer g = Some (ConstantInt intType 0)) /\
    (forall g, In g (globals (M s')) -> hasInitializer g = true) /\
    forall G s'' name'' M'',
      writeMain env G s' = Ok tt s'' ->
      written s'' = written s' ++ [(name'', M'')] ->
      exists bs' decls',
        functions M'' =
          (functions (M s) ++ decls) ++
          main_fn env s' bs' :: klee_fn env s' :: decls' /\
        Forall lib_decl decls'.
Proof.
  intros Hw Hwr.
  destruct (writeMain_artifact env F s s' name M' Hw Hwr)
    as (af & dl & decls & ds & Hd & _ & _ & _ & _ & -> & ->).
  exists (h_blocks env s F af dl), decls.
  assert (Hlib : forall s0 d, decls_ok s0 d -> Forall lib_decl d).
  { intros s0 d H. eapply Forall_impl; [|apply H]. now intros f [_ Hf]. }
  cbn [cleaned built st M functions globals].
  destruct (main_fn_not_in env s (h_blocks env s F af dl) (functions (M s))
              decls (fresh_fn_id_above _) Hd) as [H1 H2].
  repeat (split; [first [reflexivity | assumption | now apply (Hlib s)]|]).
  split; [|split].
  - intros g Hin Hg. now apply (h_globals_state_zero s F).
  - intros g Hin. now apply (h_globals_initialized s F).
  - intros G s'' name'' M'' HwG HwrG.
    destruct (writeMain_artifact env G _ s'' name'' M'' HwG HwrG)
      as (af' & dl' & decls' & ds' & Hd' & _ & _ & _ & _ & -> & _).
    eexists _, decls'. split; [reflexivity|]. now apply (Hlib _ _ Hd').
Qed.

Lemma C9_witness :
  let s1 := state_of (writeMain Example.env0 Example.fA Example.s0) in
  exists M',
  (writeMain Example.env0 Example.fA Example.s0 = Ok tt s1 /\
   written s1 = written Example.s0 ++ [("mod.main.A.o", M')]) /\
  exists bs decls,
    functions M' =
      functions (M Example.s0) ++
      main_fn Example.env0 Example.s0 bs
      :: klee_fn Example.env0 Example.s0 :: decls /\
    functions (M s1) = functions (M Example.s0) ++ decls /\
    Forall lib_decl decls /\
    ~ In (main_fn Example.env0 Example.s0 bs) (functions (M s1)) /\
    ~ In (klee_fn Example.env0 Example.s0) (functions (M s1)) /\
    globals (M s1) = globals M' /\
    (forall g, In g (globals (M s1)) -> isAiState g = true ->
               gv_initializer g = Some (ConstantInt intType 0)) /\
    (forall g, In g (globals (M s1)) -> hasInitializer g = true) /\
    forall G s'' name'' M'',
      writeMain Example.env0 G s1 = Ok tt s'' ->
      written s'' = written s1 ++ [(name'', M'')] ->
      exists bs' decls',
        functions M'' =
          (functions (M Example.s0) ++ decls) ++
          main_fn Example.env0 s1 bs' :: klee_fn Example.env0 s1 :: decls' /\
        Forall lib_decl decls'.
Proof.
  intros s1.
  assert (H1 : writeMain Example.env0 Example.fA Example.s0 = Ok tt s1)
    by (vm_compute; reflexivity).
  eexists.
  assert (H2 : written s1 = written Example.s0 ++ [("mod.main.A.o", _)])
    by (vm_compute; reflexivity).
  split; [split; [exact H1|exact H2]|].
  exact (C9_scaffolding_erased_after_write Example.env0 Example.s0 Example.fA
           s1 "mod.main.A.o" _ H1 H2).
Defined.

(** *** Qualification and the loop over the candidates *)

(** The inner loop invokes [writeMain] once if some call of the
    candidate goes directly to [Faf], and not at all otherwise. *)
Lemma calls_loop_spec (env : Services) (Faf F : Function) (s : KState) :
  calls_loop env Faf F (calls (CG env) (fn_id F)) s =
  if qualifies env Faf F then writeMain env F s else Ok tt s.
Proof.
  unfold qualifies. induction (calls (CG env) (fn_id F)) as [|[site c] cs IH].
  - reflexivity.
  - cbn [calls_loop existsb snd]. destruct (Nat.eqb c (fn_id Faf)).
    + reflexivity.
    + exact IH.
Qed.

(** *** Verification failure *)

(** What [writeMain] does for a candidate whose harness gets built and
    whose file can be opened depends on the verifier's verdict on one
    module, the module with the finished harness. *)
Lemma writeMain_verdict (env : Services) (s : KState) (F : Function) :
  all_supported F = true ->
  debugLoc_of F <> None ->
  can_open env (artifact_name (M s) F) = true ->
  exists Mh,
    (verifier_accepts env Mh = false ->
     verifier_action env = AbortProcessAction ->
     exists sa,
       writeMain env F s = Abort VerifierAbort sa /\
       M sa = Mh /\
       errs sa = errs s ++ [DiagBrokenModule] /\
       written sa = written s /\
       opened sa = opened s ++ [artifact_name (M s) F]) /\
    (verifier_accepts env Mh = true \/
     verifier_action env <> AbortProcessAction ->
     exists s',
       writeMain env F s = Ok tt s' /\
       written s' = written s ++ [(artifact_name (M s) F, Mh)] /\
       opened s' = opened s ++ [artifact_name (M s) F] /\
       moduleIdentifier (M s') = moduleIdentifier (M s) /\
       (exists decls, functions (M s') = functions (M s) ++ decls) /\
       done s' = done s).
Proof.
  intros Hs Hdl Ho.
  destruct (debugLoc_of F) as [dl|] eqn:Edl; [clear Hdl|contradiction].
  destruct (writeMain_built env s F dl Hs Edl) as (af & decls & Hd & _ & Hw).
  exists (M (built env s F af dl decls)). split.
  - intros Hacc Hact.
    rewrite (emit_verifier_abort env s _ _ Ho Hacc Hact) in Hw.
    eexists. split; [exact Hw|]. repeat split.
  - intros Hv.
    destruct (emit_written env s (artifact_name (M s) F)
                (h_blocks env s F af dl) decls (h_globals s F)
                (S (inst_id (h_ret env s F))) Hd Ho Hv)
      as (ds & He & _).
    eexists. split; [rewrite Hw; exact He|].
    split; [reflexivity|]. split; [reflexivity|]. split; [reflexivity|].
    split; [exists decls; reflexivity|reflexivity].
Qed.

(** C5, as the code has it.  [writeMain] opens the candidate's file,
    runs the verifier on the module with the finished harness, and does
    not look at its verdict: the verifier pass it builds ends the process
    when it rejects.  So for a candidate whose harness gets built and
    whose file can be opened there is one module [Mh] such that: if the
    verifier accepts [Mh], the artifact written is [Mh]; if it rejects
    [Mh], the failure is reported and the run ends there, in a state whose
    module is [Mh], with nothing written, the candidate's file created and
    left empty, and the remaining candidates not processed. *)
Theorem C5_verifier_rejection
  (env : Services) (s : KState) (F : Function) :
  all_supported F = true ->
  debugLoc_of F <> None ->
  state_typed (M s) ->
  can_open env (artifact_name (M s) F) = true ->
  verifier_action env = AbortProcessAction ->
  exists Mh,
    (verifier_accepts env Mh = true ->
     exists s',
       writeMain env F s = Ok tt s' /\
       written s' = written s ++ [(artifact_name (M s) F, Mh)]) /\
    (verifier_accepts env Mh = false ->
     exists sa,
       writeMain env F s = Abort VerifierAbort sa /\
       M sa = Mh /\
       errs sa = errs s ++ [DiagBrokenModule] /\
       written sa = written s /\
       opened sa = opened s ++ [artifact_name (M s) F] /\
       forall Faf op rest,
         init_function op s = Ok F s -> qualifies env Faf F = true ->
         candidates_loop env Faf (op :: rest) s = Abort VerifierAbort sa).
Proof.
  intros Hs Hdl _ Ho Hact.
  destruct (writeMain_verdict env s F Hs Hdl Ho) as (Mh & Hrej & Hacc).
  exists Mh. split.
  - intros Ha. destruct (Hacc (or_introl Ha)) as (s' & Hw & Hwr & _).
    now exists s'.
  - intros Ha.
    destruct (Hrej Ha Hact) as (sa & Hw & HM & He & Hwr & Hop).
    exists sa. repeat (split; [assumption|]).
    intros Faf op rest Hin Hq. cbn [candidates_loop]. kunfold.
    rewrite Hin. kred. rewrite calls_loop_spec, Hq, Hw. reflexivity.
Qed.

Lemma C5_witness :
  let sa := state_of (writeMain Example.env_reject_abort Example.fA
                                Example.s0) in
  exists Mh,
    verifier_accepts Example.env_reject_abort Mh = false /\
    writeMain Example.env_reject_abort Example.fA Example.s0 =
      Abort VerifierAbort sa /\
    M sa = Mh /\
    errs sa = errs Example.s0 ++ [DiagBrokenModule] /\
    written sa = written Example.s0 /\
    opened sa = opened Example.s0 ++ ["mod.main.A.o"] /\
    forall Faf op rest,
      init_function op Example.s0 = Ok Example.fA Example.s0 ->
      qualifies Example.env_reject_abort Faf Example.fA = true ->
      candidates_loop Example.env_reject_abort Faf (op :: rest) Example.s0 =
      Abort VerifierAbort sa.
Proof.
  intros sa.
  assert (Hst : state_typed (M Example.s0)) by typed.
  destruct (C5_verifier_rejection Example.env_reject_abort Example.s0
              Example.fA eq_refl ltac:(discriminate) Hst eq_refl eq_refl)
    as (Mh & _ & H2).
  exists Mh.
  assert (Hrej : verifier_accepts Example.env_reject_abort Mh = false)
    by reflexivity.
  split; [exact Hrej|].
  destruct (H2 Hrej) as (sa' & Hw & Hrest).
  assert (Esa : sa' = sa) by (unfold sa; now rewrite Hw).
  rewrite Esa in Hw, Hrest. split; [exact Hw|exact Hrest].
Defined.

(** The claim as stated fails: with candidates [A; B], both qualifying,
    and a verifier that rejects the harness of [A], the run ends in the
    verifier's abort.  [B] is not processed: no artifact is written, and
    the one file created is [A]'s, left empty. *)
Lemma C5_counterexample :
  verifier_action Example.env_reject_abort = AbortProcessAction /\
  getInitFuns Example.env_reject_abort =
    Some [Example.cand Example.fA; Example.cand Example.fB] /\
  qualifies Example.env_reject_abort Example.assert_fail_fn Example.fB
    = true /\
  failure_of (runOnModule Example.env_reject_abort Example.m0)
    = Some VerifierAbort /\
  errs (state_of (runOnModule Example.env_reject_abort Example.m0))
    = [DiagBrokenModule] /\
  written (state_of (runOnModule Example.env_reject_abort Example.m0))
    = [] /\
  opened (state_of (runOnModule Example.env_reject_abort Example.m0))
    = ["mod.main.A.o"].
Proof. vm_compute. repeat split; reflexivity. Qed.

(** *** The whole run *)

Lemma init_function_candidate m s op F :
  run_state m s -> candidate_of m op = Some F ->
  init_function op s = Ok F s.
Proof.
  intros (_ & (decls & Hf) & _) Hc. unfold init_function.
  destruct op as [| | | | | |c t|]; try discriminate.
  destruct c as [| | | | |id t'| |]; try discriminate.
  cbn [candidate_of] in Hc. kunfold. unfold get. kred.
  unfold getFunctionById in *. rewrite Hf, (find_app_Some _ _ _ _ Hc).
  reflexivity.
Qed.

(** A candidate for which synthesis and emission go through gets its
    artifact unless the verifier ends the process. *)
Lemma writeMain_well_behaved env s F :
  well_behaved env (M s) F ->
  failure_of (writeMain env F s) <> Some VerifierAbort ->
  exists s' M',
    writeMain env F s = Ok tt s' /\
    written s' = written s ++ [(artifact_name (M s) F, M')] /\
    opened s' = opened s ++ [artifact_name (M s) F] /\
    moduleIdentifier (M s') = moduleIdentifier (M s) /\
    (exists decls, functions (M s') = functions (M s) ++ decls) /\
    done s' = done s.
Proof.
  intros (Hs & Hdl & Ho) Hv.
  destruct (writeMain_verdict env s F Hs Hdl Ho) as (Mh & Hrej & Hacc).
  assert (Hc : verifier_accepts env Mh = true \/
               verifier_action env <> AbortProcessAction).
  { destruct (verifier_accepts env Mh) eqn:Ea; [now left|].
    destruct (verifier_action env) eqn:Eact;
      [|right; discriminate|right; discriminate].
    destruct (Hrej eq_refl eq_refl) as (sa & Hw & _).
    rewrite Hw in Hv. now contradiction Hv. }
  destruct (Hacc Hc) as (s' & Hw). now exists s', Mh.
Qed.

(** Every qualifying candidate of the list gets its artifact, in list
    order; the flag [done] is never set, so the loop never stops early. *)
Lemma candidates_loop_all env Faf m : forall ops s,
  run_state m s ->
  Forall (fun op => exists F, candidate_of m op = Some F /\
                     (qualifies env Faf F = true -> well_behaved env m F))
         ops ->
  failure_of (candidates_loop env Faf ops s) <> Some VerifierAbort ->
  exists s',
    candidates_loop env Faf ops s = Ok tt s' /\
    run_state m s' /\
    map fst (written s') =
      map fst (written s) ++
      map (artifact_name m)
          (List.filter (qualifies env Faf) (omap (candidate_of m) ops)).
Proof.
  induction ops as [|op rest IH]; intros s Hrs Hops Hv.
  - exists s. split; [reflexivity|]. split; [assumption|].
    cbn. now rewrite app_nil_r.
  - inversion Hops as [|? ? (F & Hc & Hq) Hrest]; subst.
    cbn [candidates_loop] in Hv |- *.
    change (omap (candidate_of m) (op :: rest))
      with (match candidate_of m op with
            | Some y => y :: omap (candidate_of m) rest
            | None => omap (candidate_of m) rest
            end).
    rewrite Hc. cbn [List.filter].
    revert Hv. kunfold.
    rewrite (init_function_candidate m s op F Hrs Hc). kred.
    rewrite calls_loop_spec.
    destruct (qualifies env Faf F) eqn:Eq.
    + destruct Hrs as (Hid & (decls & Hf) & Hdone).
      assert (Hname : artifact_name (M s) F = artifact_name m F)
        by (unfold artifact_name; now rewrite Hid).
      destruct (Hq eq_refl) as (Hs & Hdl & Ho). rewrite <- Hname in Ho.
      destruct (writeMain env F s) as [[] s1|f sa] eqn:Ew.
      * destruct (writeMain_well_behaved env s F (conj Hs (conj Hdl Ho)))
          as (s1' & M1 & Hw & Hwr & _ & Hid1 & (decls1 & Hf1) & Hd1).
        { now rewrite Ew. }
        rewrite Ew in Hw. injection Hw as <-.
        kred. unfold get at 1 2. kred.
        rewrite Hd1, Hdone. intros Hv.
        destruct (IH s1) as (s' & Hl & Hrs' & Hnames); try assumption.
        { split; [congruence|]. split; [|congruence].
          exists (decls ++ decls1). rewrite Hf1, Hf. now rewrite app_assoc. }
        exists s'. split; [exact Hl|]. split; [assumption|].
        rewrite Hnames, Hwr, map_app. cbn [map fst].
        rewrite <- app_assoc, Hname. reflexivity.
      * kred. intros Hv.
        destruct (writeMain_well_behaved env s F (conj Hs (conj Hdl Ho)))
          as (s1' & M1 & Hw & _).
        { now rewrite Ew. }
        rewrite Ew in Hw. discriminate.
    + kred. unfold get at 1 2. kred.
      destruct Hrs as (Hid & Hf & Hdone). rewrite Hdone.
      intros Hv. now apply IH.
Qed.

(** C1, as the code has it.  The flag [done] is initialised to [false]
    and never set, so it never halts the iteration.  Take a module whose
    state variables are [i32] and a list of candidates of it such that
    every qualifying one has pointer and integer parameters only, a last
    block that is not empty and a file that can be opened.  A run that
    the verifier does not abort then returns [false] having written one
    artifact for every qualifying candidate of the list, in list order,
    with the flag still unset.  With the list [A; B], both qualifying, it
    writes A's artifact and then B's. *)
Theorem C1_every_qualifying_candidate_is_processed
  (env : Services) (m : Module) (Faf : Function) (ops : list value) :
  getFunction m "__assert_fail" = Some Faf ->
  callees (CG env) (fn_id Faf) <> [] ->
  getInitFuns env = Some ops ->
  Forall (fun op => exists F, candidate_of m op = Some F /\
                     (qualifies env Faf F = true -> well_behaved env m F))
         ops ->
  state_typed m ->
  failure_of (runOnModule env m) <> Some VerifierAbort ->
  exists s',
    runOnModule env m = Ok false s' /\
    done s' = false /\
    map fst (written s') =
      map (artifact_name m)
          (List.filter (qualifies env Faf) (omap (candidate_of m) ops)) /\
    forall A B,
      omap (candidate_of m) ops = [A; B] ->
      qualifies env Faf A = true -> qualifies env Faf B = true ->
      map fst (written s') = [artifact_name m A; artifact_name m B].
Proof.
  intros Hg Hc Hi Hops _ Hv.
  assert (Hrun : runOnModule env m =
                 match candidates_loop env Faf ops
                         (mkState m false [] [] [] 0) with
                 | Ok _ s' => Ok false s'
                 | Abort f s' => Abort f s'
                 end).
  { unfold runOnModule, run. kunfold. unfold get. kred. cbn [M].
    rewrite Hg, Hi.
    destruct (callees (CG env) (fn_id Faf)); [contradiction|].
    reflexivity. }
  destruct (candidates_loop_all env Faf m ops (mkState m false [] [] [] 0))
    as (s' & Hl & (_ & _ & Hdone) & Hn); try assumption.
  { split; [reflexivity|]. split; [exists []; now rewrite app_nil_r|].
    reflexivity. }
  { rewrite Hrun in Hv.
    destruct (candidates_loop env Faf ops (mkState m false [] [] [] 0));
      [discriminate|exact Hv]. }
  exists s'. split.
  - now rewrite Hrun, Hl.
  - split; [assumption|]. split; [exact Hn|].
    intros A B HAB HA HB. rewrite Hn, HAB. cbn [List.filter].
    now rewrite HA, HB.
Qed.

Lemma C1_witness :
  exists s',
    runOnModule Example.env0 Example.m0 = Ok false s' /\
    done s' = false /\
    map fst (written s') =
      map (artifact_name Example.m0)
          (List.filter (qualifies Example.env0 Example.assert_fail_fn)
             (omap (candidate_of Example.m0)
                   [Example.cand Example.fA; Example.cand Example.fB])) /\
    forall A B,
      omap (candidate_of Example.m0)
           [Example.cand Example.fA; Example.cand Example.fB] = [A; B] ->
      qualifies Example.env0 Example.assert_fail_fn A = true ->
      qualifies Example.env0 Example.assert_fail_fn B = true ->
      map fst (written s') =
        [artifact_name Example.m0 A; artifact_name Example.m0 B].
Proof.
  apply (C1_every_qualifying_candidate_is_processed Example.env0 Example.m0
           Example.assert_fail_fn
           [Example.cand Example.fA; Example.cand Example.fB]).
  - reflexivity.
  - discriminate.
  - reflexivity.
  - repeat constructor.
    + exists Example.fA. split; [reflexivity|]. intros _.
      split; [reflexivity|split; [discriminate|reflexivity]].
    + exists Example.fB. split; [reflexivity|]. intros _.
      split; [reflexivity|split; [discriminate|reflexivity]].
  - typed.
  - vm_compute. discriminate.
Defined.

(** With candidates [A; B], both calling [__assert_fail] directly, the
    run writes both artifacts, not A's alone, and [done] is still unset
    at the end. *)
Lemma C1_counterexample :
  getInitFuns Example.env0 = Some [Example.cand Example.fA;
                                   Example.cand Example.fB] /\
  qualifies Example.env0 Example.assert_fail_fn Example.fA = true /\
  qualifies Example.env0 Example.assert_fail_fn Example.fB = true /\
  map fst (written (state_of (runOnModule Example.env0 Example.m0)))
    = ["mod.main.A.o"; "mod.main.B.o"] /\
  map fst (written (state_of (runOnModule Example.env0 Example.m0)))
    <> ["mod.main.A.o"] /\
  done (state_of (runOnModule Example.env0 Example.m0)) = false.
Proof. vm_compute. repeat split; try reflexivity. discriminate. Qed.

(** C7, as the code has it.  A candidate qualifies exactly when one of
    the pairs in [calls] of the candidate itself has the failure-reporting
    function as callee (the calls of its callees are not looked at);
    [writeMain] is invoked for it, once, exactly then, and a candidate
    that does not qualify leaves the state as it is.  A qualifying
    candidate gets exactly one artifact, named
    [<module-id>.main.<name>.o], in a file created under that name, if
    moreover its parameters are all pointers or integers, its last block
    is not empty, the state variables are [i32], its output file can be
    opened and the verifier does not abort on its harness. *)
Theorem C7_direct_edge_qualifies
  (env : Services) (Faf F : Function) (s : KState) :
  (qualifies env Faf F = true <->
   exists site, In (site, fn_id Faf) (calls (CG env) (fn_id F))) /\
  calls_loop env Faf F (calls (CG env) (fn_id F)) s =
    (if qualifies env Faf F then writeMain env F s else Ok tt s) /\
  (qualifies env Faf F = false ->
   calls_loop env Faf F (calls (CG env) (fn_id F)) s = Ok tt s) /\
  (qualifies env Faf F = true ->
   all_supported F = true ->
   debugLoc_of F <> None ->
   state_typed (M s) ->
   can_open env (artifact_name (M s) F) = true ->
   failure_of (writeMain env F s) <> Some VerifierAbort ->
   exists s' M',
     calls_loop env Faf F (calls (CG env) (fn_id F)) s = Ok tt s' /\
     written s' =
       written s ++
       [((moduleIdentifier (M s) ++ ".main." ++ fn_name F ++ ".o")%string,
         M')] /\
     opened s' =
       opened s ++
       [(moduleIdentifier (M s) ++ ".main." ++ fn_name F ++ ".o")%string]).
Proof.
  split; [|split; [|split]].
  - unfold qualifies. rewrite existsb_exists. split.
    + intros ([site c] & Hin & Hc). apply Nat.eqb_eq in Hc. cbn in Hc.
      subst c. now exists site.
    + intros (site & Hin). exists (site, fn_id Faf).
      split; [assumption|]. apply Nat.eqb_refl.
  - apply calls_loop_spec.
  - intros Hq. now rewrite calls_loop_spec, Hq.
  - intros Hq Hs Hdl _ Ho Hv. rewrite calls_loop_spec, Hq.
    destruct (writeMain_well_behaved env s F (conj Hs (conj Hdl Ho)) Hv)
      as (s' & M' & Hw & Hwr & Hop & _).
    now exists s', M'.
Qed.

Lemma C7_witness :
  (qualifies Example.env0 Example.assert_fail_fn Example.fA = true /\
   all_supported Example.fA = true /\
   debugLoc_of Example.fA <> None /\
   state_typed (M Example.s0) /\
   can_open Example.env0 (artifact_name (M Example.s0) Example.fA) = true /\
   failure_of (writeMain Example.env0 Example.fA Example.s0)
     <> Some VerifierAbort) /\
  (exists s' M',
     calls_loop Example.env0 Example.assert_fail_fn Example.fA
                (calls (CG Example.env0) (fn_id Example.fA)) Example.s0
       = Ok tt s' /\
     written s' = written Example.s0 ++ [("mod.main.A.o", M')] /\
     opened s' = opened Example.s0 ++ ["mod.main.A.o"]) /\
  qualifies Example.env0 Example.assert_fail_fn Example.idle = false /\
  calls_loop Example.env0 Example.assert_fail_fn Example.idle
             (calls (CG Example.env0) (fn_id Example.idle)) Example.s0
    = Ok tt Example.s0.
Proof.
  assert (Hq : qualifies Example.env0 Example.assert_fail_fn Example.fA
               = true) by reflexivity.
  assert (Hs : all_supported Example.fA = true) by reflexivity.
  assert (Hdl : debugLoc_of Example.fA <> None) by discriminate.
  assert (Hst : state_typed (M Example.s0)) by typed.
  assert (Ho : can_open Example.env0
                 (artifact_name (M Example.s0) Example.fA) = true)
    by reflexivity.
  assert (Hv : failure_of (writeMain Example.env0 Example.fA Example.s0)
               <> Some VerifierAbort) by (vm_compute; discriminate).
  assert (Hi : qualifies Example.env0 Example.assert_fail_fn Example.idle
               = false) by reflexivity.
  split; [repeat split; assumption|].
  split; [|split; [exact Hi|]].
  - exact (proj2 (proj2 (proj2
             (C7_direct_edge_qualifies Example.env0 Example.assert_fail_fn
                Example.fA Example.s0))) Hq Hs Hdl Hst Ho Hv).
  - exact (proj1 (proj2 (proj2
             (C7_direct_edge_qualifies Example.env0 Example.assert_fail_fn
                Example.idle Example.s0))) Hi).
Defined.

(** A qualifying candidate whose output file cannot be opened gets no
    artifact: with no file openable, the run over the qualifying
    candidates [A] and [B] ends normally having written nothing. *)
Lemma C7_counterexample :
  qualifies Example.env_readonly Example.assert_fail_fn Example.fA = true /\
  failure_of (runOnModule Example.env_readonly Example.m0) = None /\
  written (state_of (runOnModule Example.env_readonly Example.m0)) = [] /\
  errs (state_of (runOnModule Example.env_readonly Example.m0)) =
    [DiagCannotWrite "mod.main.A.o"; DiagCannotWrite "mod.main.B.o"].
Proof. vm_compute. repeat split; reflexivity. Qed.

(* ===================================================================== *)
(** ** What a harness does when it runs *)
(* ===================================================================== *)

Lemma exec_insts_app_gen TD' kid af_id choice external l1 l2 m :
  exec_insts TD' kid af_id choice external (l1 ++ l2) m =
  match exec_insts TD' kid af_id choice external l1 m with
  | Next m' => exec_insts TD' kid af_id choice external l2 m'
  | r => r
  end.
Proof.
  revert m. induction l1 as [|i l1 IH]; intros m; [reflexivity|].
  cbn [app exec_insts].
  destruct (exec_inst TD' kid af_id choice external i m); auto.
Qed.

Section Frame.

Variable TD' : TargetData.
Variable kid af_id : nat.
Variable choice : nat -> Z.
Variable external : nat -> list mval -> (loc -> Z) -> option (loc -> Z).

(** One step changes no register but the executed instruction's own, and
    only adds to the allocations and the markings. *)
Lemma exec_inst_frame i m m' :
  exec_inst TD' kid af_id choice external i m = Next m' ->
  (forall r, r <> inst_id i -> regs m' r = regs m r) /\
  (exists h, heap m' = heap m ++ h) /\
  (exists sy, symbolic m' = symbolic m ++ sy).
Proof.
  assert (Hset : forall v mm,
    (forall r, r <> inst_id i -> regs (set_reg (inst_id i) v mm) r = regs mm r)
    /\ (exists h, heap (set_reg (inst_id i) v mm) = heap mm ++ h)
    /\ (exists sy, symbolic (set_reg (inst_id i) v mm) = symbolic mm ++ sy)).
  { intros v mm. split; [|split].
    - intros r Hr. cbn. apply Nat.eqb_neq in Hr. now rewrite Hr.
    - exists []. cbn. now rewrite app_nil_r.
    - exists []. cbn. now rewrite app_nil_r. }
  assert (Hid : forall mm,
    (forall r, r <> inst_id i -> regs mm r = regs mm r)
    /\ (exists h, heap mm = heap mm ++ h)
    /\ (exists sy, symbolic mm = symbolic mm ++ sy)).
  { intros mm. split; [auto|]. split; exists []; now rewrite app_nil_r. }
  unfold exec_inst. destruct (inst_kind i); try discriminate.
  - intros [= <-]. split; [|split].
    + intros r Hr. cbn. apply Nat.eqb_neq in Hr. now rewrite Hr.
    + eexists. reflexivity.
    + exists []. cbn. now rewrite app_nil_r.
  - intros [= <-]. apply Hset.
  - intros [= <-]. apply Hset.
  - intros [= <-]. apply Hset.
  - unfold exec_call. destruct (callee_id callee) as [f|]; [|discriminate].
    destruct (Nat.eqb f af_id); [discriminate|].
    destruct (Nat.eqb f kid).
    + intros [= <-]. unfold mark_symbolic.
      destruct (map (eval TD' m) args) as [|a [|b [|c [|d l]]]];
        try apply Hid.
      destruct a; cbn; (split; [auto|]);
        (split; [exists []; now rewrite app_nil_r|]); eexists; reflexivity.
    + destruct (external f (map (eval TD' m) args) (mem m));
        [|discriminate].
      intros [= <-]. cbn. split; [auto|].
      split; exists []; now rewrite app_nil_r.
  - destruct (eval TD' m ptr); try (intros [= <-]; apply Hid).
    destruct (eval TD' m v); intros [= <-]; try apply Hid.
    cbn. split; [auto|]. split; exists []; now rewrite app_nil_r.
  - destruct (eval TD' m ptr); intros [= <-]; apply Hset.
  - intros [= <-]. apply Hset.
  - destruct (eval TD' m ptr); try (intros [= <-]; apply Hset).
    destruct (eval TD' m idx); intros [= <-]; apply Hset.
  - destruct (eval TD' m a); try (intros [= <-]; apply Hset).
    destruct (eval TD' m b); intros [= <-]; apply Hset.
  - destruct (eval TD' m cond); discriminate.
Qed.

Lemma exec_insts_frame : forall l m m',
  exec_insts TD' kid af_id choice external l m = Next m' ->
  (forall r, Forall (fun i => inst_id i <> r) l -> regs m' r = regs m r) /\
  (exists h, heap m' = heap m ++ h) /\
  (exists sy, symbolic m' = symbolic m ++ sy).
Proof.
  induction l as [|i l IH]; intros m m' H.
  - injection H as <-. split; [auto|].
    split; exists []; now rewrite app_nil_r.
  - cbn [exec_insts] in H.
    destruct (exec_inst TD' kid af_id choice external i m) as [m1| |] eqn:E;
      try discriminate.
    destruct (exec_inst_frame i m m1 E) as (Hr1 & (h1 & Hh1) & (y1 & Hy1)).
    destruct (IH m1 m' H) as (Hr & (h & Hh) & (y & Hy)).
    split; [|split].
    + intros r Hall. inversion Hall as [|? ? Hi Hl]; subst.
      rewrite Hr by assumption. apply Hr1. congruence.
    + exists (h1 ++ h). now rewrite Hh, Hh1, app_assoc.
    + exists (y1 ++ y). now rewrite Hy, Hy1, app_assoc.
Qed.

End Frame.

Section RunningFacts.

Variable env : Services.
Variable s0 : KState.
(** the identity of the failure-reporting function, the engine's
    choices and the effect of other calls *)
Variable af_id : nat.
Variable choice : nat -> Z.
Variable external : nat -> list mval -> (loc -> Z) -> option (loc -> Z).

#[local] Abbreviation klee_id := (klee_id env s0).
#[local] Abbreviation plain := (plain env s0).

Hypothesis af_not_klee : af_id <> klee_id.

#[local] Abbreviation exec_inst' :=
  (exec_inst (TD env) klee_id af_id choice external).
#[local] Abbreviation exec_insts' :=
  (exec_insts (TD env) klee_id af_id choice external).

Lemma exec_insts_app l1 l2 m :
  exec_insts' (l1 ++ l2) m =
  match exec_insts' l1 m with
  | Next m' => exec_insts' l2 m'
  | r => r
  end.
Proof.
  revert m. induction l1 as [|i l1 IH]; intros m; [reflexivity|].
  cbn [app exec_insts]. destruct (exec_inst' i m); auto.
Qed.

Lemma plain_next i m : plain i -> exists m', exec_inst' i m = Next m'.
Proof.
  unfold plain, exec_inst. destruct (inst_kind i); intros H;
    try contradiction; try (eexists; reflexivity).
  - unfold exec_call. rewrite H.
    replace (klee_id =? af_id)%nat with false
      by (symmetry; apply Nat.eqb_neq; congruence).
    rewrite Nat.eqb_refl. eexists; reflexivity.
  - destruct (eval (TD env) m ptr); try (eexists; reflexivity).
    destruct (eval (TD env) m v); eexists; reflexivity.
  - destruct (eval (TD env) m ptr); eexists; reflexivity.
  - destruct (eval (TD env) m ptr); try (eexists; reflexivity).
    destruct (eval (TD env) m idx); eexists; reflexivity.
  - destruct (eval (TD env) m a); try (eexists; reflexivity).
    destruct (eval (TD env) m b); eexists; reflexivity.
Qed.

Lemma plain_list_next l : forall m,
  Forall plain l -> exists m', exec_insts' l m = Next m'.
Proof.
  induction l as [|i l IH]; intros m H; [now exists m|].
  inversion H as [|? ? Hi Hl]; subst. cbn [exec_insts].
  destruct (plain_next i m Hi) as (m1 & ->). now apply IH.
Qed.

Lemma klee_pre_plain n ty addr arr : Forall plain (klee_pre env n ty addr arr).
Proof.
  unfold klee_pre, klee_cast, klee_mul.
  destruct (negb (Ty_eqb (type_of addr) voidPtrType)), arr;
    repeat constructor.
Qed.

Lemma param_code_plain n glen param :
  Forall plain (pc_front (param_code env s0 n glen param)) /\
  Forall plain (pc_back (param_code env s0 n glen param)).
Proof.
  unfold param_code.
  destruct (arg_type param) as [| | | |bits|elem|r ps va|nm body|k e|k e];
    try (split; constructor).
  - unfold integer_code. cbn [pc_front pc_back]. split.
    + repeat constructor.
    + apply Forall_app. split; [apply klee_pre_plain|]. repeat constructor.
  - unfold pointer_code.
    destruct (negb (Ty_eqb (PointerTy elem) voidPtrType));
      cbn [pc_front pc_back]; (split; [constructor|]);
      (constructor; [constructor|]);
      (apply Forall_app; split; [apply klee_pre_plain|]);
      repeat constructor.
Qed.

Lemma params_code_plain : forall args n glen,
  Forall plain (ps_front (params_code env s0 n glen args)) /\
  Forall plain (ps_back (params_code env s0 n glen args)).
Proof.
  induction args as [|param rest IH]; intros n glen.
  - split; constructor.
  - cbn [params_code ps_front ps_back].
    destruct (param_code_plain n glen param) as [Hf Hb].
    destruct (IH (pc_next (param_code env s0 n glen param)) (S glen))
      as [Hf' Hb'].
    split; apply Forall_app; now split.
Qed.

(** *** State variables at harness entry *)

Lemma eval_zero m : eval (TD env) m zero = MInt 0.
Proof. reflexivity. Qed.

Lemma eval_global_addr m idx g :
  eval (TD env) m (global_addr idx g) = MPtr (LGlobal idx) 0.
Proof. reflexivity. Qed.

Lemma loc_eqb_refl l : loc_eqb l l = true.
Proof. destruct l; apply Nat.eqb_refl. Qed.

(** The code for one state variable leaves it zero and touches no other
    object. *)
Lemma ai_insts_exec n glen idx g m :
  exists m',
    exec_insts' (ai_insts env s0 n glen idx g) m = Next m' /\
    forall l, mem m' l = if loc_eqb l (LGlobal idx) then 0 else mem m l.
Proof.
  unfold ai_insts, klee_pre, klee_call, klee_next, klee_cast, klee_addr,
    klee_n1.
  cbn [klee_mul klee_size klee_n2]. rewrite app_nil_r.
  destruct (negb (Ty_eqb (type_of (global_addr idx g)) voidPtrType)).
  - cbn [app exec_insts]. unfold exec_inst at 1. cbn [inst_kind inst_id].
    unfold exec_inst at 1. cbn [inst_kind inst_id]. unfold exec_call.
    change (callee_id (fn_value (klee_fn env s0))) with (Some klee_id).
    cbv beta iota zeta.
    replace (klee_id =? af_id)%nat with false
      by (symmetry; apply Nat.eqb_neq; congruence).
    rewrite Nat.eqb_refl.
    cbn [map eval set_reg regs]. rewrite Nat.eqb_refl.
    rewrite eval_global_addr. cbn [mark_symbolic].
    unfold exec_inst. cbn [inst_kind inst_id].
    rewrite eval_global_addr, eval_zero.
    eexists. split; [reflexivity|].
    intros l. cbn [set_mem mem]. now destruct (loc_eqb l (LGlobal idx)).
  - cbn [app exec_insts]. unfold exec_inst at 1. cbn [inst_kind inst_id].
    unfold exec_call.
    change (callee_id (fn_value (klee_fn env s0))) with (Some klee_id).
    cbv beta iota zeta.
    replace (klee_id =? af_id)%nat with false
      by (symmetry; apply Nat.eqb_neq; congruence).
    rewrite Nat.eqb_refl.
    cbn [map]. rewrite eval_global_addr. cbn [mark_symbolic].
    unfold exec_inst. cbn [inst_kind inst_id].
    rewrite eval_global_addr, eval_zero.
    eexists. split; [reflexivity|].
    intros l. cbn [set_mem mem]. now destruct (loc_eqb l (LGlobal idx)).
Qed.

(** It marks the variable symbolic: the region starts at the variable,
    has the size of an [i32] and carries the string constant at position
    [glen] as its tag. *)
Lemma ai_insts_marking n glen idx g m :
  exists m',
    exec_insts' (ai_insts env s0 n glen idx g) m = Next m' /\
    symbolic m' =
      symbolic m ++
      [mkMarking (MPtr (LGlobal idx) 0)
                 (MInt (to_unsigned (getTypeAllocSize (TD env) intType)))
                 (MPtr (LGlobal glen) 0)].
Proof.
  assert (Hsz : forall mm,
    eval (TD env) mm (ConstantInt_get uintType (getTypeSize env intType)) =
    MInt (to_unsigned (getTypeAllocSize (TD env) intType))).
  { intros mm.
    change (eval (TD env) mm
              (ConstantInt_get uintType (getTypeSize env intType)))
      with (MInt (to_unsigned (getTypeSize env intType))).
    change (getTypeSize env intType)
      with (to_unsigned (getTypeAllocSize (TD env) intType)).
    unfold to_unsigned. now rewrite Z.mod_mod by lia. }
  unfold ai_insts, klee_pre, klee_call, klee_next, klee_cast, klee_addr,
    klee_n1.
  cbn [klee_mul klee_size klee_n2]. rewrite app_nil_r.
  destruct (negb (Ty_eqb (type_of (global_addr idx g)) voidPtrType)).
  - cbn [app exec_insts]. unfold exec_inst at 1. cbn [inst_kind inst_id].
    unfold exec_inst at 1. cbn [inst_kind inst_id]. unfold exec_call.
    change (callee_id (fn_value (klee_fn env s0))) with (Some klee_id).
    cbv beta iota zeta.
    replace (klee_id =? af_id)%nat with false
      by (symmetry; apply Nat.eqb_neq; congruence).
    rewrite Nat.eqb_refl.
    cbn [map]. rewrite Hsz.
    change (eval (TD env) (set_reg n (eval (TD env) m (global_addr idx g)) m)
                 (VInst n voidPtrType))
      with (regs (set_reg n (eval (TD env) m (global_addr idx g)) m) n).
    cbn [set_reg regs]. rewrite Nat.eqb_refl.
    rewrite eval_global_addr. cbn [mark_symbolic].
    unfold exec_inst. cbn [inst_kind inst_id].
    rewrite eval_global_addr, eval_zero.
    eexists. split; [reflexivity|]. reflexivity.
  - cbn [app exec_insts]. unfold exec_inst at 1. cbn [inst_kind inst_id].
    unfold exec_call.
    change (callee_id (fn_value (klee_fn env s0))) with (Some klee_id).
    cbv beta iota zeta.
    replace (klee_id =? af_id)%nat with false
      by (symmetry; apply Nat.eqb_neq; congruence).
    rewrite Nat.eqb_refl.
    cbn [map]. rewrite Hsz, eval_global_addr. cbn [mark_symbolic].
    unfold exec_inst. cbn [inst_kind inst_id].
    rewrite eval_global_addr, eval_zero.
    eexists. split; [reflexivity|]. reflexivity.
Qed.

Lemma ai_code_exec : forall gs n glen m,
  exists m',
    exec_insts' (fst (ai_code env s0 n glen gs)) m = Next m' /\
    forall l, mem m' l = if is_state_loc gs l then 0 else mem m l.
Proof.
  induction gs as [|[idx g] gs IH]; intros n glen m.
  - exists m. split; reflexivity.
  - cbn [ai_code is_state_loc existsb fst snd].
    destruct (isAiState g); cbn [andb orb].
    + cbn [fst]. rewrite exec_insts_app.
      destruct (ai_insts_exec n glen idx g m) as (m1 & -> & Hm1).
      destruct (IH (ai_next n idx g) (S glen) m1) as (m' & -> & Hm').
      exists m'. split; [reflexivity|].
      intros l. rewrite Hm', Hm1. fold (is_state_loc gs l).
      destruct (loc_eqb l (LGlobal idx)); cbn [orb];
        now destruct (is_state_loc gs l).
    + apply IH.
Qed.

End RunningFacts.

Lemma lookup_map_Some {A B} (f : A -> B) (l : list A) i y :
  map f l !! i = Some y -> exists x, l !! i = Some x /\ y = f x.
Proof.
  revert i. induction l as [|a l IH]; intros [|i] H; try discriminate.
  - injection H as <-. now exists a.
  - now apply IH.
Qed.

Lemma lookup_map {A B} (f : A -> B) (l : list A) i x :
  l !! i = Some x -> map f l !! i = Some (f x).
Proof.
  revert i. induction l as [|a l IH]; intros [|i] H; try discriminate.
  - now injection H as ->.
  - now apply IH.
Qed.

Lemma lookup_In {A} (l : list A) i x : l !! i = Some x -> In x l.
Proof.
  revert i. induction l as [|a l IH]; intros [|i] H; try discriminate.
  - injection H as ->. now left.
  - right. now apply (IH i).
Qed.

Lemma indexed_In k (l : list GlobalVariable) i g :
  l !! i = Some g -> In ((k + i)%nat, g) (indexed k l).
Proof.
  revert k i. induction l as [|a l IH]; intros k [|i] H; try discriminate.
  - injection H as ->. rewrite indexed_cons, Nat.add_0_r. now left.
  - rewrite indexed_cons. right.
    replace (k + S i)%nat with (S k + i)%nat by lia. now apply IH.
Qed.

(** A state variable of the finished harness is one of the globals the
    traversal of [makeAiStateSymbolic] met, at the same position. *)
Lemma h_globals_state_origin s F idx g :
  h_globals s F !! idx = Some g -> isAiState g = true ->
  exists g1, h_globals1 s F !! idx = Some g1 /\ isAiState g1 = true /\
             gv_valueType g1 = gv_valueType g.
Proof.
  unfold h_globals, h_globals3. intros Hl Hg.
  apply lookup_app_Some in Hl as [Hl|[_ Hl]].
  - apply lookup_map_Some in Hl as (g2 & Hl & ->).
    rewrite isAiState_nulled in Hg.
    apply lookup_app_Some in Hl as [Hl|[_ Hl]].
    + apply lookup_map_Some in Hl as (g1 & Hl & ->).
      rewrite isAiState_zeroed in Hg. exists g1.
      split; [assumption|]. split; [assumption|].
      rewrite (nulled_zeroed_state _ Hg). reflexivity.
    + unfold ai_strings in Hl. apply lookup_map_Some in Hl as (g1 & _ & ->).
      discriminate.
  - apply lookup_In in Hl. cbn in Hl.
    destruct Hl as [<-|[<-|[<-|[]]]]; discriminate.
Qed.

Lemma is_state_loc_In gs idx g :
  In (idx, g) gs -> isAiState g = true ->
  is_state_loc gs (LGlobal idx) = true.
Proof.
  intros Hin Hg. unfold is_state_loc. apply existsb_exists.
  exists (idx, g). split; [assumption|]. cbn [fst snd].
  now rewrite Hg, loc_eqb_refl.
Qed.

(** The code emitted for a state variable met by the traversal: its
    string constant is the [j]-th appended, if it is the [j]-th state
    variable met. *)
Lemma ai_code_contains env s0 idx g : forall gs n glen,
  In (idx, g) gs -> isAiState g = true ->
  exists l1 l3 n' j,
    fst (ai_code env s0 n glen gs) =
    l1 ++ ai_insts env s0 n' (glen + j) idx g ++ l3 /\
    List.filter isAiState (map snd gs) !! j = Some g.
Proof.
  induction gs as [|[idx' g'] gs IH]; intros n glen Hin Hg; [contradiction|].
  cbn [ai_code map snd List.filter]. destruct Hin as [[= -> ->]|Hin].
  - rewrite Hg. cbn [fst]. exists [], (fst (ai_code env s0 (ai_next n idx g)
                                                  (S glen) gs)), n, 0%nat.
    rewrite Nat.add_0_r. split; reflexivity.
  - destruct (isAiState g').
    + destruct (IH (ai_next n idx' g') (S glen) Hin Hg)
        as (l1 & l3 & n' & j & -> & Hj).
      cbn [fst].
      exists (ai_insts env s0 n glen idx' g' ++ l1), l3, n', (S j).
      rewrite <- app_assoc. split; [|exact Hj].
      now replace (glen + S j)%nat with (S glen + j)%nat by lia.
    + now apply IH.
Qed.

Lemma map_snd_indexed (l : list GlobalVariable) : forall k,
  map snd (indexed k l) = l.
Proof.
  induction l as [|g l IH]; intros k; [reflexivity|].
  rewrite indexed_cons. cbn [map snd]. now rewrite IH.
Qed.

(** A state variable of the finished harness is the one met by the
    traversal with its initializer replaced. *)
Lemma h_globals_state_name s F idx g g1 :
  h_globals s F !! idx = Some g -> h_globals1 s F !! idx = Some g1 ->
  gv_name g = gv_name g1.
Proof.
  unfold h_globals, h_globals3. intros Hl Hl1.
  pose proof (lookup_lt_Some _ _ _ Hl1) as Hlt.
  rewrite lookup_app_l in Hl by (rewrite !length_map, length_app, length_map; lia).
  apply lookup_map_Some in Hl as (g2 & Hl & ->).
  rewrite lookup_app_l in Hl by (rewrite length_map; lia).
  apply lookup_map_Some in Hl as (g3 & Hl & ->).
  assert (g3 = g1) by congruence. subst g3.
  unfold nulled, zeroed.
  destruct (isAiState g1); destruct (hasInitializer _); reflexivity.
Qed.

(** The string constant of the [j]-th state variable. *)
Lemma h_globals_ai_string s F j g1 :
  List.filter isAiState (h_globals1 s F) !! j = Some g1 ->
  h_globals s F !! (length (h_globals1 s F) + j)%nat
  = Some (str_global (gv_name g1)).
Proof.
  intros Hj. unfold h_globals, h_globals3.
  apply lookup_app_l_Some.
  change (str_global (gv_name g1)) with (nulled (str_global (gv_name g1))).
  apply (lookup_map nulled).
  rewrite lookup_app_r by (rewrite length_map; lia).
  rewrite length_map.
  replace (length (h_globals1 s F) + j - length (h_globals1 s F))%nat
    with j by lia.
  unfold ai_strings.
  now apply (lookup_map (fun g => str_global (gv_name g))).
Qed.

(** C3.  In every artifact [writeMain] writes — the module with the entry
    function whose entry block is [pre], the call of the candidate, then
    [post] — each global variable [g] whose name starts with
    [__ai_state_] has the initializer integer zero, whatever it was in
    the module before.  [pre] contains a call of the symbolic-marking
    primitive directly followed by a volatile store of the constant zero
    to [g]; the arguments of the call are the address of [g] (cast to
    [i8*] by the instruction just before, unless it has that type), the
    size [getTypeSize] gives for [i32], and a pointer to a string
    constant of the module that holds the name of [g].  Running [pre]
    from any machine state, with any choice of symbolic contents, reaches
    the call of the candidate with the region that starts at [g] and has
    the size of an [i32] marked symbolic under that name, and with [g]
    holding zero. *)
Theorem C3_state_variables_are_zero_at_entry
  (env : Services) (s : KState) (F : Function) (s' : KState)
  (name : string) (M' : Module) :
  writeMain env F s = Ok tt s' ->
  written s' = written s ++ [(name, M')] ->
  exists mainF pre call post blocks args,
    In mainF (functions M') /\
    fn_blocks mainF = mkBB "entry" (pre ++ call :: post) :: blocks /\
    inst_kind call = Call (fn_value F) args /\
    forall idx g,
      globals M' !! idx = Some g -> isAiState g = true ->
      gv_initializer g = Some (ConstantInt intType 0) /\
      exists k,
        globals M' !! k = Some (str_global (gv_name g)) /\
        (exists l1 l3 mark store addr,
           pre = l1 ++ mark :: store :: l3 /\
           inst_kind mark =
             Call (fn_value (klee_fn env s))
                  [addr;
                   ConstantInt_get uintType (getTypeSize env intType);
                   str_ptr k (gv_name g)] /\
           (addr = VGlobal idx (PointerTy (gv_valueType g)) \/
            exists l0 c,
              l1 = l0 ++ [c] /\
              inst_kind c =
                BitCast (VGlobal idx (PointerTy (gv_valueType g)))
                        voidPtrType /\
              addr = val c) /\
           inst_kind store =
             Store (ConstantInt intType 0)
                   (VGlobal idx (PointerTy (gv_valueType g))) true) /\
        forall af_id choice external m,
          af_id <> klee_id env s ->
          exists m',
            exec_insts (TD env) (klee_id env s) af_id choice external pre m
              = Next m' /\
            In (mkMarking (MPtr (LGlobal idx) 0)
                  (MInt (to_unsigned (getTypeAllocSize (TD env) intType)))
                  (MPtr (LGlobal k) 0))
               (symbolic m') /\
            mem m' (LGlobal idx) = 0.
Proof.
  intros Hw Hwr.
  destruct (writeMain_artifact env F s s' name M' Hw Hwr)
    as (af & dl & decls & ds & Hd & _ & _ & _ & _ & -> & _).
  eexists (main_fn env s (h_blocks env s F af dl)), (h_prefix env s F),
    (h_call env s F), (h_tail env s F), _, _.
  split; [cbn [built st M functions]; apply in_or_app; right; now left|].
  split; [reflexivity|]. split; [reflexivity|].
  intros idx g Hl Hg. cbn [built st M globals] in Hl |- *.
  destruct (h_globals_state_origin s F idx g Hl Hg) as (g1 & Hl1 & Hg1 & Hty).
  pose proof (h_globals_state_name s F idx g g1 Hl Hl1) as Hnm.
  pose proof (indexed_In 0 _ _ _ Hl1) as Hin. cbn [Nat.add] in Hin.
  split.
  { apply (h_globals_state_zero s F); [|assumption]. eapply lookup_In, Hl. }
  destruct (ai_code_contains env s idx g1 _ (ps_next (h_params env s F))
              (length (h_globals1 s F)) Hin Hg1)
    as (l1 & l3 & n' & j & Hc & Hj).
  rewrite map_snd_indexed in Hj. fold (h_ai env s F) in Hc.
  exists (length (h_globals1 s F) + j)%nat.
  rewrite Hnm. split; [now apply h_globals_ai_string|]. split.
  - unfold h_prefix. rewrite Hc. unfold ai_insts.
    eexists (ps_front (h_params env s F) ++ ps_back (h_params env s F) ++
             l1 ++ klee_pre env n' intType (global_addr idx g1) None),
      l3, _, _, _.
    split; [norm_app; reflexivity|]. split; [reflexivity|].
    split.
    + unfold klee_addr, klee_pre, klee_cast. cbn [klee_mul].
      rewrite app_nil_r.
      destruct (negb (Ty_eqb (type_of (global_addr idx g1)) voidPtrType)).
      * right.
        eexists (ps_front (h_params env s F) ++
                 ps_back (h_params env s F) ++ l1), _.
        split; [norm_app; reflexivity|].
        cbn [inst_kind]. unfold global_addr. rewrite Hty.
        split; reflexivity.
      * left. unfold global_addr. now rewrite Hty.
    + cbn [inst_kind]. unfold global_addr. now rewrite Hty.
  - intros af_id choice external m Haf.
    unfold h_prefix. rewrite app_assoc, exec_insts_app_gen.
    destruct (params_code_plain env s (fn_args F) (fresh s)
                (length (globals (M s)))) as [Hf Hb].
    destruct (plain_list_next env s af_id choice external Haf
                (ps_front (h_params env s F) ++ ps_back (h_params env s F)) m)
      as (m1 & ->); [apply Forall_app; now split|].
    destruct (ai_code_exec env s af_id choice external Haf
                (indexed 0 (h_globals1 s F)) (ps_next (h_params env s F))
                (length (h_globals1 s F)) m1) as (m' & Hm' & Hmem).
    exists m'. split; [exact Hm'|].
    split; [|now rewrite Hmem, (is_state_loc_In _ _ _ Hin Hg1)].
    fold (h_ai env s F) in Hm'. rewrite Hc in Hm'.
    rewrite exec_insts_app_gen in Hm'.
    destruct (exec_insts (TD env) (klee_id env s) af_id choice external l1 m1)
      as [m2| |]; try discriminate.
    rewrite exec_insts_app_gen in Hm'.
    destruct (ai_insts_marking env s af_id choice external Haf n'
                (length (h_globals1 s F) + j) idx g1 m2) as (m3 & He3 & Hs3).
    rewrite He3 in Hm'.
    destruct (exec_insts_frame _ _ _ _ _ l3 m3 m' Hm')
      as (_ & _ & (sy & Hsy)).
    rewrite Hsy, Hs3. apply in_or_app. left. apply in_or_app. right.
    now left.
Qed.

Lemma C3_witness :
  let s1 := state_of (writeMain Example.env0 Example.fA Example.s0) in
  exists M',
  (writeMain Example.env0 Example.fA Example.s0 = Ok tt s1 /\
   written s1 = written Example.s0 ++ [("mod.main.A.o", M')]) /\
  exists mainF pre call post blocks args,
    In mainF (functions M') /\
    fn_blocks mainF = mkBB "entry" (pre ++ call :: post) :: blocks /\
    inst_kind call = Call (fn_value Example.fA) args /\
    forall idx g,
      globals M' !! idx = Some g -> isAiState g = true ->
      gv_initializer g = Some (ConstantInt intType 0) /\
      exists k,
        globals M' !! k = Some (str_global (gv_name g)) /\
        (exists l1 l3 mark store addr,
           pre = l1 ++ mark :: store :: l3 /\
           inst_kind mark =
             Call (fn_value (klee_fn Example.env0 Example.s0))
                  [addr;
                   ConstantInt_get uintType
                     (getTypeSize Example.env0 intType);
                   str_ptr k (gv_name g)] /\
           (addr = VGlobal idx (PointerTy (gv_valueType g)) \/
            exists l0 c,
              l1 = l0 ++ [c] /\
              inst_kind c =
                BitCast (VGlobal idx (PointerTy (gv_valueType g)))
                        voidPtrType /\
              addr = val c) /\
           inst_kind store =
             Store (ConstantInt intType 0)
                   (VGlobal idx (PointerTy (gv_valueType g))) true) /\
        forall af_id choice external m,
          af_id <> klee_id Example.env0 Example.s0 ->
          exists m',
            exec_insts (TD Example.env0) (klee_id Example.env0 Example.s0)
                       af_id choice external pre m = Next m' /\
            In (mkMarking (MPtr (LGlobal idx) 0)
                  (MInt (to_unsigned
                           (getTypeAllocSize (TD Example.env0) intType)))
                  (MPtr (LGlobal k) 0))
               (symbolic m') /\
            mem m' (LGlobal idx) = 0.
Proof.
  intros s1.
  assert (H1 : writeMain Example.env0 Example.fA Example.s0 = Ok tt s1)
    by (vm_compute; reflexivity).
  eexists.
  assert (H2 : written s1 = written Example.s0 ++ [("mod.main.A.o", _)])
    by (vm_compute; reflexivity).
  split; [split; [exact H1|exact H2]|].
  exact (C3_state_variables_are_zero_at_entry Example.env0 Example.s0
           Example.fA s1 "mod.main.A.o" _ H1 H2).
Defined.

(** *** The check after the call *)

Section Checking.

Variable TD' : TargetData.
Variable kid af_id : nat.
Variable choice : nat -> Z.
Variable external : nat -> list mval -> (loc -> Z) -> option (loc -> Z).

#[local] Abbreviation exec_insts'' := (exec_insts TD' kid af_id choice external).

Lemma eval_older n v m m' :
  older n v -> (forall r, (r < n)%nat -> regs m' r = regs m r) ->
  eval TD' m' v = eval TD' m v.
Proof. destruct v; cbn; try contradiction; auto. Qed.

Lemma sum_code_exec : forall gs n sum m acc,
  eval TD' m sum = MInt acc -> older n sum ->
  exists m',
    exec_insts'' (fst (sum_code n gs sum)) m = Next m' /\
    (forall l, mem m' l = mem m l) /\
    eval TD' m' (fst (snd (sum_code n gs sum))) =
      MInt (state_sum (mem m) gs acc) /\
    (forall r, (r < n)%nat -> regs m' r = regs m r).
Proof.
  induction gs as [|[idx g] gs IH]; intros n sum m acc Hsum Hold.
  - exists m. cbn. repeat split; auto.
  - cbn [sum_code state_sum]. destruct (isAiState g); [|now apply IH].
    cbn [fst snd exec_insts]. unfold exec_inst at 1.
    cbn [inst_kind inst_id eval global_addr].
    unfold exec_inst at 1. cbn [inst_kind inst_id].
    set (m1 := set_reg n (MInt (mem m (LGlobal idx))) m).
    set (ld := mkInst n (Load (global_addr idx g) true) None).
    assert (Hm1 : forall r, (r < n)%nat -> regs m1 r = regs m r).
    { intros r Hr. cbn. replace (r =? n)%nat with false; [reflexivity|].
      symmetry. apply Nat.eqb_neq. lia. }
    assert (Hadd : arith TD' Z.add m1 (val ld) sum
                   = MInt ((mem m (LGlobal idx) + acc)
                           mod 2 ^ int_bits (gv_valueType g))).
    { unfold arith. rewrite (eval_older n sum m m1 Hold Hm1), Hsum.
      cbn. now rewrite Nat.eqb_refl. }
    rewrite Hadd.
    set (m2 := set_reg (S n) _ m1).
    destruct (IH (S (S n)) (val (mkInst (S n) (Add (val ld) sum) None))
                m2 ((mem m (LGlobal idx) + acc)
                    mod 2 ^ int_bits (gv_valueType g)))
      as (m' & He & Hmem & Hev & Hregs).
    { cbn. now rewrite Nat.eqb_refl. }
    { cbn. lia. }
    exists m'. split; [exact He|]. split; [|split].
    + intros l. now rewrite Hmem.
    + exact Hev.
    + intros r Hr. rewrite Hregs by lia. cbn.
      replace (r =? S n)%nat with false
        by (symmetry; apply Nat.eqb_neq; lia).
      replace (r =? n)%nat with false
        by (symmetry; apply Nat.eqb_neq; lia).
      reflexivity.
Qed.

(** The tail of the entry block jumps to the success block if the sum
    is zero and to the failure block otherwise, leaving memory alone. *)
Lemma check_tail_exec n gs m :
  exists m',
    exec_insts'' (check_tail n gs) m =
      Jump (if Z.eqb (state_sum (mem m) (indexed 0 gs) 0) 0
            then "final" else "assertBB") m'.
Proof.
  unfold check_tail.
  destruct (sum_code_exec (indexed 0 gs) n zero m 0 eq_refl I)
    as (m1 & He & Hmem & Hev & _).
  rewrite (exec_insts_app_gen TD' kid af_id choice external), He.
  cbn [exec_insts]. unfold exec_inst at 1. cbn [inst_kind inst_id].
  rewrite Hev. change (eval TD' m1 zero) with (MInt 0).
  unfold exec_inst. cbn [inst_kind inst_id val eval set_reg regs].
  cbv beta iota. cbn [set_reg regs]. rewrite Nat.eqb_refl.
  destruct (Z.eqb (state_sum (mem m) (indexed 0 gs) 0) 0);
    eexists; reflexivity.
Qed.

End Checking.

Lemma eval_str_ptr TD' m k str :
  eval TD' m (str_ptr k str) = MPtr (LGlobal k) 0.
Proof. reflexivity. Qed.

(** C4, as the code has it.  In the entry function of every artifact
    [writeMain] writes, the call of the candidate is directly followed by
    [tail], the loads of all [__ai_state_] globals, their sum, its
    comparison with zero and a branch; the success block returns the
    constant 0; the failure block calls a function of the module called
    [__assert_fail], first argument the string "leaving function with
    lock held", and ends in [unreachable].  The function called is the
    module's own [__assert_fail] whenever the module has one (with
    external linkage), as it does in every run of the pass: it is taken
    as found, so it is marked never-returning only if the module marked
    it so.  Run from the point after the call, in any memory, the harness
    returns 0 if the sum of the state variables is zero and stops in the
    call of [__assert_fail] otherwise. *)
Theorem C4_invariant_check_after_the_call
  (env : Services) (s : KState) (F : Function) (s' : KState)
  (name : string) (M' : Module) :
  writeMain env F s = Ok tt s' ->
  written s' = written s ++ [(name, M')] ->
  exists mainF pre call tail ret fail unr args af f_af k,
    In mainF (functions M') /\
    fn_blocks mainF =
      [mkBB "entry" (pre ++ call :: tail); mkBB "final" [ret];
       mkBB "assertBB" [fail; unr]] /\
    inst_kind call = Call (fn_value F) args /\
    inst_kind ret = Ret (ConstantInt intType 0) /\
    inst_kind fail =
      Call af [str_ptr k "leaving function with lock held";
               str_ptr (S k) "n/a"; ConstantInt intType 0;
               str_ptr (S (S k)) "main"] /\
    inst_kind unr = Unreachable /\
    globals M' !! k = Some (str_global "leaving function with lock held") /\
    In f_af (functions M') /\ fn_name f_af = "__assert_fail" /\
    callee_id af = Some (fn_id f_af) /\
    (forall f0, getFunction (M s) "__assert_fail" = Some f0 ->
                fn_linkage f0 = ExternalLinkage -> f_af = f0) /\
    forall kid choice external fuel m,
      exec_from (TD env) kid (fn_id f_af) choice external (S fuel)
                (fn_blocks mainF) tail m =
      if Z.eqb (state_sum (mem m) (indexed 0 (globals M')) 0) 0
      then Returned (MInt 0)
      else AssertFail [MPtr (LGlobal k) 0; MPtr (LGlobal (S k)) 0; MInt 0;
                       MPtr (LGlobal (S (S k))) 0].
Proof.
  intros Hw Hwr.
  destruct (writeMain_artifact_own env F s s' name M' Hw Hwr)
    as (af & dl & decls & Hden & Hown & ->).
  assert (Hf : exists f_af,
    In f_af (functions (M (built env s F af dl decls))) /\
    fn_name f_af = "__assert_fail" /\
    callee_id af = Some (fn_id f_af) /\
    forall f0, getFunction (M s) "__assert_fail" = Some f0 -> f_af = f0).
  { destruct (getFunction (M s) "__assert_fail") as [f0|] eqn:Hg.
    - exists f0. pose proof (Hown f0 Hg) as Hid.
      unfold getFunction in Hg. apply find_some in Hg as [Hin Hnm].
      apply String.eqb_eq in Hnm.
      split; [cbn [built st M functions]; apply in_or_app; now left|].
      split; [assumption|]. split; [assumption|].
      intros f1 [= ->]. reflexivity.
    - destruct Hden as (f_af & Hin & Hnm & Hid). exists f_af.
      repeat (split; [assumption|]). intros f0 [=]. }
  destruct Hf as (f_af & Hin & Hnm & Hid & Hsame).
  eexists (main_fn env s (h_blocks env s F af dl)), (h_prefix env s F),
    (h_call env s F), (h_tail env s F), (h_ret env s F), _, _, _, af, f_af,
    (length (h_globals3 s F)).
  split; [cbn [built st M functions]; apply in_or_app; right; now left|].
  split; [reflexivity|]. split; [reflexivity|]. split; [reflexivity|].
  split; [reflexivity|]. split; [reflexivity|]. split.
  { cbn [built st M globals]. unfold h_globals.
    rewrite lookup_app_r by lia. now rewrite Nat.sub_diag. }
  split; [assumption|]. split; [assumption|]. split; [assumption|].
  split; [intros f0 H0 _; now apply Hsame|].
  intros kid choice external fuel m.
  unfold exec_from. cbn [built st M globals].
  destruct (check_tail_exec (TD env) kid (fn_id f_af) choice external
              (S (S (S (snd (h_ai env s F))))) (h_globals s F) m)
    as (m' & He).
  fold (h_tail env s F) in He. rewrite He.
  destruct (Z.eqb (state_sum (mem m) (indexed 0 (h_globals s F)) 0) 0).
  - reflexivity.
  - cbn [exec_blocks].
    change (find_block (fn_blocks (main_fn env s (h_blocks env s F af dl)))
                       "assertBB")
      with (Some (mkBB "assertBB" (h_assert env s F af dl))).
    cbv beta iota. unfold h_assert, assert_block. cbn [bb_insts exec_insts].
    unfold exec_inst. cbn [inst_kind inst_id]. unfold exec_call.
    rewrite Hid, Nat.eqb_refl. reflexivity.
Qed.

Lemma C4_witness :
  let s1 := state_of (writeMain Example.env0 Example.fA Example.s0) in
  exists M',
  (writeMain Example.env0 Example.fA Example.s0 = Ok tt s1 /\
   written s1 = written Example.s0 ++ [("mod.main.A.o", M')]) /\
  exists mainF pre call tail ret fail unr args af f_af k,
    In mainF (functions M') /\
    fn_blocks mainF =
      [mkBB "entry" (pre ++ call :: tail); mkBB "final" [ret];
       mkBB "assertBB" [fail; unr]] /\
    inst_kind call = Call (fn_value Example.fA) args /\
    inst_kind ret = Ret (ConstantInt intType 0) /\
    inst_kind fail =
      Call af [str_ptr k "leaving function with lock held";
               str_ptr (S k) "n/a"; ConstantInt intType 0;
               str_ptr (S (S k)) "main"] /\
    inst_kind unr = Unreachable /\
    globals M' !! k = Some (str_global "leaving function with lock held") /\
    In f_af (functions M') /\ fn_name f_af = "__assert_fail" /\
    callee_id af = Some (fn_id f_af) /\
    (forall f0, getFunction (M Example.s0) "__assert_fail" = Some f0 ->
                fn_linkage f0 = ExternalLinkage -> f_af = f0) /\
    forall kid choice external fuel m,
      exec_from (TD Example.env0) kid (fn_id f_af) choice external (S fuel)
                (fn_blocks mainF) tail m =
      if Z.eqb (state_sum (mem m) (indexed 0 (globals M')) 0) 0
      then Returned (MInt 0)
      else AssertFail [MPtr (LGlobal k) 0; MPtr (LGlobal (S k)) 0; MInt 0;
                       MPtr (LGlobal (S (S k))) 0].
Proof.
  intros s1.
  assert (H1 : writeMain Example.env0 Example.fA Example.s0 = Ok tt s1)
    by (vm_compute; reflexivity).
  eexists.
  assert (H2 : written s1 = written Example.s0 ++ [("mod.main.A.o", _)])
    by (vm_compute; reflexivity).
  split; [split; [exact H1|exact H2]|].
  exact (C4_invariant_check_after_the_call Example.env0 Example.s0
           Example.fA s1 "mod.main.A.o" _ H1 H2).
Defined.

(** The claim as stated fails where it calls the function reported to
    never-returning: for a module that declares [__assert_fail] without
    the [noreturn] attribute, the pass qualifies [A] and [B] and writes
    their artifacts, and in the artifact of [A] the failure block calls
    that very declaration, which is still not marked never-returning. *)
Lemma C4_counterexample :
  let f0 := Example.returning_assert_fail in
  let s1 := state_of (writeMain Example.env0 Example.fA
                                Example.s_returning) in
  getFunction Example.m_returning "__assert_fail" = Some f0 /\
  fn_linkage f0 = ExternalLinkage /\
  fn_noReturn f0 = false /\
  map fst (written (state_of (runOnModule Example.env0 Example.m_returning)))
    = ["mod.main.A.o"; "mod.main.B.o"] /\
  exists M' mainF entry ret fail unr args,
    writeMain Example.env0 Example.fA Example.s_returning = Ok tt s1 /\
    written s1 = [("mod.main.A.o", M')] /\
    In mainF (functions M') /\
    fn_blocks mainF =
      [entry; mkBB "final" [ret]; mkBB "assertBB" [fail; unr]] /\
    inst_kind fail = Call (fn_value f0) args /\
    inst_kind unr = Unreachable /\
    getFunction M' "__assert_fail" = Some f0 /\
    Forall (fun f => fn_name f = "__assert_fail" -> fn_noReturn f = false)
           (functions M').
Proof.
  intros f0 s1.
  split; [reflexivity|]. split; [reflexivity|]. split; [reflexivity|].
  split; [vm_compute; reflexivity|].
  set (M' := match written s1 with (_, x) :: _ => x | [] => M s1 end).
  set (mainF := match getFunction M' "main" with
                | Some f => f | None => f0 end).
  set (entry := nth 0 (fn_blocks mainF) (mkBB "" [])).
  set (ab := bb_insts (nth 2 (fn_blocks mainF) (mkBB "" []))).
  set (fail := nth 0 ab (mkInst 0 Unreachable None)).
  exists M', mainF, entry,
    (nth 0 (bb_insts (nth 1 (fn_blocks mainF) (mkBB "" [])))
         (mkInst 0 Unreachable None)),
    fail, (nth 1 ab (mkInst 0 Unreachable None)),
    (match inst_kind fail with Call _ a => a | _ => [] end).
  split; [vm_compute; reflexivity|].
  split; [vm_compute; reflexivity|].
  split; [vm_compute; tauto|].
  split; [vm_compute; reflexivity|].
  split; [vm_compute; reflexivity|].
  split; [vm_compute; reflexivity|].
  split; [vm_compute; reflexivity|].
  vm_compute. repeat constructor; discriminate.
Qed.

(** *** The buffer behind a pointer parameter *)

Lemma ids_in_weaken lo hi lo' hi' l :
  ids_in lo hi l -> (lo' <= lo)%nat -> (hi <= hi')%nat -> ids_in lo' hi' l.
Proof.
  intros H Hlo Hhi. eapply Forall_impl; [|exact H]. cbn. intros; lia.
Qed.

Ltac solve_ids :=
  unfold ids_in; repeat first [apply Forall_nil | apply Forall_cons];
  cbn; lia.

Section Bounds.

Variable env : Services.
Variable s0 : KState.

Lemma klee_next_gt n addr arr : (n < klee_next n addr arr)%nat.
Proof.
  unfold klee_next, klee_n2, klee_n1.
  destruct (negb (Ty_eqb (type_of addr) voidPtrType)), arr; lia.
Qed.

Lemma klee_code_ids n name ty addr arr :
  ids_in n (klee_next n addr arr)
         (klee_pre env n ty addr arr ++
          [klee_call env s0 n name ty addr arr]).
Proof.
  unfold ids_in, klee_pre, klee_call, klee_next, klee_cast, klee_mul,
    klee_n2, klee_n1.
  destruct (negb (Ty_eqb (type_of addr) voidPtrType)), arr;
    solve_ids.
Qed.

Lemma param_code_ids n glen param :
  let c := param_code env s0 n glen param in
  (n <= pc_next c)%nat /\
  ids_in n (pc_next c) (pc_front c) /\ ids_in n (pc_next c) (pc_back c).
Proof.
  unfold param_code.
  destruct (arg_type param) as [| | | |bits|elem|r ps va|nm body|k e|k e]
    eqn:Hty;
    try (cbn; split; [lia|split; apply Forall_nil]).
  - unfold integer_code. rewrite Hty. cbn [pc_front pc_back pc_next].
    pose proof (klee_next_gt (S n)
                  (val (mkInst n (Alloca (IntegerTy bits)) None)) None).
    pose proof (klee_code_ids (S n) (str_ptr glen (param_label param))
                  (IntegerTy bits)
                  (val (mkInst n (Alloca (IntegerTy bits)) None)) None)
      as Hk.
    split; [lia|]. split.
    + solve_ids.
    + change (?a ++ [?b; ?c]) with (a ++ [b] ++ [c]).
      rewrite app_assoc. apply Forall_app. split.
      * eapply ids_in_weaken; [exact Hk|lia|lia].
      * solve_ids.
  - unfold pointer_code.
    pose proof (klee_next_gt (S n) (val (malloc_inst env n elem))
                  (Some arrSize)).
    pose proof (klee_code_ids (S n) (str_ptr glen (param_label param)) elem
                  (val (malloc_inst env n elem)) (Some arrSize)) as Hk.
    destruct (negb (Ty_eqb (PointerTy elem) voidPtrType));
      cbn [pc_front pc_back pc_next];
      (split; [lia|]); (split; [apply Forall_nil|]);
      (apply Forall_cons; [cbn; lia|]).
    + change (?a ++ [?b; ?c; ?d; ?e]) with (a ++ [b] ++ [c; d; e]).
      rewrite app_assoc. apply Forall_app. split.
      * eapply ids_in_weaken; [exact Hk|lia|lia].
      * solve_ids.
    + change (?a ++ [?b; ?c]) with (a ++ [b] ++ [c]).
      rewrite app_assoc. apply Forall_app. split.
      * eapply ids_in_weaken; [exact Hk|lia|lia].
      * solve_ids.
Qed.

Lemma params_code_ids : forall args n glen,
  let r := params_code env s0 n glen args in
  (n <= ps_next r)%nat /\
  ids_in n (ps_next r) (ps_front r) /\ ids_in n (ps_next r) (ps_back r).
Proof.
  induction args as [|param rest IH]; intros n glen.
  - cbn. split; [lia|split; apply Forall_nil].
  - cbn [params_code ps_front ps_back ps_next]. cbn zeta.
    destruct (param_code_ids n glen param) as (Hn & Hf & Hb).
    destruct (IH (pc_next (param_code env s0 n glen param)) (S glen))
      as (Hn' & Hf' & Hb').
    cbn zeta in *. split; [lia|].
    split; apply Forall_app; split;
      (eapply ids_in_weaken; [eassumption|lia|lia]).
Qed.

Lemma ai_code_ids : forall gs n glen,
  (n <= snd (ai_code env s0 n glen gs))%nat /\
  ids_in n (snd (ai_code env s0 n glen gs)) (fst (ai_code env s0 n glen gs)).
Proof.
  induction gs as [|[idx g] gs IH]; intros n glen.
  - cbn. split; [lia|apply Forall_nil].
  - cbn [ai_code]. destruct (isAiState g); [|apply IH].
    cbn [fst snd].
    destruct (IH (ai_next n idx g) (S glen)) as (Hn & Hids).
    pose proof (klee_next_gt n (global_addr idx g) None).
    pose proof (klee_code_ids n (str_ptr glen (gv_name g)) intType
                  (global_addr idx g) None) as Hk.
    unfold ai_next in *. split; [lia|].
    apply Forall_app. split.
    + unfold ai_insts.
      change (?a ++ [?b; ?c]) with (a ++ [b] ++ [c]).
      rewrite app_assoc. apply Forall_app. split.
      * eapply ids_in_weaken; [exact Hk|lia|lia].
      * solve_ids.
    + eapply ids_in_weaken; [exact Hids|lia|lia].
Qed.

End Bounds.

Lemma params_code_app env s0 : forall a1 a2 n glen,
  let r1 := params_code env s0 n glen a1 in
  let r2 := params_code env s0 (ps_next r1) (glen + length a1) a2 in
  params_code env s0 n glen (a1 ++ a2) =
  mkPS (ps_front r2 ++ ps_front r1) (ps_back r1 ++ ps_back r2)
       (ps_vals r1 ++ ps_vals r2) (ps_next r2).
Proof.
  induction a1 as [|p a1 IH]; intros a2 n glen.
  - cbn. rewrite Nat.add_0_r, app_nil_r.
    now destruct (params_code env s0 n glen a2).
  - cbn [app params_code length]. cbn zeta.
    rewrite IH. cbn [ps_front ps_back ps_vals ps_next].
    replace (S glen + length a1)%nat with (glen + S (length a1))%nat by lia.
    now rewrite <- !app_assoc.
Qed.

Section BufferFacts.

Variable env : Services.
Variable s0 : KState.
Variable af_id : nat.
Variable choice : nat -> Z.
Variable external : nat -> list mval -> (loc -> Z) -> option (loc -> Z).

#[local] Abbreviation ptr_bits := (ptr_bits env).
#[local] Abbreviation buffer_bytes := (buffer_bytes env).
#[local] Abbreviation symbolic_bytes := (symbolic_bytes env).
Hypothesis af_not_klee : af_id <> klee_id env s0.

#[local] Abbreviation run_insts :=
  (exec_insts (TD env) (klee_id env s0) af_id choice external).

Ltac eqb_ids :=
  repeat match goal with
         | |- context [Nat.eqb ?a ?a] => rewrite (Nat.eqb_refl a)
         | |- context [Nat.eqb ?a ?b] =>
             replace (Nat.eqb a b) with false
               by (symmetry; apply Nat.eqb_neq; lia)
         end.

Lemma eval_const_get m bits v :
  eval (TD env) m (ConstantInt_get (IntegerTy bits) v)
  = MInt (v mod 2 ^ Z.of_N bits).
Proof. reflexivity. Qed.

Ltac crunch :=
  repeat (progress
            (cbn [eval set_reg regs mem heap symbolic map type_of pointee
                  mark_symbolic set_mem val inst_type kind_type inst_kind
                  inst_id];
             rewrite ?eval_const_get;
             cbv beta iota zeta; eqb_ids)).

(** The code for a pointer parameter allocates the buffer, marks it
    symbolic from its start, and leaves in the register it passes the
    address 2000 [i8]-sized steps into the buffer. *)
Lemma pointer_code_exec n glen param e m :
  let c := pointer_code env s0 n glen param e in
  exists r m',
    pc_val c = Some (VInst r (PointerTy e)) /\
    (n <= r < pc_next c)%nat /\
    run_insts (pc_back c) m = Next m' /\
    regs m' r = MPtr (LHeap n) (2000 * getTypeAllocSize (TD env) i8) /\
    heap m' = heap m ++ [(n, buffer_bytes e)] /\
    symbolic m' =
      symbolic m ++
      [mkMarking (MPtr (LHeap n) 0) (MInt (symbolic_bytes e))
                 (MPtr (LGlobal glen) 0)].
Proof.
  intros c. subst c. unfold pointer_code, klee_pre, klee_call, klee_next,
    klee_cast, klee_addr, klee_n1, klee_mul, klee_size, klee_n2.
  change (type_of (val (malloc_inst env n e))) with (PointerTy e).
  destruct (negb (Ty_eqb (PointerTy e) voidPtrType)) eqn:Hc;
    cbn [pc_val pc_back pc_next app].
  - eexists _, _. split; [reflexivity|]. split; [cbn; lia|].
    cbn [exec_insts]. unfold exec_inst, malloc_inst, exec_call, arith.
    unfold arrSize, intPtrTy, getIntPtrType, intType, uintType, i64, i32.
    crunch.
    change (callee_id (fn_value (klee_fn env s0)))
      with (Some (klee_id env s0)).
    cbv beta iota zeta.
    replace (klee_id env s0 =? af_id)%nat with false
      by (symmetry; apply Nat.eqb_neq; congruence).
    crunch.
    split; [reflexivity|]. split; [|split].
    + crunch. reflexivity.
    + reflexivity.
    + reflexivity.
  - apply negb_false_iff, Ty_eqb_eq in Hc. injection Hc as ->.
    eexists _, _. split; [reflexivity|]. split; [cbn; lia|].
    cbn [exec_insts]. unfold exec_inst, malloc_inst, exec_call, arith.
    unfold arrSize, intPtrTy, getIntPtrType, intType, uintType, i64, i32.
    crunch.
    change (callee_id (fn_value (klee_fn env s0)))
      with (Some (klee_id env s0)).
    cbv beta iota zeta.
    replace (klee_id env s0 =? af_id)%nat with false
      by (symmetry; apply Nat.eqb_neq; congruence).
    crunch.
    split; [reflexivity|]. split; [|split].
    + crunch. reflexivity.
    + reflexivity.
    + reflexivity.
Qed.

End BufferFacts.

Lemma ai_code_plain env s0 : forall gs n glen,
  Forall (plain env s0) (fst (ai_code env s0 n glen gs)).
Proof.
  induction gs as [|[idx g] gs IH]; intros n glen; [apply Forall_nil|].
  cbn [ai_code]. destruct (isAiState g); [|apply IH].
  cbn [fst]. apply Forall_app. split; [|apply IH].
  unfold ai_insts. apply Forall_app. split; [apply klee_pre_plain|].
  repeat constructor.
Qed.

Lemma params_code_length_eq env s0 args n glen :
  forallb (fun a => supported (arg_type a)) args = true ->
  length (ps_vals (params_code env s0 n glen args)) = length args.
Proof.
  intros H. pose proof (params_code_types env s0 args n glen H) as H2.
  apply Forall2_length in H2. rewrite length_map in H2. now symmetry.
Qed.

(** The string constant made for the label of a parameter is still in
    place, unchanged, in the finished harness. *)
Lemma h_globals_label s F args1 param args2 :
  fn_args F = args1 ++ param :: args2 ->
  h_globals s F !! (length (globals (M s)) + length args1)%nat
  = Some (str_global (param_label param)).
Proof.
  intros Hargs. unfold h_globals, h_globals3.
  assert (H1 : h_globals1 s F !! (length (globals (M s)) + length args1)%nat
               = Some (str_global (param_label param))).
  { unfold h_globals1. rewrite Hargs, lookup_app_r by lia.
    replace (length (globals (M s)) + length args1 - length (globals (M s)))%nat
      with (length args1) by lia.
    apply (lookup_map (fun a => str_global (param_label a))).
    rewrite lookup_app_r by lia. now rewrite Nat.sub_diag. }
  pose proof (lookup_lt_Some _ _ _ H1) as Hlt.
  apply (lookup_map zeroed) in H1. apply lookup_app_l_Some with
    (l2 := ai_strings (h_globals1 s F)) in H1.
  apply (lookup_map nulled) in H1.
  now apply lookup_app_l_Some.
Qed.

(** C2, as the code has it.  For a pointer-typed formal parameter [P] of
    a candidate whose artifact is written, the entry block, run up to the
    call of the candidate, has allocated a buffer of 4000 elements of the
    element size [getTypeSize] gives for [P]'s pointee type (pointer width
    for a function type, else 100 for an unsized type, else the layout
    size for a structure, else the allocation size); has marked 4000
    times that size, from the start of the buffer, symbolic under a tag
    that points to the string constant holding [P]'s name (or "noname");
    and passes for [P] the register holding the address 2000 times the
    size of [i8] past the start of the buffer: byte 2000, not element
    2000. *)
Theorem C2_pointer_parameter_gets_buffer
  (env : Services) (s : KState) (F : Function) (s' : KState)
  (name : string) (M' : Module)
  (args1 : list Argument) (param : Argument) (args2 : list Argument)
  (e : Ty) :
  writeMain env F s = Ok tt s' ->
  written s' = written s ++ [(name, M')] ->
  fn_args F = args1 ++ param :: args2 ->
  arg_type param = PointerTy e ->
  exists mainF pre call post blocks vals1 r vals2 base k,
    In mainF (functions M') /\
    fn_blocks mainF = mkBB "entry" (pre ++ call :: post) :: blocks /\
    inst_kind call =
      Call (fn_value F) (vals1 ++ VInst r (PointerTy e) :: vals2) /\
    length vals1 = length args1 /\
    globals M' !! k = Some (str_global (param_label param)) /\
    getTypeSize env e =
      (if isFunctionTy e then to_unsigned (getPointerSize (TD env))
       else if negb (isSized e) then 100
       else if isStructTy e
            then to_unsigned (getStructLayoutSize (TD env) e)
            else to_unsigned (getTypeAllocSize (TD env) e)) /\
    forall af_id choice external m,
      af_id <> klee_id env s ->
      exists m',
        exec_insts (TD env) (klee_id env s) af_id choice external pre m
          = Next m' /\
        regs m' r = MPtr (LHeap base) (2000 * getTypeAllocSize (TD env) i8) /\
        In (base, buffer_bytes env e) (heap m') /\
        In (mkMarking (MPtr (LHeap base) 0) (MInt (symbolic_bytes env e))
                      (MPtr (LGlobal k) 0))
           (symbolic m').
Proof.
  intros Hw Hwr Hargs Hty.
  destruct (writeMain_artifact env F s s' name M' Hw Hwr)
    as (af & dl & decls & ds & Hd & Hsup & _ & _ & _ & -> & _).
  unfold all_supported in Hsup. rewrite Hargs in Hsup.
  rewrite forallb_app in Hsup. apply andb_true_iff in Hsup as [Hsup1 _].
  set (glen := length (globals (M s))).
  set (r1 := params_code env s (fresh s) glen args1).
  set (c := pointer_code env s (ps_next r1) (glen + length args1) param e).
  set (r3 := params_code env s (pc_next c) (S (glen + length args1)) args2).
  assert (Hp : h_params env s F =
               mkPS (ps_front r3 ++ ps_front r1)
                    (ps_back r1 ++ pc_back c ++ ps_back r3)
                    (ps_vals r1 ++ option_list (pc_val c) ++ ps_vals r3)
                    (ps_next r3)).
  { unfold h_params. rewrite Hargs, params_code_app. fold glen. fold r1.
    cbn [params_code].
    assert (Hpc : param_code env s (ps_next r1) (glen + length args1) param
                  = c).
    { unfold param_code. now rewrite Hty. }
    rewrite !Hpc. fold r3.
    cbn [ps_front ps_back ps_vals ps_next].
    assert (Hf : pc_front c = []).
    { subst c. unfold pointer_code.
      now destruct (negb (Ty_eqb (PointerTy e) voidPtrType)). }
    rewrite Hf, app_nil_r. reflexivity. }
  destruct (pointer_code_exec env s (S (klee_id env s)) (fun _ => 0)
              (fun _ _ mm => Some mm) (Nat.neq_succ_diag_l _)
              (ps_next r1) (glen + length args1) param e
              (mkMachine (fun _ => MUndef) (fun _ => 0) [] []))
    as (r & _ & Hval & Hr & _).
  fold c in Hval, Hr.
  eexists (main_fn env s (h_blocks env s F af dl)), (h_prefix env s F),
    (h_call env s F), (h_tail env s F), _, (ps_vals r1), r, (ps_vals r3),
    (ps_next r1), (glen + length args1)%nat.
  split; [cbn [built st M functions]; apply in_or_app; right; now left|].
  split; [reflexivity|]. split.
  { unfold h_call. cbn [inst_kind]. rewrite Hp. cbn [ps_vals].
    now rewrite Hval. }
  split; [now apply params_code_length_eq|].
  split; [now apply h_globals_label with (args2 := args2)|].
  split; [reflexivity|].
  intros af_id choice external m Haf.
  assert (Hpre : h_prefix env s F =
                 ((ps_front r3 ++ ps_front r1) ++ ps_back r1) ++
                 pc_back c ++ (ps_back r3 ++ fst (h_ai env s F))).
  { unfold h_prefix. rewrite Hp. cbn [ps_front ps_back].
    now rewrite <- !app_assoc. }
  destruct (params_code_plain env s args1 (fresh s) glen) as [Hf1 Hb1].
  destruct (params_code_plain env s args2 (pc_next c)
              (S (glen + length args1))) as [Hf3 Hb3].
  fold r1 in Hf1, Hb1. fold r3 in Hf3, Hb3.
  rewrite Hpre.
  rewrite (exec_insts_app_gen _ _ _ _ _
             ((ps_front r3 ++ ps_front r1) ++ ps_back r1)).
  destruct (plain_list_next env s af_id choice external Haf
              ((ps_front r3 ++ ps_front r1) ++ ps_back r1) m)
    as (m1 & ->).
  { repeat (apply Forall_app; split); assumption. }
  destruct (pointer_code_exec env s af_id choice external Haf
              (ps_next r1) (glen + length args1) param e m1)
    as (r' & m2 & Hval' & Hr' & He2 & Hreg & Hheap & Hsym).
  fold c in Hval', Hr', He2. rewrite Hval in Hval'.
  injection Hval' as <-.
  rewrite (exec_insts_app_gen _ _ _ _ _ (pc_back c)), He2.
  destruct (plain_list_next env s af_id choice external Haf
              (ps_back r3 ++ fst (h_ai env s F)) m2) as (m3 & He3).
  { apply Forall_app. split; [assumption|]. apply ai_code_plain. }
  rewrite He3. exists m3. split; [reflexivity|].
  destruct (exec_insts_frame _ _ _ _ _ _ _ _ He3)
    as (Hfr & (h & Hh) & (sy & Hsy)).
  split; [|split].
  - rewrite Hfr; [exact Hreg|].
    destruct (params_code_ids env s args2 (pc_next c)
                (S (glen + length args1))) as (Hn3 & _ & Hi3).
    fold r3 in Hn3, Hi3. cbn zeta in Hn3, Hi3.
    destruct (ai_code_ids env s (indexed 0 (h_globals1 s F))
                (ps_next (h_params env s F)) (length (h_globals1 s F)))
      as (_ & Hia).
    fold (h_ai env s F) in Hia. rewrite Hp in Hia. cbn [ps_next] in Hia.
    apply Forall_app. split.
    + eapply Forall_impl; [|exact Hi3]. cbn. intros; lia.
    + eapply Forall_impl; [|exact Hia]. cbn. intros; lia.
  - rewrite Hh, Hheap. apply in_or_app. left. apply in_or_app. right.
    now left.
  - rewrite Hsy, Hsym. apply in_or_app. left. apply in_or_app. right.
    now left.
Qed.

Lemma C2_witness :
  let s1 := state_of (writeMain Example.env0 Example.fA Example.s0) in
  let param := mkArg "p" (PointerTy i32) in
  exists M',
  (writeMain Example.env0 Example.fA Example.s0 = Ok tt s1 /\
   written s1 = written Example.s0 ++ [("mod.main.A.o", M')] /\
   fn_args Example.fA = [] ++ param :: [mkArg "" i32] /\
   arg_type param = PointerTy i32) /\
  exists mainF pre call post blocks vals1 r vals2 base k,
    In mainF (functions M') /\
    fn_blocks mainF = mkBB "entry" (pre ++ call :: post) :: blocks /\
    inst_kind call =
      Call (fn_value Example.fA) (vals1 ++ VInst r (PointerTy i32) :: vals2) /\
    length vals1 = length (@nil Argument) /\
    globals M' !! k = Some (str_global (param_label param)) /\
    getTypeSize Example.env0 i32 =
      (if isFunctionTy i32
       then to_unsigned (getPointerSize (TD Example.env0))
       else if negb (isSized i32) then 100
       else if isStructTy i32
            then to_unsigned (getStructLayoutSize (TD Example.env0) i32)
            else to_unsigned (getTypeAllocSize (TD Example.env0) i32)) /\
    forall af_id choice external m,
      af_id <> klee_id Example.env0 Example.s0 ->
      exists m',
        exec_insts (TD Example.env0) (klee_id Example.env0 Example.s0)
                   af_id choice external pre m = Next m' /\
        regs m' r =
          MPtr (LHeap base) (2000 * getTypeAllocSize (TD Example.env0) i8) /\
        In (base, buffer_bytes Example.env0 i32) (heap m') /\
        In (mkMarking (MPtr (LHeap base) 0)
                      (MInt (symbolic_bytes Example.env0 i32))
                      (MPtr (LGlobal k) 0))
           (symbolic m').
Proof.
  intros s1 param.
  assert (H1 : writeMain Example.env0 Example.fA Example.s0 = Ok tt s1)
    by (vm_compute; reflexivity).
  eexists.
  assert (H2 : written s1 = written Example.s0 ++ [("mod.main.A.o", _)])
    by (vm_compute; reflexivity).
  split; [split; [exact H1|split; [exact H2|split; reflexivity]]|].
  exact (C2_pointer_parameter_gets_buffer Example.env0 Example.s0
           Example.fA s1 "mod.main.A.o" _ [] param [mkArg "" i32] i32
           H1 H2 eq_refl eq_refl).
Defined.

(** For candidate [A], whose first parameter [p] has type [i32*], the
    artifact's entry block allocates 16000 bytes (4000 elements of 4
    bytes) and passes for [p] the address 2000 bytes past the start of
    the buffer; element 2000 of the buffer lies at byte 8000. *)
Lemma C2_counterexample :
  let s1 := state_of (writeMain Example.env0 Example.fA Example.s0) in
  exists M' mainF pre call post blocks r v2 m',
    writeMain Example.env0 Example.fA Example.s0 = Ok tt s1 /\
    written s1 = [("mod.main.A.o", M')] /\
    In mainF (functions M') /\
    fn_name mainF = "main" /\
    fn_blocks mainF = mkBB "entry" (pre ++ call :: post) :: blocks /\
    inst_kind call = Call (fn_value Example.fA) [VInst r (PointerTy i32); v2] /\
    exec_insts (TD Example.env0) (klee_id Example.env0 Example.s0)
               (fn_id Example.assert_fail_fn) (fun _ => 0)
               (fun _ _ m => Some m) pre (Example.machine 0) = Next m' /\
    heap m' = [(0%nat, 16000)] /\
    getTypeSize Example.env0 i32 = 4 /\
    regs m' r = MPtr (LHeap 0) 2000 /\
    regs m' r <> MPtr (LHeap 0) (2000 * getTypeSize Example.env0 i32).
Proof.
  intros s1. eexists.
  exists (main_fn Example.env0 Example.s0
            (h_blocks Example.env0 Example.s0 Example.fA
               (fn_value Example.assert_fail_fn) (Some (3%nat, 1%nat)))),
    (h_prefix Example.env0 Example.s0 Example.fA),
    (h_call Example.env0 Example.s0 Example.fA),
    (h_tail Example.env0 Example.s0 Example.fA).
  do 3 eexists.
  eexists (match exec_insts (TD Example.env0)
                   (klee_id Example.env0 Example.s0)
                   (fn_id Example.assert_fail_fn) (fun _ => 0)
                   (fun _ _ m => Some m)
                   (h_prefix Example.env0 Example.s0 Example.fA)
                   (Example.machine 0) with
           | Next m' => m'
           | _ => Example.machine 0
           end).
  split; [vm_compute; reflexivity|].
  split; [vm_compute; reflexivity|].
  split; [vm_compute; tauto|].
  split; [reflexivity|].
  split; [vm_compute; reflexivity|].
  split; [vm_compute; reflexivity|].
  split; [vm_compute; reflexivity|].
  split; [vm_compute; reflexivity|].
  split; [vm_compute; reflexivity|].
  split; [vm_compute; reflexivity|].
  vm_compute. discriminate.
Qed.

(* ===================================================================== *)
(** ** Further properties of the pass *)
(* ===================================================================== *)

(** *** [check] *)

Lemma check_args_mismatch params t a a2 : forall a1 p1 p2 i s,
  drop i params = p1 ++ t :: p2 ->
  Forall2 (fun t a => t = type_of a) p1 a1 ->
  t <> type_of a ->
  check_args params (a1 ++ a :: a2) i s =
  Abort (AssertionFailed "YYCalling a function with a bad signature!")
        (add_errs [DiagTypes (Some t) (type_of a)] s).
Proof.
  induction a1 as [|x a1 IH]; intros p1 p2 i s Hd H2 Hne.
  - inversion H2; subst. cbn [app] in *.
    assert (Hi : params !! i = Some t).
    { pose proof (lookup_drop params i 0) as L.
      rewrite Hd, Nat.add_0_r in L. now symmetry. }
    assert (Hlt : (i < length params)%nat) by (eapply lookup_lt_Some; eauto).
    cbn [check_args]. rewrite Hi.
    assert (He : Ty_eqb t (type_of a) = false).
    { destruct (Ty_eqb t (type_of a)) eqn:E; [|reflexivity].
      apply Ty_eqb_eq in E. contradiction. }
    rewrite He. cbn [negb]. kunfold. unfold report. kred.
    rewrite bool_decide_eq_false_2 by lia. reflexivity.
  - inversion H2 as [|t' x' tl rest' Ht Hrest Hp1 Ha1]; subst.
    cbn [app] in *.
    assert (Hi : params !! i = Some (type_of x)).
    { pose proof (lookup_drop params i 0) as L.
      rewrite Hd, Nat.add_0_r in L. now symmetry. }
    assert (Htl : drop (S i) params = tl ++ t :: p2).
    { pose proof (drop_drop params 1 i) as L.
      rewrite Hd in L. cbn [drop] in L.
      replace (i + 1)%nat with (S i) in L by lia. now symmetry. }
    cbn [check_args]. rewrite Hi, Ty_eqb_refl. cbn [negb].
    rewrite bind_ret. rewrite orb_true_r. cbn [assert]. rewrite bind_ret.
    now apply (IH tl p2).
Qed.

Lemma Ty_eq_dec (a b : Ty) : {a = b} + {a <> b}.
Proof.
  destruct (Ty_eqb a b) eqn:E.
  - left. now apply Ty_eqb_eq.
  - right. intros ->. now rewrite Ty_eqb_refl in E.
Qed.

Lemma first_mismatch (ps : list Ty) : forall Args : list value,
  length Args = length ps -> map type_of Args <> ps ->
  exists a1 a a2 p1 t p2,
    Args = a1 ++ a :: a2 /\ ps = p1 ++ t :: p2 /\
    Forall2 (fun t a => t = type_of a) p1 a1 /\ t <> type_of a.
Proof.
  induction ps as [|t ps IH]; intros [|a Args] Hlen Hne; try discriminate.
  - contradiction.
  - destruct (Ty_eqb t (type_of a)) eqn:E.
    + apply Ty_eqb_eq in E. subst t.
      destruct (IH Args) as (a1 & x & a2 & p1 & t & p2 & -> & -> & H2 & Ht).
      { cbn in Hlen. lia. }
      { intros H. apply Hne. cbn [map]. now rewrite H. }
      exists (a :: a1), x, a2, (type_of a :: p1), t, p2.
      repeat split; try reflexivity; [|assumption]. now constructor.
    + exists [], a, Args, [], t, ps. repeat split; [constructor|].
      intros ->. now rewrite Ty_eqb_refl in E.
Qed.

Lemma Forall2_type_of (p1 : list Ty) (a1 : list value) :
  Forall2 (fun t a => t = type_of a) p1 a1 -> p1 = map type_of a1.
Proof. induction 1; [reflexivity|]. cbn [map]. congruence. Qed.

(** [check], for a callee that is not variadic: it returns, leaving the
    state as it is, exactly on the argument lists whose types are the
    parameter types; a wrong number of arguments fails the first
    assertion, and the right number with a wrong type prints the two
    types at the first mismatching position [k] (the types before [k]
    agree) and fails the second. *)
Theorem check_accepts_exactly_the_parameter_types
  (f : value) (r : Ty) (ps : list Ty) (Args : list value) (s : KState) :
  type_of f = PointerTy (FunctionTy r ps false) ->
  (check f Args s = Ok tt s <-> map type_of Args = ps) /\
  (length Args <> length ps ->
   check f Args s =
   Abort (AssertionFailed "XXCalling a function with bad signature!") s) /\
  (length Args = length ps -> map type_of Args <> ps ->
   exists k t a,
     ps !! k = Some t /\ Args !! k = Some a /\ t <> type_of a /\
     take k ps = map type_of (take k Args) /\
     check f Args s =
     Abort (AssertionFailed "YYCalling a function with a bad signature!")
           (add_errs [DiagTypes (Some t) (type_of a)] s)).
Proof.
  intros Hf.
  assert (Hshort : length Args <> length ps ->
    check f Args s =
    Abort (AssertionFailed "XXCalling a function with bad signature!") s).
  { intros Hne. unfold check. rewrite Hf. cbn [pointee].
    rewrite bool_decide_eq_false_2 by assumption. reflexivity. }
  assert (Hbad : length Args = length ps -> map type_of Args <> ps ->
    exists k t a,
      ps !! k = Some t /\ Args !! k = Some a /\ t <> type_of a /\
      take k ps = map type_of (take k Args) /\
      check f Args s =
      Abort (AssertionFailed "YYCalling a function with a bad signature!")
            (add_errs [DiagTypes (Some t) (type_of a)] s)).
  { intros Hlen Hne.
    destruct (first_mismatch ps Args Hlen Hne)
      as (a1 & a & a2 & p1 & t & p2 & -> & -> & H2 & Ht).
    pose proof (Forall2_length H2) as Hl12.
    exists (length a1), t, a.
    split; [rewrite <- Hl12; apply list_lookup_middle; reflexivity|].
    split; [apply list_lookup_middle; reflexivity|]. split; [assumption|].
    split.
    { rewrite <- Hl12 at 1. rewrite !take_app_length.
      now apply Forall2_type_of. }
    unfold check. rewrite Hf. cbn [pointee].
    rewrite bool_decide_eq_true_2 by assumption.
    cbn [orb assert]. rewrite bind_ret.
    now apply (check_args_mismatch _ t a a2 a1 p1 p2). }
  split; [|split; assumption].
  split.
  - intros Hok.
    destruct (Nat.eq_dec (length Args) (length ps)) as [Hlen|Hlen].
    + destruct (list_eq_dec Ty_eq_dec (map type_of Args) ps) as [|Hne];
        [assumption|].
      destruct (Hbad Hlen Hne) as (k & t & a & _ & _ & _ & _ & Hb).
      congruence.
    + rewrite (Hshort Hlen) in Hok. discriminate.
  - intros <-. unfold check. rewrite Hf. cbn [pointee].
    rewrite length_map, bool_decide_eq_true_2 by reflexivity.
    cbn [orb assert]. rewrite bind_ret. apply check_args_ok.
    cbn [drop]. clear. induction Args; constructor; auto.
Qed.

Lemma check_witness :
  let f := fn_value Example.fA in
  let p := ConstantNull (PointerTy i32) in
  let n := ConstantInt i32 1 in
  type_of f = PointerTy (FunctionTy VoidTy [PointerTy i32; i32] false) /\
  check f [p; n] Example.s0 = Ok tt Example.s0 /\
  check f [n] Example.s0 =
    Abort (AssertionFailed "XXCalling a function with bad signature!")
          Example.s0 /\
  exists k t a,
    [PointerTy i32; i32] !! k = Some t /\ [n; n] !! k = Some a /\
    t <> type_of a /\
    take k [PointerTy i32; i32] = map type_of (take k [n; n]) /\
    check f [n; n] Example.s0 =
    Abort (AssertionFailed "YYCalling a function with a bad signature!")
          (add_errs [DiagTypes (Some t) (type_of a)] Example.s0).
Proof.
  intros f p n.
  assert (Hf : type_of f =
               PointerTy (FunctionTy VoidTy [PointerTy i32; i32] false))
    by reflexivity.
  split; [exact Hf|]. split; [|split].
  - apply (check_accepts_exactly_the_parameter_types f _ _ [p; n]
             Example.s0 Hf). reflexivity.
  - apply (check_accepts_exactly_the_parameter_types f _ _ [n]
             Example.s0 Hf). cbn. lia.
  - apply (check_accepts_exactly_the_parameter_types f _ _ [n; n]
             Example.s0 Hf); [reflexivity|]. cbn. discriminate.
Defined.

(** *** [getGlobalString] *)

(** [getGlobalString] never looks for an existing constant: every call
    appends one more unnamed, private, constant array holding the string
    and its terminator, leaves the globals before it and everything else
    in place, and returns a pointer of type [i8*] to the first character
    of the new global.  Two calls with the same string give two globals
    and two different pointers. *)
Theorem getGlobalString_appends_a_fresh_constant (str : string) (s : KState) :
  exists v s',
    getGlobalString str s = Ok v s' /\
    s' = with_globals
           (globals (M s) ++
            [mkGlobal "" (ArrayTy (N.of_nat (String.length str) + 1) i8)
                      true PrivateLinkage (Some (ConstantArrayStr str))
                      true 1]) s /\
    type_of v = PointerTy i8 /\
    (forall TD' m,
       eval TD' m v = MPtr (LGlobal (length (globals (M s)))) 0) /\
    exists v2 s2,
      getGlobalString str s' = Ok v2 s2 /\
      v2 <> v /\
      (forall TD' m,
         eval TD' m v2 = MPtr (LGlobal (S (length (globals (M s))))) 0) /\
      length (globals (M s2)) = S (S (length (globals (M s)))).
Proof.
  exists (str_ptr (length (globals (M s))) str),
    (with_globals (globals (M s) ++ [str_global str]) s).
  split; [reflexivity|]. split; [reflexivity|].
  split; [reflexivity|]. split.
  { intros TD' m. apply eval_str_ptr. }
  exists (str_ptr (S (length (globals (M s)))) str),
    (with_globals ((globals (M s) ++ [str_global str]) ++ [str_global str]) s).
  split; [|split; [|split]].
  - unfold getGlobalString. kunfold. unfold get, modify_module. kred.
    cbn [with_globals M set_globals globals moduleIdentifier functions
         done errs written opened fresh].
    rewrite length_app, Nat.add_1_r. reflexivity.
  - unfold str_ptr. intros [= H]. lia.
  - intros TD' m. apply eval_str_ptr.
  - cbn [with_globals M set_globals globals]. rewrite !length_app.
    cbn [length]. lia.
Qed.

(** *** [addGlobals] *)

Lemma with_globals_same s : with_globals (globals (M s)) s = s.
Proof. destruct s as [[? ? ?] ? ? ? ? ?]. reflexivity. Qed.

Lemma with_globals_twice gs gs' s :
  with_globals gs (with_globals gs' s) = with_globals gs s.
Proof. reflexivity. Qed.

Lemma add_loop_any s : forall todo seen,
  for_each (indexed (length seen) todo) add_body
           (with_globals (seen ++ todo) s) =
  Ok tt (with_globals (seen ++ map nulled todo) s).
Proof.
  induction todo as [|g todo IH]; intros seen; [reflexivity|].
  rewrite indexed_cons. cbn [for_each add_body map]. unfold nulled at 1.
  unfold isDeclaration. kunfold.
  specialize (IH (seen ++ [g])) as IH1.
  specialize (IH (seen ++ [set_initializer
                             (Some (ConstantNull (gv_valueType g))) g])).
  rewrite length_app, Nat.add_1_r in IH, IH1. cbn [length] in IH, IH1.
  norm_app_in IH. norm_app_in IH1.
  destruct (hasInitializer g); cbn [negb orb]; kred.
  - exact IH1.
  - unfold setInitializer, modify_module.
    cbn [with_globals M set_globals globals moduleIdentifier functions
         done errs written opened fresh].
    rewrite alter_middle. exact IH.
Qed.

Lemma nulled_nulled g : nulled (nulled g) = nulled g.
Proof.
  unfold nulled at 1. now rewrite hasInitializer_nulled.
Qed.

(** [addGlobals] never fails and touches nothing but initializers: the
    globals keep their number, order, names and types, a global that has
    an initializer keeps it, and one that has none gets the null value of
    its type, so that afterwards no global is a declaration.  Running it
    again changes nothing. *)
Theorem addGlobals_defines_every_declared_global (s : KState) :
  exists s',
    addGlobals s = Ok tt s' /\
    s' = with_globals
           (map (fun g => if hasInitializer g then g
                          else set_initializer
                                 (Some (ConstantNull (gv_valueType g))) g)
                (globals (M s))) s /\
    Forall (fun g => hasInitializer g = true) (globals (M s')) /\
    addGlobals s' = Ok tt s'.
Proof.
  assert (H : forall s, addGlobals s =
                        Ok tt (with_globals (map nulled (globals (M s))) s)).
  { intros s1. unfold addGlobals. kunfold. unfold global_list. kunfold.
    unfold get. kred.
    pose proof (add_loop_any s1 (globals (M s1)) []) as L.
    cbn [app length] in L. rewrite with_globals_same in L. exact L. }
  eexists. split; [apply H|]. split; [reflexivity|]. split.
  - cbn [with_globals M set_globals globals]. apply Forall_forall.
    intros g Hg. apply in_map_iff in Hg as (g0 & <- & _).
    apply hasInitializer_nulled.
  - rewrite H. cbn [with_globals M set_globals globals].
    rewrite with_globals_twice. f_equal. f_equal.
    rewrite map_map. apply map_ext. intros g. apply nulled_nulled.
Qed.

(** *** [makeAiStateSymbolic] *)

Lemma ai_loop_skip env kf BB s : forall (l : list (nat * GlobalVariable)),
  Forall (fun p => isAiState (snd p) = false) l ->
  for_each l (fun '(idx, GV) =>
    if negb (isAiState GV) then mret tt
    else
      setInitializer idx (ConstantInt_get intType 0);;
      glob_str ← getGlobalString (gv_name GV);
      ci ← call_klee_make_symbolic env kf glob_str BB intType
                                   (global_addr idx GV) None;
      push_back BB ci;;
      create_at_end BB (Store (ConstantInt_get intType 0)
                              (global_addr idx GV) true);;
      mret tt) s = Ok tt s.
Proof.
  induction l as [|[idx g] l IH]; intros H; [reflexivity|].
  inversion H as [|? ? Hg Hl]; subst. cbn [snd] in Hg.
  cbn [for_each]. rewrite Hg. cbn [negb]. kunfold. kred.
  now apply IH.
Qed.

(** In a module none of whose globals is named with the prefix
    [__ai_state_], [makeAiStateSymbolic] does nothing at all, whatever
    function and block it is given. *)
Theorem makeAiStateSymbolic_without_state_variables
  (env : Services) (klee_make_symbolic : Function) (BB : BBRef) (s : KState) :
  Forall (fun g => isAiState g = false) (globals (M s)) ->
  makeAiStateSymbolic env klee_make_symbolic BB s = Ok tt s.
Proof.
  intros H. unfold makeAiStateSymbolic. kunfold. unfold global_list.
  kunfold. unfold get. kred. apply ai_loop_skip.
  apply Forall_forall. intros [i g] Hin. cbn [snd].
  apply list_elem_of_In, elem_of_lookup_imap in Hin as (k & g' & [= -> ->] & Hk).
  rewrite Forall_forall in H. apply H. eapply lookup_In; eauto.
Qed.

Lemma makeAiStateSymbolic_witness :
  Forall (fun g => isAiState g = false)
         (globals (M (with_globals [Example.ext] Example.s0))) /\
  makeAiStateSymbolic Example.env0 Example.fB (1%nat, "entry")
                      (with_globals [Example.ext] Example.s0)
    = Ok tt (with_globals [Example.ext] Example.s0).
Proof.
  assert (H : Forall (fun g => isAiState g = false)
                     (globals (M (with_globals [Example.ext] Example.s0)))).
  { repeat constructor. }
  split; [exact H|].
  exact (makeAiStateSymbolic_without_state_variables Example.env0
           Example.fB (1%nat, "entry") _ H).
Defined.

(** *** The globals of an artifact *)

Lemma zeroed_not_state g : isAiState g = false -> zeroed g = g.
Proof. intros H. unfold zeroed. now rewrite H. Qed.

Lemma nulled_initialized g : hasInitializer g = true -> nulled g = g.
Proof. intros H. unfold nulled. now rewrite H. Qed.

Lemma map_str_global_fixed (f : GlobalVariable -> GlobalVariable)
  (l : list string) :
  (forall str, f (str_global str) = str_global str) ->
  map f (map str_global l) = map str_global l.
Proof.
  intros H. rewrite map_map. apply map_ext. intros a. apply H.
Qed.

Lemma filter_state_strings (l : list string) :
  List.filter isAiState (map str_global l) = [].
Proof. induction l; [reflexivity|]. cbn. assumption. Qed.

Lemma h_globals_eq s F :
  h_globals s F =
  map (fun g => nulled (zeroed g)) (globals (M s)) ++
  map str_global
      (map param_label (fn_args F) ++
       map gv_name (List.filter isAiState (globals (M s))) ++
       [lock_msg; "n/a"; "main"]).
Proof.
  unfold h_globals, h_globals3, h_globals1, ai_strings, check_strings.
  rewrite <- (map_map param_label str_global).
  rewrite !map_app, List.filter_app, filter_state_strings, app_nil_r.
  rewrite (map_str_global_fixed zeroed) by reflexivity.
  rewrite (map_str_global_fixed nulled) by reflexivity.
  rewrite <- (map_map gv_name str_global).
  rewrite (map_str_global_fixed nulled) by reflexivity.
  rewrite (map_map zeroed nulled). cbn [map].
  now rewrite <- !app_assoc.
Qed.

(** The globals of a written artifact are those the module had, in
    place, followed by the string constants of the harness: one label
    per formal parameter of the candidate, one name per state variable,
    and the three strings of the failure report.  Of the module's globals
    only initializers change: a state variable gets zero, any other
    global without initializer gets the null value of its type, and a
    global that is not a state variable and has an initializer is left
    exactly as it was. *)
Theorem artifact_globals
  (env : Services) (s : KState) (F : Function) (s' : KState)
  (name : string) (M' : Module) :
  writeMain env F s = Ok tt s' ->
  written s' = written s ++ [(name, M')] ->
  globals M' =
    map (fun g => if isAiState g
                  then set_initializer (Some (ConstantInt intType 0)) g
                  else if hasInitializer g then g
                  else set_initializer
                         (Some (ConstantNull (gv_valueType g))) g)
        (globals (M s)) ++
    map str_global
        (map param_label (fn_args F) ++
         map gv_name (List.filter isAiState (globals (M s))) ++
         ["leaving function with lock held"; "n/a"; "main"]) /\
  forall i g,
    globals (M s) !! i = Some g ->
    exists g',
      globals M' !! i = Some g' /\
      gv_name g' = gv_name g /\ gv_valueType g' = gv_valueType g /\
      gv_linkage g' = gv_linkage g /\ gv_isConstant g' = gv_isConstant g /\
      (isAiState g = false -> hasInitializer g = true -> g' = g).
Proof.
  intros Hw Hwr.
  destruct (writeMain_artifact env F s s' name M' Hw Hwr)
    as (af & dl & decls & ds & _ & _ & _ & _ & _ & -> & _).
  cbn [built st M globals]. rewrite h_globals_eq.
  assert (Hf : forall g,
    nulled (zeroed g) =
    if isAiState g then set_initializer (Some (ConstantInt intType 0)) g
    else if hasInitializer g then g
    else set_initializer (Some (ConstantNull (gv_valueType g))) g).
  { intros g. destruct (isAiState g) eqn:E.
    - now apply nulled_zeroed_state.
    - rewrite (zeroed_not_state g E). reflexivity. }
  split.
  - f_equal. apply map_ext. exact Hf.
  - intros i g Hi. exists (nulled (zeroed g)). split.
    + apply lookup_app_l_Some. now apply (lookup_map (fun g => nulled (zeroed g))).
    + rewrite Hf.
      destruct (isAiState g); [repeat split; intros; discriminate|].
      destruct (hasInitializer g); repeat split; intros; discriminate.
Qed.

Lemma artifact_globals_witness :
  let s1 := state_of (writeMain Example.env0 Example.fA Example.s0) in
  exists M',
  (writeMain Example.env0 Example.fA Example.s0 = Ok tt s1 /\
   written s1 = written Example.s0 ++ [("mod.main.A.o", M')]) /\
  globals M' =
    [set_initializer (Some (ConstantInt intType 0)) Example.lock;
     set_initializer (Some (ConstantNull (gv_valueType Example.ext)))
                     Example.ext;
     str_global "p"; str_global "noname"; str_global "__ai_state_lock";
     str_global "leaving function with lock held"; str_global "n/a";
     str_global "main"].
Proof.
  intros s1.
  assert (H1 : writeMain Example.env0 Example.fA Example.s0 = Ok tt s1)
    by (vm_compute; reflexivity).
  eexists.
  assert (H2 : written s1 = written Example.s0 ++ [("mod.main.A.o", _)])
    by (vm_compute; reflexivity).
  split; [split; [exact H1|exact H2]|].
  exact (proj1 (artifact_globals Example.env0 Example.s0 Example.fA s1
                  "mod.main.A.o" _ H1 H2)).
Defined.

(** *** Integer parameters *)

Section IntegerFacts.

Variable env : Services.
Variable s0 : KState.
Variable af_id : nat.
Variable choice : nat -> Z.
Variable external : nat -> list mval -> (loc -> Z) -> option (loc -> Z).

Hypothesis af_not_klee : af_id <> klee_id env s0.

#[local] Abbreviation run_insts :=
  (exec_insts (TD env) (klee_id env s0) af_id choice external).

Ltac eqb_ids :=
  repeat match goal with
         | |- context [Nat.eqb ?a ?a] => rewrite (Nat.eqb_refl a)
         | |- context [Nat.eqb ?a ?b] =>
             replace (Nat.eqb a b) with false
               by (symmetry; apply Nat.eqb_neq; lia)
         end.

Ltac crunch :=
  repeat (progress
            (cbn [eval set_reg regs mem heap symbolic map type_of pointee
                  mark_symbolic set_mem val inst_type kind_type inst_kind
                  inst_id loc_eqb];
             rewrite ?eval_const_get;
             cbv beta iota zeta; eqb_ids)).

(** The code for an integer parameter, run when its stack slot has been
    allocated: the slot is marked symbolic and what the engine chose for
    it is loaded into the register that is passed. *)
Lemma integer_code_exec n glen param bits m :
  arg_type param = IntegerTy bits ->
  regs m n = MPtr (LStack n) 0 ->
  let c := integer_code env s0 n glen param in
  exists r m',
    pc_val c = Some (VInst r (IntegerTy bits)) /\
    (n < r < pc_next c)%nat /\
    run_insts (pc_back c) m = Next m' /\
    regs m' r = MInt (choice (length (symbolic m))) /\
    symbolic m' =
      symbolic m ++
      [mkMarking (MPtr (LStack n) 0)
                 (MInt (getTypeSize env (IntegerTy bits) mod 2 ^ 32))
                 (MPtr (LGlobal glen) 0)].
Proof.
  intros Hty Hreg c. subst c.
  unfold integer_code, klee_pre, klee_call, klee_next,
    klee_cast, klee_addr, klee_n1, klee_mul, klee_size, klee_n2.
  rewrite Hty.
  change (type_of (val (mkInst n (Alloca (IntegerTy bits)) None)))
    with (PointerTy (IntegerTy bits)).
  destruct (negb (Ty_eqb (PointerTy (IntegerTy bits)) voidPtrType)) eqn:Hc;
    cbn [pc_val pc_back pc_next app].
  - eexists _, _. split; [reflexivity|]. split; [cbn; lia|].
    cbn [exec_insts]. unfold exec_inst, exec_call.
    unfold uintType, i32.
    crunch. rewrite Hreg.
    change (callee_id (fn_value (klee_fn env s0)))
      with (Some (klee_id env s0)).
    cbv beta iota zeta.
    replace (klee_id env s0 =? af_id)%nat with false
      by (symmetry; apply Nat.eqb_neq; congruence).
    crunch. rewrite ?Hreg. crunch.
    split; [reflexivity|]. split; [|reflexivity].
    crunch. reflexivity.
  - eexists _, _. split; [reflexivity|]. split; [cbn; lia|].
    cbn [exec_insts]. unfold exec_inst, exec_call.
    unfold uintType, i32.
    crunch. rewrite ?Hreg.
    change (callee_id (fn_value (klee_fn env s0)))
      with (Some (klee_id env s0)).
    cbv beta iota zeta.
    replace (klee_id env s0 =? af_id)%nat with false
      by (symmetry; apply Nat.eqb_neq; congruence).
    crunch. rewrite ?Hreg. crunch.
    split; [reflexivity|]. split; [|reflexivity].
    crunch. reflexivity.
Qed.

End IntegerFacts.

Lemma getTypeSize_integer env bits :
  getTypeSize env (IntegerTy bits) mod 2 ^ 32 = getTypeSize env (IntegerTy bits).
Proof.
  unfold getTypeSize. cbn [isFunctionTy isSized isStructTy negb].
  unfold to_unsigned. apply Z.mod_mod. lia.
Qed.

(** For an integer-typed formal parameter [P] of a candidate whose
    artifact is written, the entry block allocates a stack slot of [P]'s
    type at its very start, marks [getTypeSize] of that type bytes at the
    slot symbolic under a tag that points to the string constant holding
    [P]'s name (or "noname"), and passes for [P] the register loaded from
    the slot: when the call of the candidate is reached it holds what the
    engine chose for that marking. *)
Theorem integer_parameter_gets_symbolic_value
  (env : Services) (s : KState) (F : Function) (s' : KState)
  (name : string) (M' : Module)
  (args1 : list Argument) (param : Argument) (args2 : list Argument)
  (bits : N) :
  writeMain env F s = Ok tt s' ->
  written s' = written s ++ [(name, M')] ->
  fn_args F = args1 ++ param :: args2 ->
  arg_type param = IntegerTy bits ->
  exists mainF pre call post blocks vals1 r vals2 slot k,
    In mainF (functions M') /\
    fn_blocks mainF = mkBB "entry" (pre ++ call :: post) :: blocks /\
    inst_kind call =
      Call (fn_value F) (vals1 ++ VInst r (IntegerTy bits) :: vals2) /\
    length vals1 = length args1 /\
    In (mkInst slot (Alloca (IntegerTy bits)) None) pre /\
    globals M' !! k = Some (str_global (param_label param)) /\
    forall af_id choice external m,
      af_id <> klee_id env s ->
      exists m' j,
        exec_insts (TD env) (klee_id env s) af_id choice external pre m
          = Next m' /\
        regs m' r = MInt (choice j) /\
        symbolic m' !! j =
          Some (mkMarking (MPtr (LStack slot) 0)
                          (MInt (getTypeSize env (IntegerTy bits)))
                          (MPtr (LGlobal k) 0)).
Proof.
  intros Hw Hwr Hargs Hty.
  destruct (writeMain_artifact env F s s' name M' Hw Hwr)
    as (af & dl & decls & ds & Hd & Hsup & _ & _ & _ & -> & _).
  unfold all_supported in Hsup. rewrite Hargs in Hsup.
  rewrite forallb_app in Hsup. apply andb_true_iff in Hsup as [Hsup1 _].
  set (glen := length (globals (M s))).
  set (r1 := params_code env s (fresh s) glen args1).
  set (n := ps_next r1).
  set (c := integer_code env s n (glen + length args1) param).
  set (r3 := params_code env s (pc_next c) (S (glen + length args1)) args2).
  set (al := mkInst n (Alloca (IntegerTy bits)) None).
  assert (Hfc : pc_front c = [al]).
  { subst c al. unfold integer_code. cbn [pc_front]. now rewrite Hty. }
  assert (Hp : h_params env s F =
               mkPS ((ps_front r3 ++ [al]) ++ ps_front r1)
                    (ps_back r1 ++ pc_back c ++ ps_back r3)
                    (ps_vals r1 ++ option_list (pc_val c) ++ ps_vals r3)
                    (ps_next r3)).
  { unfold h_params. rewrite Hargs, params_code_app. fold glen. fold r1.
    cbn [params_code].
    assert (Hpc : param_code env s (ps_next r1) (glen + length args1) param
                  = c).
    { unfold param_code. now rewrite Hty. }
    rewrite !Hpc. fold r3. cbn [ps_front ps_back ps_vals ps_next].
    now rewrite Hfc. }
  assert (Hval : exists r, pc_val c = Some (VInst r (IntegerTy bits)) /\
                           (n < r < pc_next c)%nat).
  { destruct (integer_code_exec env s (S (klee_id env s)) (fun _ => 0)
                (fun _ _ mm => Some mm) (Nat.neq_succ_diag_l _)
                n (glen + length args1) param bits
                (mkMachine (fun _ => MPtr (LStack n) 0) (fun _ => 0) [] [])
                Hty eq_refl) as (r & _ & Hv & Hr & _).
    exists r. now split. }
  destruct Hval as (r & Hval & Hr).
  eexists (main_fn env s (h_blocks env s F af dl)), (h_prefix env s F),
    (h_call env s F), (h_tail env s F), _, (ps_vals r1), r, (ps_vals r3),
    n, (glen + length args1)%nat.
  split; [cbn [built st M functions]; apply in_or_app; right; now left|].
  split; [reflexivity|]. split.
  { unfold h_call. cbn [inst_kind]. rewrite Hp. cbn [ps_vals].
    now rewrite Hval. }
  split; [now apply params_code_length_eq|].
  assert (Hpre : h_prefix env s F =
                 ps_front r3 ++ [al] ++ (ps_front r1 ++ ps_back r1) ++
                 pc_back c ++ (ps_back r3 ++ fst (h_ai env s F))).
  { unfold h_prefix. rewrite Hp. cbn [ps_front ps_back].
    now rewrite <- !app_assoc. }
  split.
  { rewrite Hpre. apply in_or_app. right. now left. }
  split; [now apply h_globals_label with (args2 := args2)|].
  intros af_id choice external m Haf.
  destruct (params_code_plain env s args1 (fresh s) glen) as [Hf1 Hb1].
  destruct (params_code_plain env s args2 (pc_next c)
              (S (glen + length args1))) as [Hf3 Hb3].
  fold r1 in Hf1, Hb1. fold r3 in Hf3, Hb3.
  destruct (params_code_ids env s args1 (fresh s) glen) as (_ & Hi1f & Hi1b).
  fold r1 in Hi1f, Hi1b. cbn zeta in Hi1f, Hi1b. fold n in Hi1f, Hi1b.
  rewrite Hpre.
  rewrite (exec_insts_app_gen _ _ _ _ _ (ps_front r3)).
  destruct (plain_list_next env s af_id choice external Haf
              (ps_front r3) m Hf3) as (ma & ->).
  rewrite (exec_insts_app_gen _ _ _ _ _ [al]).
  cbn [exec_insts]. unfold exec_inst at 1. cbn [al inst_kind inst_id].
  rewrite (exec_insts_app_gen _ _ _ _ _ (ps_front r1 ++ ps_back r1)).
  destruct (plain_list_next env s af_id choice external Haf
              (ps_front r1 ++ ps_back r1)
              (set_reg n (MPtr (LStack n) 0) ma)) as (m1 & He1).
  { apply Forall_app; split; assumption. }
  rewrite He1.
  destruct (exec_insts_frame _ _ _ _ _ _ _ _ He1) as (Hfr1 & _ & _).
  assert (Hreg1 : regs m1 n = MPtr (LStack n) 0).
  { rewrite Hfr1.
    - cbn [set_reg regs]. now rewrite Nat.eqb_refl.
    - apply Forall_app. split.
      + eapply Forall_impl; [|exact Hi1f]. intros x Hx. cbv beta in Hx |- *. lia.
      + eapply Forall_impl; [|exact Hi1b]. intros x Hx. cbv beta in Hx |- *. lia. }
  destruct (integer_code_exec env s af_id choice external Haf
              n (glen + length args1) param bits m1 Hty Hreg1)
    as (r' & m2 & Hval' & _ & He2 & Hreg2 & Hsym2).
  fold c in Hval', He2. rewrite Hval in Hval'. injection Hval' as <-.
  rewrite (exec_insts_app_gen _ _ _ _ _ (pc_back c)), He2.
  destruct (plain_list_next env s af_id choice external Haf
              (ps_back r3 ++ fst (h_ai env s F)) m2) as (m3 & He3).
  { apply Forall_app. split; [assumption|]. apply ai_code_plain. }
  rewrite He3. exists m3, (length (symbolic m1)). split; [reflexivity|].
  destruct (exec_insts_frame _ _ _ _ _ _ _ _ He3)
    as (Hfr & _ & (sy & Hsy)).
  split.
  - rewrite Hfr; [exact Hreg2|].
    destruct (params_code_ids env s args2 (pc_next c)
                (S (glen + length args1))) as (Hn3 & _ & Hi3).
    fold r3 in Hn3, Hi3. cbn zeta in Hn3, Hi3.
    destruct (ai_code_ids env s (indexed 0 (h_globals1 s F))
                (ps_next (h_params env s F)) (length (h_globals1 s F)))
      as (_ & Hia).
    fold (h_ai env s F) in Hia. rewrite Hp in Hia. cbn [ps_next] in Hia.
    apply Forall_app. split.
    + eapply Forall_impl; [|exact Hi3]. intros x Hx. cbv beta in Hx |- *. lia.
    + eapply Forall_impl; [|exact Hia]. intros x Hx. cbv beta in Hx |- *. lia.
  - rewrite Hsy, Hsym2, getTypeSize_integer.
    rewrite lookup_app_l.
    + now rewrite list_lookup_middle.
    + rewrite length_app. cbn [length]. lia.
Qed.

Lemma integer_parameter_witness :
  let s1 := state_of (writeMain Example.env0 Example.fA Example.s0) in
  let param := mkArg "" i32 in
  exists M',
  (writeMain Example.env0 Example.fA Example.s0 = Ok tt s1 /\
   written s1 = written Example.s0 ++ [("mod.main.A.o", M')] /\
   fn_args Example.fA = [mkArg "p" (PointerTy i32)] ++ param :: [] /\
   arg_type param = IntegerTy 32) /\
  exists mainF pre call post blocks vals1 r vals2 slot k,
    In mainF (functions M') /\
    fn_blocks mainF = mkBB "entry" (pre ++ call :: post) :: blocks /\
    inst_kind call =
      Call (fn_value Example.fA) (vals1 ++ VInst r (IntegerTy 32) :: vals2) /\
    length vals1 = length [mkArg "p" (PointerTy i32)] /\
    In (mkInst slot (Alloca (IntegerTy 32)) None) pre /\
    globals M' !! k = Some (str_global "noname") /\
    forall af_id choice external m,
      af_id <> klee_id Example.env0 Example.s0 ->
      exists m' j,
        exec_insts (TD Example.env0) (klee_id Example.env0 Example.s0)
                   af_id choice external pre m = Next m' /\
        regs m' r = MInt (choice j) /\
        symbolic m' !! j =
          Some (mkMarking (MPtr (LStack slot) 0)
                          (MInt (getTypeSize Example.env0 (IntegerTy 32)))
                          (MPtr (LGlobal k) 0)).
Proof.
  intros s1 param.
  assert (H1 : writeMain Example.env0 Example.fA Example.s0 = Ok tt s1)
    by (vm_compute; reflexivity).
  eexists.
  assert (H2 : written s1 = written Example.s0 ++ [("mod.main.A.o", _)])
    by (vm_compute; reflexivity).
  split; [split; [exact H1|split; [exact H2|split; reflexivity]]|].
  exact (integer_parameter_gets_symbolic_value Example.env0 Example.s0
           Example.fA s1 "mod.main.A.o" _ [mkArg "p" (PointerTy i32)] param
           [] 32%N H1 H2 eq_refl eq_refl).
Defined.

(** *** The call of the candidate *)

Lemma check_tail_not_call v n gs : Forall (not_call_to v) (check_tail n gs).
Proof.
  unfold check_tail. apply Forall_app. split.
  - generalize zero as sum. generalize (indexed 0 gs) as l. revert n.
    intros n l. revert n. induction l as [|[idx g] l IH]; intros n sum;
      [apply Forall_nil|].
    cbn [sum_code]. destruct (isAiState g); [|apply IH].
    cbn [fst]. repeat (apply Forall_cons; [intros args; discriminate|]).
    apply IH.
  - repeat (apply Forall_cons; [intros args; discriminate|]).
    apply Forall_nil.
Qed.

Lemma Forall2_eq_map {A B} (f : A -> B) (l1 : list B) (l2 : list A) :
  Forall2 (fun t a => t = f a) l1 l2 -> map f l2 = l1.
Proof.
  induction 1 as [|t a ts l Ht _ IH]; [reflexivity|].
  cbn [map]. now rewrite IH, Ht.
Qed.

Lemma klee_fn_not_candidate env s F :
  In F (functions (M s)) -> fn_value (klee_fn env s) <> fn_value F.
Proof.
  intros Hin [= H _].
  pose proof (fresh_fn_id_above (M s)) as Hab.
  rewrite Forall_forall in Hab. specialize (Hab F Hin). lia.
Qed.

(** In a written artifact for a candidate of the module, the entry block
    calls the candidate exactly once, with one argument for each formal
    parameter, in order, each of the type of its parameter. *)
Theorem candidate_called_once_with_typed_arguments
  (env : Services) (s : KState) (F : Function) (s' : KState)
  (name : string) (M' : Module) :
  In F (functions (M s)) ->
  writeMain env F s = Ok tt s' ->
  written s' = written s ++ [(name, M')] ->
  exists mainF pre call post blocks args,
    In mainF (functions M') /\
    fn_blocks mainF = mkBB "entry" (pre ++ call :: post) :: blocks /\
    inst_kind call = Call (fn_value F) args /\
    map type_of args = map arg_type (fn_args F) /\
    Forall (not_call_to (fn_value F)) pre /\
    Forall (not_call_to (fn_value F)) post.
Proof.
  intros Hin Hw Hwr.
  destruct (writeMain_artifact env F s s' name M' Hw Hwr)
    as (af & dl & decls & ds & Hd & Hsup & _ & _ & _ & -> & _).
  eexists (main_fn env s (h_blocks env s F af dl)), (h_prefix env s F),
    (h_call env s F), (h_tail env s F), _, _.
  split; [cbn [built st M functions]; apply in_or_app; right; now left|].
  split; [reflexivity|]. split; [reflexivity|]. split; [|split].
  - apply Forall2_eq_map.
    exact (params_code_types env s (fn_args F) (fresh s)
             (length (globals (M s))) Hsup).
  - apply h_prefix_not_call. now apply klee_fn_not_candidate.
  - apply check_tail_not_call.
Qed.

Lemma candidate_called_witness :
  let s1 := state_of (writeMain Example.env0 Example.fA Example.s0) in
  exists M',
  (In Example.fA (functions (M Example.s0)) /\
   writeMain Example.env0 Example.fA Example.s0 = Ok tt s1 /\
   written s1 = written Example.s0 ++ [("mod.main.A.o", M')]) /\
  exists mainF pre call post blocks args,
    In mainF (functions M') /\
    fn_blocks mainF = mkBB "entry" (pre ++ call :: post) :: blocks /\
    inst_kind call = Call (fn_value Example.fA) args /\
    map type_of args = [PointerTy i32; i32] /\
    Forall (not_call_to (fn_value Example.fA)) pre /\
    Forall (not_call_to (fn_value Example.fA)) post.
Proof.
  intros s1.
  assert (H0 : In Example.fA (functions (M Example.s0)))
    by (right; left; reflexivity).
  assert (H1 : writeMain Example.env0 Example.fA Example.s0 = Ok tt s1)
    by (vm_compute; reflexivity).
  eexists.
  assert (H2 : written s1 = written Example.s0 ++ [("mod.main.A.o", _)])
    by (vm_compute; reflexivity).
  split; [split; [exact H0|split; [exact H1|exact H2]]|].
  exact (candidate_called_once_with_typed_arguments Example.env0 Example.s0
           Example.fA s1 "mod.main.A.o" _ H0 H1 H2).
Defined.

(** *** Stack slots *)

Lemma klee_pre_no_alloca env n ty addr arr :
  Forall (fun i => is_alloca i = false) (klee_pre env n ty addr arr).
Proof.
  unfold klee_pre, klee_cast, klee_mul. apply Forall_app. split.
  - destruct (negb _); repeat constructor.
  - destruct arr; repeat constructor.
Qed.

Lemma param_code_allocas env s0 n glen param :
  let c := param_code env s0 n glen param in
  map inst_kind (pc_front c) =
    map Alloca (List.filter isIntegerTy [arg_type param]) /\
  Forall (fun i => is_alloca i = false) (pc_back c).
Proof.
  unfold param_code.
  destruct (arg_type param) eqn:Hty; cbn [List.filter isIntegerTy map];
    try (split; [reflexivity|apply Forall_nil]).
  - unfold integer_code. cbn [pc_front pc_back map inst_kind].
    rewrite Hty. split; [reflexivity|].
    apply Forall_app. split; [apply klee_pre_no_alloca|repeat constructor].
  - unfold pointer_code.
    destruct (negb (Ty_eqb (PointerTy t) voidPtrType));
      cbn [pc_front pc_back map]; (split; [reflexivity|]);
      (apply Forall_cons; [reflexivity|]);
      (apply Forall_app; split; [apply klee_pre_no_alloca|repeat constructor]).
Qed.

Lemma params_code_allocas env s0 : forall args n glen,
  let r := params_code env s0 n glen args in
  map inst_kind (ps_front r) =
    map Alloca (rev (List.filter isIntegerTy (map arg_type args))) /\
  Forall (fun i => is_alloca i = false) (ps_back r).
Proof.
  induction args as [|param rest IH]; intros n glen.
  - split; [reflexivity|apply Forall_nil].
  - cbn [params_code ps_front ps_back]. cbn zeta.
    destruct (param_code_allocas env s0 n glen param) as [Hf Hb].
    destruct (IH (pc_next (param_code env s0 n glen param)) (S glen))
      as [Hf' Hb'].
    cbn zeta in *. split.
    + rewrite map_app, Hf, Hf'. cbn [map List.filter].
      destruct (isIntegerTy (arg_type param)); cbn [rev map app].
      * now rewrite map_app.
      * now rewrite app_nil_r.
    + apply Forall_app. now split.
Qed.

Lemma ai_code_no_alloca env s0 : forall gs n glen,
  Forall (fun i => is_alloca i = false) (fst (ai_code env s0 n glen gs)).
Proof.
  induction gs as [|[idx g] gs IH]; intros n glen; [apply Forall_nil|].
  cbn [ai_code]. destruct (isAiState g); [|apply IH].
  cbn [fst]. apply Forall_app. split; [|apply IH].
  unfold ai_insts. apply Forall_app. split; [apply klee_pre_no_alloca|].
  repeat constructor.
Qed.

Lemma check_tail_no_alloca n gs :
  Forall (fun i => is_alloca i = false) (check_tail n gs).
Proof.
  unfold check_tail. apply Forall_app. split; [|repeat constructor].
  generalize zero as sum. generalize (indexed 0 gs) as l.
  intros l. revert n. induction l as [|[idx g] l IH]; intros n sum;
    [apply Forall_nil|].
  cbn [sum_code]. destruct (isAiState g); [|apply IH].
  cbn [fst]. repeat (apply Forall_cons; [reflexivity|]). apply IH.
Qed.

(** The stack slots of a harness are allocated at the very start of its
    entry block and nowhere else: one slot per integer parameter of the
    candidate, of the parameter's type, the slot of a later parameter
    before the slot of an earlier one (each is pushed at the front). *)
Theorem stack_slots_lead_the_entry_block
  (env : Services) (s : KState) (F : Function) (s' : KState)
  (name : string) (M' : Module) :
  writeMain env F s = Ok tt s' ->
  written s' = written s ++ [(name, M')] ->
  exists mainF allocas rest blocks,
    In mainF (functions M') /\
    fn_blocks mainF = mkBB "entry" (allocas ++ rest) :: blocks /\
    map inst_kind allocas =
      map Alloca (rev (List.filter isIntegerTy (map arg_type (fn_args F)))) /\
    Forall (fun i => is_alloca i = false) rest /\
    Forall (fun b => Forall (fun i => is_alloca i = false) (bb_insts b))
           blocks.
Proof.
  intros Hw Hwr.
  destruct (writeMain_artifact env F s s' name M' Hw Hwr)
    as (af & dl & decls & ds & Hd & Hsup & _ & _ & _ & -> & _).
  destruct (params_code_allocas env s (fn_args F) (fresh s)
              (length (globals (M s)))) as [Hf Hb].
  fold (h_params env s F) in Hf, Hb. cbn zeta in Hf, Hb.
  exists (main_fn env s (h_blocks env s F af dl)),
    (ps_front (h_params env s F)),
    (ps_back (h_params env s F) ++ fst (h_ai env s F) ++
     h_call env s F :: h_tail env s F),
    [mkBB "final" [h_ret env s F]; mkBB "assertBB" (h_assert env s F af dl)].
  split; [cbn [built st M functions]; apply in_or_app; right; now left|].
  split.
  { unfold main_fn, h_blocks, h_entry, h_prefix. cbn [fn_blocks].
    now rewrite <- !app_assoc. }
  split; [exact Hf|]. split.
  - apply Forall_app. split; [exact Hb|].
    apply Forall_app. split; [apply ai_code_no_alloca|].
    apply Forall_cons; [reflexivity|]. apply check_tail_no_alloca.
  - repeat constructor.
Qed.

Lemma stack_slots_witness :
  let s1 := state_of (writeMain Example.env0 Example.fA Example.s0) in
  exists M',
  (writeMain Example.env0 Example.fA Example.s0 = Ok tt s1 /\
   written s1 = written Example.s0 ++ [("mod.main.A.o", M')]) /\
  exists mainF allocas rest blocks,
    In mainF (functions M') /\
    fn_blocks mainF = mkBB "entry" (allocas ++ rest) :: blocks /\
    map inst_kind allocas = [Alloca i32] /\
    Forall (fun i => is_alloca i = false) rest /\
    Forall (fun b => Forall (fun i => is_alloca i = false) (bb_insts b))
           blocks.
Proof.
  intros s1.
  assert (H1 : writeMain Example.env0 Example.fA Example.s0 = Ok tt s1)
    by (vm_compute; reflexivity).
  eexists.
  assert (H2 : written s1 = written Example.s0 ++ [("mod.main.A.o", _)])
    by (vm_compute; reflexivity).
  split; [split; [exact H1|exact H2]|].
  exact (stack_slots_lead_the_entry_block Example.env0 Example.s0
           Example.fA s1 "mod.main.A.o" _ H1 H2).
Defined.

(** *** A candidate without instructions *)

(** A candidate that is only declared, or whose last block is empty,
    makes [writeMain] fail: the harness is built up to the call of the
    candidate, then [F.back().back()] fails its assertion.  No file is
    written and nothing is reported. *)
Theorem candidate_without_last_instruction_aborts
  (env : Services) (s : KState) (F : Function) :
  all_supported F = true ->
  fn_blocks F = [] \/
  (exists bs b, fn_blocks F = bs ++ [b] /\ bb_insts b = []) ->
  exists s' decls,
    writeMain env F s =
      Abort (AssertionFailed "Called back() on empty list!") s' /\
    written s' = written s /\ errs s' = errs s /\
    functions (M s') =
      functions (M s) ++
      main_fn env s [mkBB "entry" (h_prefix env s F ++ [h_call env s F])]
      :: klee_fn env s :: decls.
Proof.
  intros Hsup Hempty.
  assert (Hdl : debugLoc_of F = None).
  { unfold debugLoc_of. destruct Hempty as [->|(bs & b & -> & Hb)].
    - reflexivity.
    - rewrite last_snoc, Hb. reflexivity. }
  destruct (writeMain_no_body env s F Hsup Hdl) as (decls & ->).
  eexists _, decls. split; [reflexivity|]. repeat split.
Qed.

Lemma candidate_without_last_instruction_witness :
  all_supported Example.assert_fail_fn = true /\
  fn_blocks Example.assert_fail_fn = [] /\
  exists s',
    writeMain Example.env0 Example.assert_fail_fn Example.s0 =
      Abort (AssertionFailed "Called back() on empty list!") s' /\
    written s' = written Example.s0.
Proof.
  assert (H1 : all_supported Example.assert_fail_fn = true) by reflexivity.
  assert (H2 : fn_blocks Example.assert_fail_fn = []) by reflexivity.
  split; [exact H1|]. split; [exact H2|].
  destruct (candidate_without_last_instruction_aborts Example.env0
              Example.s0 Example.assert_fail_fn H1 (or_introl H2))
    as (s' & decls & Hw & Hwr & _).
  exists s'. split; assumption.
Defined.

(** *** A whole run of a harness *)

(** A run of the entry function from its first block: the code before
    the call leaves every state variable at zero and the candidate runs.
    If its call does not return the run ends there; if it does, the run
    ends in the return of 0 or in the failure report, according to the
    sum of the state variables the candidate leaves. *)
Lemma harness_run env s F af dl f_af choice external fuel m :
  callee_id af = Some (fn_id f_af) ->
  fn_id f_af <> klee_id env s ->
  fn_id F <> fn_id f_af ->
  fn_id F <> klee_id env s ->
  exists m1,
    exec_insts (TD env) (klee_id env s) (fn_id f_af) choice external
               (h_prefix env s F) m = Next m1 /\
    (forall idx g, h_globals s F !! idx = Some g -> isAiState g = true ->
                   mem m1 (LGlobal idx) = 0) /\
    exec_blocks (TD env) (klee_id env s) (fn_id f_af) choice external
                (S (S fuel)) (h_blocks env s F af dl) "entry" m =
    match external (fn_id F)
                   (map (eval (TD env) m1) (ps_vals (h_params env s F)))
                   (mem m1) with
    | None => EndedIn (fn_id F)
    | Some mem' =>
        if Z.eqb (state_sum mem' (indexed 0 (h_globals s F)) 0) 0
        then Returned (MInt 0)
        else AssertFail [MPtr (LGlobal (length (h_globals3 s F))) 0;
                         MPtr (LGlobal (S (length (h_globals3 s F)))) 0;
                         MInt 0;
                         MPtr (LGlobal (S (S (length (h_globals3 s F))))) 0]
    end.
Proof.
  intros Hid Haf HF HFk.
  set (afid := fn_id f_af).
  assert (Hpre : exists m1,
    exec_insts (TD env) (klee_id env s) afid choice external (h_prefix env s F) m
      = Next m1 /\
    forall idx g, h_globals s F !! idx = Some g -> isAiState g = true ->
                  mem m1 (LGlobal idx) = 0).
  { unfold h_prefix. rewrite app_assoc, exec_insts_app_gen.
    destruct (params_code_plain env s (fn_args F) (fresh s)
                (length (globals (M s)))) as [Hf Hb].
    destruct (plain_list_next env s afid choice external Haf
                (ps_front (h_params env s F) ++ ps_back (h_params env s F)) m)
      as (m0 & ->); [apply Forall_app; now split|].
    destruct (ai_code_exec env s afid choice external Haf
                (indexed 0 (h_globals1 s F)) (ps_next (h_params env s F))
                (length (h_globals1 s F)) m0) as (m1 & Hm1 & Hmem).
    exists m1. split; [exact Hm1|].
    intros idx g Hl Hg.
    destruct (h_globals_state_origin s F idx g Hl Hg)
      as (g1 & Hl1 & Hg1 & Hty).
    pose proof (indexed_In 0 _ _ _ Hl1) as Hin. cbn [Nat.add] in Hin.
    now rewrite Hmem, (is_state_loc_In _ _ _ Hin Hg1). }
  destruct Hpre as (m1 & He1 & Hz). exists m1.
  split; [exact He1|]. split; [exact Hz|].
  cbn [exec_blocks].
  change (find_block (h_blocks env s F af dl) "entry")
    with (Some (mkBB "entry" (h_entry env s F))).
  cbv beta iota. cbn [bb_insts]. unfold h_entry.
  rewrite exec_insts_app_gen, He1. cbn [exec_insts].
  unfold exec_inst at 1. unfold h_call at 1. cbn [inst_kind inst_id].
  unfold exec_call. cbn [callee_id fn_value].
  replace (fn_id F =? afid)%nat with false
    by (symmetry; apply Nat.eqb_neq; exact HF).
  replace (fn_id F =? klee_id env s)%nat with false
    by (symmetry; apply Nat.eqb_neq; exact HFk).
  destruct (external (fn_id F)
              (map (eval (TD env) m1) (ps_vals (h_params env s F))) (mem m1))
    as [mem'|]; [|reflexivity].
  set (m2 := mkMachine (regs m1) mem' (heap m1) (symbolic m1)).
  destruct (check_tail_exec (TD env) (klee_id env s) afid choice external
              (S (S (S (snd (h_ai env s F))))) (h_globals s F) m2)
    as (m' & He).
  fold (h_tail env s F) in He. rewrite He.
  change (mem m2) with mem'.
  destruct (Z.eqb _ 0).
  - reflexivity.
  - change (find_block (h_blocks env s F af dl) "assertBB")
      with (Some (mkBB "assertBB" (h_assert env s F af dl))).
    cbv beta iota. unfold h_assert, assert_block. cbn [bb_insts exec_insts].
    unfold exec_inst. cbn [inst_kind inst_id]. unfold exec_call.
    rewrite Hid. subst afid. rewrite Nat.eqb_refl. reflexivity.
Qed.

Lemma candidate_not_klee env s F :
  In F (functions (M s)) -> fn_id F <> klee_id env s.
Proof.
  intros Hin. pose proof (fresh_fn_id_above (M s)) as Hab.
  rewrite Forall_forall in Hab. specialize (Hab F Hin).
  unfold klee_id, klee_fn. cbn [fn_id]. lia.
Qed.

(** A run of a written harness for a candidate of the module never gets
    stuck.  When the call of the candidate is reached every state
    variable holds zero; the candidate runs.  If its call does not return
    (a candidate is chosen because it calls [__assert_fail]), the run
    ends in that call.  If it returns, the harness returns 0 when the
    state variables it leaves sum to zero, and calls [__assert_fail]
    otherwise.  (The candidate is taken not to be [__assert_fail] itself,
    and the symbolic-marking primitive to be distinct from it.) *)
Theorem harness_returns_zero_or_reports_failure
  (env : Services) (s : KState) (F : Function) (s' : KState)
  (name : string) (M' : Module) :
  In F (functions (M s)) ->
  writeMain env F s = Ok tt s' ->
  written s' = written s ++ [(name, M')] ->
  exists mainF f_af pre call post blocks args k,
    In mainF (functions M') /\
    fn_blocks mainF = mkBB "entry" (pre ++ call :: post) :: blocks /\
    inst_kind call = Call (fn_value F) args /\
    In f_af (functions M') /\ fn_name f_af = "__assert_fail" /\
    forall choice external fuel m,
      fn_id f_af <> klee_id env s ->
      fn_id F <> fn_id f_af ->
      exists m1,
        exec_insts (TD env) (klee_id env s) (fn_id f_af) choice external
                   pre m = Next m1 /\
        (forall idx g, globals M' !! idx = Some g -> isAiState g = true ->
                       mem m1 (LGlobal idx) = 0) /\
        exec_blocks (TD env) (klee_id env s) (fn_id f_af) choice external
                    (S (S fuel)) (fn_blocks mainF) "entry" m =
        match external (fn_id F) (map (eval (TD env) m1) args) (mem m1) with
        | None => EndedIn (fn_id F)
        | Some mem' =>
            if Z.eqb (state_sum mem' (indexed 0 (globals M')) 0) 0
            then Returned (MInt 0)
            else AssertFail [MPtr (LGlobal k) 0; MPtr (LGlobal (S k)) 0;
                             MInt 0; MPtr (LGlobal (S (S k))) 0]
        end.
Proof.
  intros HinF Hw Hwr.
  destruct (writeMain_artifact env F s s' name M' Hw Hwr)
    as (af & dl & decls & ds & Hd & _ & _ & (f_af & Hin & Hnm & Hid) & _
        & -> & _).
  eexists (main_fn env s (h_blocks env s F af dl)), f_af,
    (h_prefix env s F), (h_call env s F), (h_tail env s F), _, _,
    (length (h_globals3 s F)).
  split; [cbn [built st M functions]; apply in_or_app; right; now left|].
  split; [reflexivity|]. split; [reflexivity|].
  split; [assumption|]. split; [assumption|].
  intros choice external fuel m Haf HF.
  destruct (harness_run env s F af dl f_af choice external fuel m Hid Haf HF
              (candidate_not_klee env s F HinF)) as (m1 & He & Hz & Hr).
  exists m1. split; [exact He|]. split; [exact Hz|]. exact Hr.
Qed.

Lemma harness_run_witness :
  let s1 := state_of (writeMain Example.env0 Example.fA Example.s0) in
  exists M',
  (In Example.fA (functions (M Example.s0)) /\
   writeMain Example.env0 Example.fA Example.s0 = Ok tt s1 /\
   written s1 = written Example.s0 ++ [("mod.main.A.o", M')]) /\
  exists mainF f_af pre call post blocks args k,
    In mainF (functions M') /\
    fn_blocks mainF = mkBB "entry" (pre ++ call :: post) :: blocks /\
    inst_kind call = Call (fn_value Example.fA) args /\
    In f_af (functions M') /\ fn_name f_af = "__assert_fail" /\
    forall choice external fuel m,
      fn_id f_af <> klee_id Example.env0 Example.s0 ->
      fn_id Example.fA <> fn_id f_af ->
      exists m1,
        exec_insts (TD Example.env0) (klee_id Example.env0 Example.s0)
                   (fn_id f_af) choice external pre m = Next m1 /\
        (forall idx g, globals M' !! idx = Some g -> isAiState g = true ->
                       mem m1 (LGlobal idx) = 0) /\
        exec_blocks (TD Example.env0) (klee_id Example.env0 Example.s0)
                    (fn_id f_af) choice external
                    (S (S fuel)) (fn_blocks mainF) "entry" m =
        match external (fn_id Example.fA)
                       (map (eval (TD Example.env0) m1) args) (mem m1) with
        | None => EndedIn (fn_id Example.fA)
        | Some mem' =>
            if Z.eqb (state_sum mem' (indexed 0 (globals M')) 0) 0
            then Returned (MInt 0)
            else AssertFail [MPtr (LGlobal k) 0; MPtr (LGlobal (S k)) 0;
                             MInt 0; MPtr (LGlobal (S (S k))) 0]
        end.
Proof.
  intros s1.
  assert (H0 : In Example.fA (functions (M Example.s0)))
    by (right; left; reflexivity).
  assert (H1 : writeMain Example.env0 Example.fA Example.s0 = Ok tt s1)
    by (vm_compute; reflexivity).
  eexists.
  assert (H2 : written s1 = written Example.s0 ++ [("mod.main.A.o", _)])
    by (vm_compute; reflexivity).
  split; [split; [exact H0|split; [exact H1|exact H2]]|].
  exact (harness_returns_zero_or_reports_failure Example.env0 Example.s0
           Example.fA s1 "mod.main.A.o" _ H0 H1 H2).
Defined.

(** The harness written for [A], run from its entry block with symbolic
    contents 5 everywhere: if [A] returns leaving memory as it found it,
    the harness returns 0; if [A] returns with the state variable set to
    1, the harness calls [__assert_fail]; if the call of [A] does not
    return, the run ends in it. *)
Lemma harness_of_A_runs :
  let s1 := state_of (writeMain Example.env0 Example.fA Example.s0) in
  let run M' ext :=
    match getFunction M' "main" with
    | Some mainF =>
        exec_blocks Example.td (klee_id Example.env0 Example.s0)
                    (fn_id Example.assert_fail_fn) (fun _ => 5) ext 3
                    (fn_blocks mainF) "entry" (Example.machine 7)
    | None => Stuck
    end in
  exists M' k,
    written s1 = [("mod.main.A.o", M')] /\
    globals M' !! 0%nat =
      Some (set_initializer (Some (ConstantInt i32 0)) Example.lock) /\
    run M' (fun _ _ mem => Some mem) = Returned (MInt 0) /\
    run M' (fun _ _ mem =>
              Some (fun l => if loc_eqb l (LGlobal 0) then 1 else mem l)) =
      AssertFail [MPtr (LGlobal k) 0; MPtr (LGlobal (S k)) 0; MInt 0;
                  MPtr (LGlobal (S (S k))) 0] /\
    globals M' !! k = Some (str_global "leaving function with lock held") /\
    run M' (fun _ _ _ => None) = EndedIn (fn_id Example.fA).
Proof.
  intros s1 run.
  exists (match written s1 with (_, x) :: _ => x | [] => M s1 end), 5%nat.
  split; [vm_compute; reflexivity|].
  split; [vm_compute; reflexivity|].
  split; [vm_compute; reflexivity|].
  split; [vm_compute; reflexivity|].
  split; [vm_compute; reflexivity|].
  vm_compute; reflexivity.
Qed.

Lemma state_sum_no_state mem : forall gs acc,
  Forall (fun p => isAiState (snd p) = false) gs ->
  state_sum mem gs acc = acc.
Proof.
  induction gs as [|[idx g] gs IH]; intros acc H; [reflexivity|].
  inversion H as [|? ? Hg Hl]; subst. cbn [snd] in Hg.
  cbn [state_sum]. rewrite Hg. now apply IH.
Qed.

Lemma h_globals_no_state s F :
  Forall (fun g => isAiState g = false) (globals (M s)) ->
  Forall (fun p => isAiState (snd p) = false) (indexed 0 (h_globals s F)).
Proof.
  intros H. apply Forall_forall. intros [i g] Hin. cbn [snd].
  apply list_elem_of_In, elem_of_lookup_imap in Hin
    as (k & g' & [= -> ->] & Hk).
  apply lookup_In in Hk. rewrite h_globals_eq in Hk.
  apply in_app_or in Hk as [Hk|Hk].
  - apply in_map_iff in Hk as (g0 & <- & Hg0).
    rewrite isAiState_nulled, isAiState_zeroed.
    rewrite Forall_forall in H. now apply H.
  - apply in_map_iff in Hk as (str & <- & _). reflexivity.
Qed.

(** For a module without state variables the check of a harness is
    vacuous: a run of a written harness ends in the call of the
    candidate if that call does not return, and returns 0 if it does,
    whatever the candidate leaves in memory; the failure block is never
    entered. *)
Theorem harness_without_state_variables_returns_zero
  (env : Services) (s : KState) (F : Function) (s' : KState)
  (name : string) (M' : Module) :
  In F (functions (M s)) ->
  Forall (fun g => isAiState g = false) (globals (M s)) ->
  writeMain env F s = Ok tt s' ->
  written s' = written s ++ [(name, M')] ->
  exists mainF f_af pre call post blocks args,
    In mainF (functions M') /\
    fn_blocks mainF = mkBB "entry" (pre ++ call :: post) :: blocks /\
    inst_kind call = Call (fn_value F) args /\
    In f_af (functions M') /\ fn_name f_af = "__assert_fail" /\
    forall choice external fuel m,
      fn_id f_af <> klee_id env s ->
      fn_id F <> fn_id f_af ->
      exists m1,
        exec_insts (TD env) (klee_id env s) (fn_id f_af) choice external
                   pre m = Next m1 /\
        exec_blocks (TD env) (klee_id env s) (fn_id f_af) choice external
                    (S (S fuel)) (fn_blocks mainF) "entry" m =
        match external (fn_id F) (map (eval (TD env) m1) args) (mem m1) with
        | None => EndedIn (fn_id F)
        | Some _ => Returned (MInt 0)
        end.
Proof.
  intros HinF Hns Hw Hwr.
  destruct (writeMain_artifact env F s s' name M' Hw Hwr)
    as (af & dl & decls & ds & Hd & _ & _ & (f_af & Hin & Hnm & Hid) & _
        & -> & _).
  eexists (main_fn env s (h_blocks env s F af dl)), f_af,
    (h_prefix env s F), (h_call env s F), (h_tail env s F), _, _.
  split; [cbn [built st M functions]; apply in_or_app; right; now left|].
  split; [reflexivity|]. split; [reflexivity|].
  split; [assumption|]. split; [assumption|].
  intros choice external fuel m Haf HF.
  destruct (harness_run env s F af dl f_af choice external fuel m Hid Haf HF
              (candidate_not_klee env s F HinF)) as (m1 & He & _ & Hr).
  exists m1. split; [exact He|].
  cbn [main_fn fn_blocks]. rewrite Hr.
  destruct (external (fn_id F) _ (mem m1)) as [mem'|]; [|reflexivity].
  rewrite state_sum_no_state by now apply h_globals_no_state.
  reflexivity.
Qed.

Lemma harness_without_state_variables_witness :
  let s0 := with_globals [Example.ext] Example.s0 in
  let s1 := state_of (writeMain Example.env0 Example.fA s0) in
  exists M',
  (In Example.fA (functions (M s0)) /\
   Forall (fun g => isAiState g = false) (globals (M s0)) /\
   writeMain Example.env0 Example.fA s0 = Ok tt s1 /\
   written s1 = written s0 ++ [("mod.main.A.o", M')]) /\
  exists mainF f_af pre call post blocks args,
    In mainF (functions M') /\
    fn_blocks mainF = mkBB "entry" (pre ++ call :: post) :: blocks /\
    inst_kind call = Call (fn_value Example.fA) args /\
    In f_af (functions M') /\ fn_name f_af = "__assert_fail" /\
    forall choice external fuel m,
      fn_id f_af <> klee_id Example.env0 s0 ->
      fn_id Example.fA <> fn_id f_af ->
      exists m1,
        exec_insts (TD Example.env0) (klee_id Example.env0 s0) (fn_id f_af)
                   choice external pre m = Next m1 /\
        exec_blocks (TD Example.env0) (klee_id Example.env0 s0) (fn_id f_af)
                    choice external (S (S fuel)) (fn_blocks mainF) "entry" m =
        match external (fn_id Example.fA)
                       (map (eval (TD Example.env0) m1) args) (mem m1) with
        | None => EndedIn (fn_id Example.fA)
        | Some _ => Returned (MInt 0)
        end.
Proof.
  intros s0 s1.
  assert (H0 : In Example.fA (functions (M s0)))
    by (right; left; reflexivity).
  assert (Hn : Forall (fun g => isAiState g = false) (globals (M s0)))
    by (repeat constructor).
  assert (H1 : writeMain Example.env0 Example.fA s0 = Ok tt s1)
    by (vm_compute; reflexivity).
  eexists.
  assert (H2 : written s1 = written s0 ++ [("mod.main.A.o", _)])
    by (vm_compute; reflexivity).
  split; [split; [exact H0|split; [exact Hn|split; [exact H1|exact H2]]]|].
  exact (harness_without_state_variables_returns_zero Example.env0 s0
           Example.fA s1 "mod.main.A.o" _ H0 Hn H1 H2).
Defined.

(** *** What a run leaves behind *)

(** Every way [writeMain] can end, as a change of the error stream, of
    the files written and of the number of globals. *)
Lemma writeMain_outcome env F s :
  let s' := state_of (writeMain env F s) in
  (written s' = written s /\
   written_diags (errs s') = written_diags (errs s) /\
   (forall u, writeMain env F s = Ok u s' ->
              (length (globals (M s)) + 3 <= length (globals (M s')))%nat)) \/
  (exists M', written s' = written s ++ [(artifact_name (M s) F, M')] /\
     written_diags (errs s') =
       written_diags (errs s) ++ [artifact_name (M s) F] /\
     (length (globals (M s)) + 3 <= length (globals (M s')))%nat).
Proof.
  assert (Hlen : forall af dl decls,
    (length (globals (M s)) + 3
     <= length (globals (M (built env s F af dl decls))))%nat).
  { intros. cbn [built st M globals]. rewrite h_globals_eq.
    rewrite !length_app, !length_map, !length_app. cbn [length]. lia. }
  cbn zeta.
  destruct (forallb (fun a => supported (arg_type a)) (fn_args F)) eqn:Hs.
  2:{ destruct (writeMain_bad_signature env s F Hs) as (d & ->).
      left. repeat split. intros u [=]. }
  destruct (debugLoc_of F) as [dl|] eqn:Hdl.
  2:{ destruct (writeMain_no_body env s F Hs Hdl) as (d & ->).
      left. repeat split. intros u [=]. }
  destruct (writeMain_built env s F dl Hs Hdl) as (af & decls & Hd & _ & ->).
  set (nm := artifact_name (M s) F).
  assert (Hwr : forall ds, emit env s nm (built env s F af dl decls) =
                  Ok tt (cleaned s nm ds (built env s F af dl decls) decls) ->
                  ds = [] \/ ds = [DiagBrokenModule] ->
          exists M',
            written (state_of (emit env s nm (built env s F af dl decls))) =
              written s ++ [(nm, M')] /\
            written_diags
              (errs (state_of (emit env s nm (built env s F af dl decls)))) =
              written_diags (errs s) ++ [nm] /\
            (length (globals (M s)) + 3 <=
             length (globals (M (state_of
                        (emit env s nm (built env s F af dl decls))))))%nat).
  { intros ds -> Hds. eexists. split; [reflexivity|]. split.
    - cbn [state_of cleaned errs built st]. unfold written_diags.
      rewrite !omap_app.
      destruct Hds as [->| ->]; cbn [omap]; now rewrite ?app_nil_r.
    - cbn [state_of cleaned M globals]. apply Hlen. }
  destruct (can_open env nm) eqn:Ho.
  - destruct (verifier_accepts env (M (built env s F af dl decls))) eqn:Hacc.
    + destruct (emit_written env s nm (h_blocks env s F af dl) decls
                  (h_globals s F) (S (inst_id (h_ret env s F))) Hd Ho
                  (or_introl Hacc)) as (ds & He & Hds).
      right. now apply (Hwr ds).
    + destruct (verifier_action env) eqn:Hact.
      * rewrite (emit_verifier_abort env s _ _ Ho Hacc Hact).
        left. cbn [state_of add_errs written errs built st].
        split; [reflexivity|]. split.
        -- unfold written_diags. rewrite omap_app. cbn [omap].
           now rewrite app_nil_r.
        -- intros u [=].
      * destruct (emit_written env s nm (h_blocks env s F af dl) decls
                    (h_globals s F) (S (inst_id (h_ret env s F))) Hd Ho)
          as (ds & He & Hds); [right; congruence|].
        right. now apply (Hwr ds).
      * destruct (emit_written env s nm (h_blocks env s F af dl) decls
                    (h_globals s F) (S (inst_id (h_ret env s F))) Hd Ho)
          as (ds & He & Hds); [right; congruence|].
        right. now apply (Hwr ds).
  - rewrite (emit_cannot_open env s _ _ Ho). left.
    cbn [state_of add_errs written errs built st].
    split; [reflexivity|]. split.
    + unfold written_diags. rewrite omap_app. cbn [omap].
      now rewrite app_nil_r.
    + intros _ _. apply Hlen.
Qed.

Lemma init_function_state op s : state_of (init_function op s) = s.
Proof.
  destruct op as [? ?|?|?|? ?|? ?|? ?|c ty|? ? ?]; try reflexivity.
  destruct c as [? ?|?|?|? ?|? ?|id ty'|? ?|? ? ?]; try reflexivity.
  cbn [init_function]. kunfold. unfold get. kred.
  destruct (getFunctionById (M s) id); reflexivity.
Qed.

(** The trace of the loop over the candidates: the files it writes are
    announced one by one, and each of them leaves at least three more
    globals in the module. *)
Lemma candidates_loop_trace env Faf : forall ops s,
  let r := candidates_loop env Faf ops s in
  exists new,
    written (state_of r) = written s ++ new /\
    written_diags (errs (state_of r)) =
      written_diags (errs s) ++ map fst new /\
    (forall u s', r = Ok u s' ->
       (length (globals (M s)) + 3 * length new
        <= length (globals (M s')))%nat).
Proof.
  induction ops as [|op rest IH]; intros s; cbn zeta.
  - exists []. cbn [candidates_loop state_of map length].
    rewrite !app_nil_r. repeat split. intros u s' H; inversion H; subst; cbn [length]; lia.
  - cbn [candidates_loop]. kunfold.
    pose proof (init_function_state op s) as Hi.
    destruct (init_function op s) as [F s0|f s0]; cbn [state_of] in Hi;
      subst s0; kred.
    2:{ exists []. cbn [state_of map]. rewrite !app_nil_r.
        repeat split. intros u s' [=]. }
    rewrite calls_loop_spec.
    assert (Hstep : exists new1,
      let r1 := (if qualifies env Faf F then writeMain env F s
                 else Ok tt s) in
      written (state_of r1) = written s ++ new1 /\
      written_diags (errs (state_of r1)) =
        written_diags (errs s) ++ map fst new1 /\
      (forall u s', r1 = Ok u s' ->
         (length (globals (M s)) + 3 * length new1
          <= length (globals (M s')))%nat)).
    { destruct (qualifies env Faf F).
      - destruct (writeMain_outcome env F s)
          as [(Hw & He & Hl)|(M' & Hw & He & Hl)].
        + exists []. cbn zeta. cbn [map length].
          rewrite !app_nil_r. repeat split; try assumption.
          intros u s' Hr. rewrite Hr in Hl. cbn [state_of] in Hl.
          specialize (Hl u eq_refl). lia.
        + exists [(artifact_name (M s) F, M')]. cbn zeta.
          cbn [map fst length]. repeat split; try assumption.
          intros u s' Hr. rewrite Hr in Hl. cbn [state_of] in Hl. lia.
      - exists []. cbn zeta. cbn [state_of map length].
        rewrite !app_nil_r. repeat split.
        intros u s' H; inversion H; subst; cbn [length]; lia. }
    destruct Hstep as (new1 & Hw1 & He1 & Hl1). cbn zeta in *.
    destruct (if qualifies env Faf F then writeMain env F s else Ok tt s)
      as [[] s1|f s1]; cbn [state_of] in Hw1, He1; kred.
    2:{ exists new1. cbn [state_of]. repeat split; assumption. }
    unfold get. kred. specialize (Hl1 tt s1 eq_refl).
    destruct (done s1).
    + exists new1. cbn [state_of]. repeat split; try assumption.
      intros u s' H; inversion H; subst; assumption.
    + destruct (IH s1) as (new2 & Hw2 & He2 & Hl2). cbn zeta in *.
      exists (new1 ++ new2). rewrite Hw2, He2, Hw1, He1.
      rewrite map_app, length_app, <- !app_assoc.
      repeat split. intros u s' Hr. specialize (Hl2 u s' Hr). lia.
Qed.

(** Whenever a whole run of the pass returns, it returns [false], "module
    not changed"; yet every file it wrote has left at least three more
    globals in the module, the string constants of the failure report. *)
Theorem run_reports_no_change_whatever_it_changed
  (env : Services) (s : KState) (b : bool) (s' : KState) :
  run env s = Ok b s' ->
  b = false /\
  exists new,
    written s' = written s ++ new /\
    (length (globals (M s)) + 3 * length new
     <= length (globals (M s')))%nat.
Proof.
  unfold run. kunfold. unfold get. kred.
  destruct (getFunction (M s) "__assert_fail") as [Faf|].
  2:{ intros [= <- <-]. split; [reflexivity|]. exists [].
      rewrite app_nil_r. split; [reflexivity|]. cbn. lia. }
  destruct (Nat.eqb _ 0).
  { intros [= <- <-]. split; [reflexivity|]. exists [].
    rewrite app_nil_r. split; [reflexivity|]. cbn. lia. }
  destruct (getInitFuns env) as [ops|]; [|discriminate].
  kunfold. kred.
  destruct (candidates_loop_trace env Faf ops s) as (new & Hw & _ & Hl).
  cbn zeta in *.
  destruct (candidates_loop env Faf ops s) as [u s1|f s1]; [|discriminate].
  kred. intros [= <- <-]. split; [reflexivity|].
  exists new. split; [exact Hw|]. now apply (Hl u).
Qed.

Lemma run_reports_no_change_witness :
  let s1 := state_of (run Example.env0 Example.s0) in
  run Example.env0 Example.s0 = Ok false s1 /\
  exists new,
    written s1 = written Example.s0 ++ new /\
    (length (globals (M Example.s0)) + 3 * length new
     <= length (globals (M s1)))%nat.
Proof.
  intros s1.
  assert (H1 : run Example.env0 Example.s0 = Ok false s1)
    by (vm_compute; reflexivity).
  split; [exact H1|].
  exact (proj2 (run_reports_no_change_whatever_it_changed Example.env0
                  Example.s0 false s1 H1)).
Defined.

(** Every way [writeMain] can end, as a change of the files created and
    of the files written: nothing, the file created and the process
    ended by the verifier, or the file created and written. *)
Lemma writeMain_files env F s :
  let r := writeMain env F s in
  let nm := artifact_name (M s) F in
  (written (state_of r) = written s /\ opened (state_of r) = opened s /\
   failure_of r <> Some VerifierAbort) \/
  (written (state_of r) = written s /\
   opened (state_of r) = opened s ++ [nm] /\
   failure_of r = Some VerifierAbort) \/
  (exists M', written (state_of r) = written s ++ [(nm, M')] /\
     opened (state_of r) = opened s ++ [nm] /\ failure_of r = None).
Proof.
  cbn zeta.
  destruct (forallb (fun a => supported (arg_type a)) (fn_args F)) eqn:Hs.
  2:{ destruct (writeMain_bad_signature env s F Hs) as (d & ->).
      left. repeat split. discriminate. }
  destruct (debugLoc_of F) as [dl|] eqn:Hdl.
  2:{ destruct (writeMain_no_body env s F Hs Hdl) as (d & ->).
      left. repeat split. discriminate. }
  destruct (can_open env (artifact_name (M s) F)) eqn:Ho.
  - destruct (writeMain_verdict env s F Hs ltac:(congruence) Ho)
      as (Mh & Hrej & Hacc).
    destruct (verifier_accepts env Mh) eqn:Ea.
    + destruct (Hacc (or_introl eq_refl)) as (s' & -> & Hw & Hop & _).
      right. right. exists Mh. now repeat split.
    + destruct (verifier_action env) eqn:Eact.
      * destruct (Hrej eq_refl eq_refl) as (sa & -> & _ & _ & Hw & Hop).
        right. left. now repeat split.
      * destruct Hacc as (s' & -> & Hw & Hop & _); [now right|].
        right. right. exists Mh. now repeat split.
      * destruct Hacc as (s' & -> & Hw & Hop & _); [now right|].
        right. right. exists Mh. now repeat split.
  - destruct (writeMain_built env s F dl Hs Hdl) as (af & decls & _ & _ & ->).
    rewrite (emit_cannot_open env s _ _ Ho). left.
    repeat split. discriminate.
Qed.

(** The files the loop over the candidates creates are the files it
    writes, but for one more, created last, when the verifier ends the
    process. *)
Lemma candidates_loop_created env Faf : forall ops s,
  let r := candidates_loop env Faf ops s in
  exists new,
    written (state_of r) = written s ++ new /\
    (failure_of r <> Some VerifierAbort ->
     opened (state_of r) = opened s ++ map fst new) /\
    (failure_of r = Some VerifierAbort ->
     exists name, opened (state_of r) = opened s ++ map fst new ++ [name]).
Proof.
  assert (Hnone : forall (r : Result unit) s,
    written (state_of r) = written s -> opened (state_of r) = opened s ->
    failure_of r <> Some VerifierAbort ->
    exists new : list (string * Module),
      written (state_of r) = written s ++ new /\
      (failure_of r <> Some VerifierAbort ->
       opened (state_of r) = opened s ++ map fst new) /\
      (failure_of r = Some VerifierAbort ->
       exists name,
         opened (state_of r) = opened s ++ map fst new ++ [name])).
  { intros r s Hw Hop Hf. exists []. cbn [map]. rewrite !app_nil_r.
    split; [assumption|]. split; [intros _; assumption|].
    intros H. contradiction. }
  induction ops as [|op rest IH]; intros s; cbn zeta.
  - apply Hnone; [reflexivity|reflexivity|discriminate].
  - cbn [candidates_loop]. kunfold.
    pose proof (init_function_state op s) as Hi.
    destruct (init_function op s) as [F s0|f s0] eqn:Hinit;
      cbn [state_of] in Hi; subst s0; kred.
    2:{ apply Hnone; [reflexivity|reflexivity|]. cbn [failure_of].
        intros [= ->].
        destruct op as [? ?|?|?|? ?|? ?|? ?|c ty|? ? ?]; try discriminate.
        destruct c as [? ?|?|?|? ?|? ?|id ty'|? ?|? ? ?]; try discriminate.
        cbn [init_function] in Hinit. revert Hinit. kunfold. unfold get.
        kred. destruct (getFunctionById (M s) id); discriminate. }
    rewrite calls_loop_spec.
    destruct (qualifies env Faf F).
    + destruct (writeMain_files env F s)
        as [(Hw & Hop & Hf)|[(Hw & Hop & Hf)|(M' & Hw & Hop & Hf)]];
        cbn zeta in *.
      * destruct (writeMain env F s) as [[] s1|f s1];
          cbn [state_of failure_of] in Hw, Hop, Hf; kred.
        2:{ now apply Hnone. }
        unfold get. kred. destruct (done s1).
        -- now apply Hnone.
        -- destruct (IH s1) as (new & Hw2 & Hok & Hab). cbn zeta in *.
           exists new. rewrite Hw2, Hw. split; [reflexivity|].
           rewrite <- Hop. split; assumption.
      * destruct (writeMain env F s) as [[] s1|f s1];
          cbn [state_of failure_of] in Hw, Hop, Hf; [discriminate|]; kred.
        exists []. cbn [state_of failure_of map app].
        rewrite app_nil_r. split; [assumption|].
        split; [intros H; contradiction|]. intros _. eexists. exact Hop.
      * destruct (writeMain env F s) as [[] s1|f s1];
          cbn [state_of failure_of] in Hw, Hop, Hf; [|discriminate]; kred.
        unfold get. kred. destruct (done s1).
        -- exists [(artifact_name (M s) F, M')].
           cbn [state_of failure_of map fst].
           split; [assumption|]. split; [intros _; assumption|].
           discriminate.
        -- destruct (IH s1) as (new & Hw2 & Hok & Hab). cbn zeta in *.
           exists ((artifact_name (M s) F, M') :: new).
           rewrite Hw2, Hw, <- app_assoc. split; [reflexivity|].
           cbn [map fst]. split.
           ++ intros H. rewrite (Hok H), Hop, <- app_assoc. reflexivity.
           ++ intros H. destruct (Hab H) as (name & Hn). exists name.
              rewrite Hn, Hop, <- app_assoc. reflexivity.
    + kred. unfold get. kred. destruct (done s).
      * apply Hnone; [reflexivity|reflexivity|discriminate].
      * apply IH.
Qed.

(** After a run of the pass on a module, however it ends, the files
    written are exactly those announced by a [written:] diagnostic, in
    the same order.  They are also exactly the files created, unless the
    run was ended by the verifier: then one more file was created, after
    the others; it is left as created, empty, and is not announced. *)
Theorem every_written_file_is_announced (env : Services) (m : Module) :
  let r := runOnModule env m in
  let s' := state_of r in
  written_diags (errs s') = map fst (written s') /\
  (failure_of r <> Some VerifierAbort ->
   opened s' = map fst (written s')) /\
  (failure_of r = Some VerifierAbort ->
   exists name, opened s' = map fst (written s') ++ [name]).
Proof.
  cbn zeta. unfold runOnModule, run. kunfold. unfold get. kred.
  cbn [M].
  destruct (getFunction m "__assert_fail") as [Faf|];
    [|repeat split; discriminate].
  destruct (Nat.eqb _ 0); [repeat split; discriminate|].
  destruct (getInitFuns env) as [ops|]; [|repeat split; discriminate].
  kunfold. kred.
  destruct (candidates_loop_trace env Faf ops (mkState m false [] [] [] 0))
    as (new & Hw & He & _).
  destruct (candidates_loop_created env Faf ops (mkState m false [] [] [] 0))
    as (new' & Hw' & Hok & Hab).
  cbn zeta in *. cbn [written errs opened app] in Hw, He, Hw', Hok, Hab.
  destruct (candidates_loop env Faf ops (mkState m false [] [] [] 0))
    as [u s1|f s1]; cbn [state_of failure_of] in *; kred;
    cbn [state_of failure_of]; rewrite Hw' in Hw; subst new';
    rewrite He, Hw'; (split; [reflexivity|]); split; assumption.
Qed.

Lemma every_written_file_witness :
  let r := runOnModule Example.env_reject_abort Example.m0 in
  failure_of r = Some VerifierAbort /\
  written_diags (errs (state_of r)) = map fst (written (state_of r)) /\
  exists name,
    opened (state_of r) = map fst (written (state_of r)) ++ [name].
Proof.
  intros r.
  assert (Hf : failure_of r = Some VerifierAbort) by (vm_compute; reflexivity).
  split; [exact Hf|].
  destruct (every_written_file_is_announced Example.env_reject_abort
              Example.m0) as (H1 & _ & H3).
  split; [exact H1|exact (H3 Hf)].
Defined.

(** *** The initial-functions array *)




(** *** File names *)

Lemma append_inj_l (a b c : string) : (a ++ b = a ++ c)%string -> b = c.
Proof.
  induction a as [|ch a IH]; cbn [String.append]; [auto|].
  intros [= H]. auto.
Qed.

Lemma append_length (a b : string) :
  String.length (a ++ b) = (String.length a + String.length b)%nat.
Proof.
  induction a as [|x a IH]; [reflexivity|].
  change (String.length (String x (a ++ b)) =
          S (String.length a + String.length b)).
  cbn [String.length]. now rewrite IH.
Qed.

Lemma append_inj_r (c : string) : forall a b : string,
  (a ++ c = b ++ c)%string -> a = b.
Proof.
  induction a as [|x a IH]; intros [|y b] H.
  - reflexivity.
  - apply (f_equal String.length) in H.
    rewrite (append_length (String y b)), (append_length EmptyString) in H.
    cbn [String.length] in H. lia.
  - apply (f_equal String.length) in H.
    rewrite (append_length (String x a)), (append_length EmptyString) in H.
    cbn [String.length] in H. lia.
  - cbn [String.append] in H. injection H as -> H. f_equal. now apply IH.
Qed.

(** The name of the file for a candidate determines the candidate's
    name: within one module two candidates share a file only if they
    have the same name. *)
Theorem artifact_name_determines_the_candidate
  (m : Module) (F G : Function) :
  artifact_name m F = artifact_name m G <-> fn_name F = fn_name G.
Proof.
  unfold artifact_name. split; [|now intros ->].
  intros H. apply append_inj_l, append_inj_l in H.
  now apply append_inj_r in H.
Qed.

(** *** Debug locations *)

Lemma klee_pre_no_loc env n ty addr arr :
  Forall (fun i => inst_debugLoc i = None) (klee_pre env n ty addr arr).
Proof.
  unfold klee_pre, klee_cast, klee_mul. apply Forall_app. split.
  - destruct (negb _); repeat constructor.
  - destruct arr; repeat constructor.
Qed.

Lemma param_code_no_loc env s0 n glen param :
  let c := param_code env s0 n glen param in
  Forall (fun i => inst_debugLoc i = None) (pc_front c) /\
  Forall (fun i => inst_debugLoc i = None) (pc_back c).
Proof.
  unfold param_code.
  destruct (arg_type param) eqn:Hty;
    try (split; apply Forall_nil).
  - unfold integer_code. cbn [pc_front pc_back].
    split; [repeat constructor|].
    apply Forall_app. split; [apply klee_pre_no_loc|repeat constructor].
  - unfold pointer_code.
    destruct (negb (Ty_eqb (PointerTy t) voidPtrType));
      cbn [pc_front pc_back]; (split; [apply Forall_nil|]);
      (apply Forall_cons; [reflexivity|]);
      (apply Forall_app; split; [apply klee_pre_no_loc|repeat constructor]).
Qed.

Lemma params_code_no_loc env s0 : forall args n glen,
  let r := params_code env s0 n glen args in
  Forall (fun i => inst_debugLoc i = None) (ps_front r) /\
  Forall (fun i => inst_debugLoc i = None) (ps_back r).
Proof.
  induction args as [|param rest IH]; intros n glen.
  - split; apply Forall_nil.
  - cbn [params_code ps_front ps_back]. cbn zeta.
    destruct (param_code_no_loc env s0 n glen param) as [Hf Hb].
    destruct (IH (pc_next (param_code env s0 n glen param)) (S glen))
      as [Hf' Hb'].
    cbn zeta in *. split; apply Forall_app; now split.
Qed.

Lemma ai_code_no_loc env s0 : forall gs n glen,
  Forall (fun i => inst_debugLoc i = None) (fst (ai_code env s0 n glen gs)).
Proof.
  induction gs as [|[idx g] gs IH]; intros n glen; [apply Forall_nil|].
  cbn [ai_code]. destruct (isAiState g); [|apply IH].
  cbn [fst]. apply Forall_app. split; [|apply IH].
  unfold ai_insts. apply Forall_app. split; [apply klee_pre_no_loc|].
  repeat constructor.
Qed.

Lemma check_tail_no_loc n gs :
  Forall (fun i => inst_debugLoc i = None) (check_tail n gs).
Proof.
  unfold check_tail. apply Forall_app. split; [|repeat constructor].
  generalize zero as sum. generalize (indexed 0 gs) as l.
  intros l. revert n. induction l as [|[idx g] l IH]; intros n sum;
    [apply Forall_nil|].
  cbn [sum_code]. destruct (isAiState g); [|apply IH].
  cbn [fst]. repeat (apply Forall_cons; [reflexivity|]). apply IH.
Qed.

(** In a written harness the call of [__assert_fail] carries the debug
    location of the last instruction of the candidate's last block, and
    it is the only instruction of the entry function that carries one. *)
Theorem failure_report_has_the_location_of_the_last_instruction
  (env : Services) (s : KState) (F : Function) (s' : KState)
  (name : string) (M' : Module) :
  writeMain env F s = Ok tt s' ->
  written s' = written s ++ [(name, M')] ->
  exists mainF entry final fail unr b i,
    In mainF (functions M') /\
    fn_blocks mainF = [entry; final; mkBB "assertBB" [fail; unr]] /\
    list.last (fn_blocks F) = Some b /\
    list.last (bb_insts b) = Some i /\
    (exists af args, inst_kind fail = Call af args /\
                     denotes (functions M') af "__assert_fail") /\
    inst_debugLoc fail = inst_debugLoc i /\
    Forall (fun j => inst_debugLoc j = None)
           (bb_insts entry ++ bb_insts final ++ [unr]).
Proof.
  intros Hw Hwr.
  destruct (writeMain_artifact env F s s' name M' Hw Hwr)
    as (af & dl & decls & ds & Hd & _ & Hdl & Hden & _ & -> & _).
  unfold debugLoc_of in Hdl.
  destruct (list.last (fn_blocks F)) as [b|] eqn:Hb; [|discriminate].
  destruct (list.last (bb_insts b)) as [i|] eqn:Hi; [|discriminate].
  injection Hdl as <-.
  eexists (main_fn env s (h_blocks env s F af (inst_debugLoc i))),
    _, _, _, _, b, i.
  split; [cbn [built st M functions]; apply in_or_app; right; now left|].
  split; [reflexivity|]. split; [reflexivity|]. split; [assumption|].
  split; [eexists _, _; split; [reflexivity|exact Hden]|].
  split; [reflexivity|].
  cbn [bb_insts]. unfold h_entry, h_prefix.
  destruct (params_code_no_loc env s (fn_args F) (fresh s)
              (length (globals (M s)))) as [Hf Hbk].
  fold (h_params env s F) in Hf, Hbk. cbn zeta in Hf, Hbk.
  repeat (apply Forall_app; split); try assumption.
  - apply ai_code_no_loc.
  - apply Forall_cons; [reflexivity|]. apply check_tail_no_loc.
  - repeat constructor.
  - repeat constructor.
Qed.

Lemma failure_report_location_witness :
  let s1 := state_of (writeMain Example.env0 Example.fA Example.s0) in
  exists M',
  (writeMain Example.env0 Example.fA Example.s0 = Ok tt s1 /\
   written s1 = written Example.s0 ++ [("mod.main.A.o", M')]) /\
  exists mainF entry final fail unr b i,
    In mainF (functions M') /\
    fn_blocks mainF = [entry; final; mkBB "assertBB" [fail; unr]] /\
    list.last (fn_blocks Example.fA) = Some b /\
    list.last (bb_insts b) = Some i /\
    (exists af args, inst_kind fail = Call af args /\
                     denotes (functions M') af "__assert_fail") /\
    inst_debugLoc fail = inst_debugLoc i /\
    Forall (fun j => inst_debugLoc j = None)
           (bb_insts entry ++ bb_insts final ++ [unr]).
Proof.
  intros s1.
  assert (H1 : writeMain Example.env0 Example.fA Example.s0 = Ok tt s1)
    by (vm_compute; reflexivity).
  eexists.
  assert (H2 : written s1 = written Example.s0 ++ [("mod.main.A.o", _)])
    by (vm_compute; reflexivity).
  split; [split; [exact H1|exact H2]|].
  exact (failure_report_has_the_location_of_the_last_instruction
           Example.env0 Example.s0 Example.fA s1 "mod.main.A.o" _ H1 H2).
Defined.

(** *** The calls of the symbolic-marking primitive *)

Section MarkingFacts.

Variable env : Services.
Variable s0 : KState.

#[local] Abbreviation marks :=
  (calls_with (fn_value (klee_fn env s0)) [PointerTy i8; i32; PointerTy i8]).

Lemma klee_pre_marks n ty addr arr :
  Forall marks (klee_pre env n ty addr arr).
Proof.
  unfold klee_pre, klee_cast, klee_mul.
  destruct (negb (Ty_eqb (type_of addr) voidPtrType)), arr;
    repeat constructor; intros args; discriminate.
Qed.

Lemma klee_call_marks n name ty addr arr :
  type_of name = PointerTy i8 ->
  (forall a, arr = Some a -> type_of a = uintType) ->
  marks (klee_call env s0 n name ty addr arr).
Proof.
  intros Hn Ha args [= <-]. cbn [map].
  rewrite type_of_klee_addr, Hn.
  assert (Hs : type_of (klee_size env (klee_n1 n addr) ty arr) = i32).
  { unfold klee_size. destruct arr as [a|]; [|reflexivity].
    cbn [type_of]. now apply Ha. }
  now rewrite Hs.
Qed.

Lemma param_code_marks n glen param :
  Forall marks (pc_front (param_code env s0 n glen param)) /\
  Forall marks (pc_back (param_code env s0 n glen param)).
Proof.
  unfold param_code.
  destruct (arg_type param) as [| | | |bits|elem|r ps va|nm body|k e|k e];
    try (split; constructor).
  - unfold integer_code. cbn [pc_front pc_back]. split.
    + repeat constructor. intros args; discriminate.
    + apply Forall_app. split; [apply klee_pre_marks|].
      repeat constructor.
      * apply klee_call_marks; [apply type_of_str_ptr|discriminate].
      * intros args; discriminate.
  - unfold pointer_code.
    destruct (negb (Ty_eqb (PointerTy elem) voidPtrType));
      cbn [pc_front pc_back]; (split; [constructor|]);
      (constructor; [intros args; discriminate|]);
      (apply Forall_app; split; [apply klee_pre_marks|]);
      repeat constructor;
      first [ apply klee_call_marks;
              [apply type_of_str_ptr|intros a [= <-]; reflexivity]
            | intros args; discriminate ].
Qed.

Lemma params_code_marks : forall args n glen,
  Forall marks (ps_front (params_code env s0 n glen args)) /\
  Forall marks (ps_back (params_code env s0 n glen args)).
Proof.
  induction args as [|param rest IH]; intros n glen.
  - split; constructor.
  - cbn [params_code ps_front ps_back].
    destruct (param_code_marks n glen param) as [Hf Hb].
    destruct (IH (pc_next (param_code env s0 n glen param)) (S glen))
      as [Hf' Hb'].
    split; apply Forall_app; now split.
Qed.

Lemma ai_code_marks : forall l n glen,
  Forall marks (fst (ai_code env s0 n glen l)).
Proof.
  induction l as [|[idx g] l IH]; intros n glen; [constructor|].
  cbn [ai_code]. destruct (isAiState g); [|now apply IH].
  cbn [fst]. apply Forall_app. split; [|now apply IH].
  unfold ai_insts. apply Forall_app. split; [apply klee_pre_marks|].
  repeat constructor.
  - apply klee_call_marks; [apply type_of_str_ptr|discriminate].
  - intros args; discriminate.
Qed.

End MarkingFacts.

(** In the entry block of a written harness for a candidate of the
    module, every call of the symbolic-marking primitive stands before
    the call of the candidate and passes an [i8*] address, an [i32] size
    and an [i8*] name: the signature [klee_make_symbolic] is declared
    with in the artifact. *)
Theorem marking_calls_match_the_declaration
  (env : Services) (s : KState) (F : Function) (s' : KState)
  (name : string) (M' : Module) :
  In F (functions (M s)) ->
  writeMain env F s = Ok tt s' ->
  written s' = written s ++ [(name, M')] ->
  exists mainF klee pre call post blocks args,
    In mainF (functions M') /\ In klee (functions M') /\
    fn_functionType klee =
      FunctionTy VoidTy [PointerTy i8; i32; PointerTy i8] false /\
    fn_blocks klee = [] /\
    fn_blocks mainF = mkBB "entry" (pre ++ call :: post) :: blocks /\
    inst_kind call = Call (fn_value F) args /\
    Forall (calls_with (fn_value klee) [PointerTy i8; i32; PointerTy i8])
           pre /\
    Forall (not_call_to (fn_value klee)) (call :: post).
Proof.
  intros HinF Hw Hwr.
  destruct (writeMain_artifact env F s s' name M' Hw Hwr)
    as (af & dl & decls & ds & Hd & _ & _ & _ & _ & -> & _).
  eexists (main_fn env s (h_blocks env s F af dl)), (klee_fn env s),
    (h_prefix env s F), (h_call env s F), (h_tail env s F), _, _.
  split; [cbn [built st M functions]; apply in_or_app; right; now left|].
  split; [cbn [built st M functions]; apply in_or_app; right; right;
          now left|].
  split; [reflexivity|]. split; [reflexivity|]. split; [reflexivity|].
  split; [reflexivity|]. split.
  - unfold h_prefix.
    destruct (params_code_marks env s (fn_args F) (fresh s)
                (length (globals (M s)))) as [Hf Hb].
    repeat (apply Forall_app; split); try assumption.
    apply ai_code_marks.
  - apply Forall_cons.
    + intros args H. apply (klee_fn_not_candidate env s F HinF).
      unfold h_call in H. cbn [inst_kind] in H. congruence.
    + apply check_tail_not_call.
Qed.

Lemma marking_calls_witness :
  let s1 := state_of (writeMain Example.env0 Example.fA Example.s0) in
  exists M',
  (In Example.fA (functions (M Example.s0)) /\
   writeMain Example.env0 Example.fA Example.s0 = Ok tt s1 /\
   written s1 = written Example.s0 ++ [("mod.main.A.o", M')]) /\
  exists mainF klee pre call post blocks args,
    In mainF (functions M') /\ In klee (functions M') /\
    fn_functionType klee =
      FunctionTy VoidTy [PointerTy i8; i32; PointerTy i8] false /\
    fn_blocks klee = [] /\
    fn_blocks mainF = mkBB "entry" (pre ++ call :: post) :: blocks /\
    inst_kind call = Call (fn_value Example.fA) args /\
    Forall (calls_with (fn_value klee) [PointerTy i8; i32; PointerTy i8])
           pre /\
    Forall (not_call_to (fn_value klee)) (call :: post).
Proof.
  intros s1.
  assert (H0 : In Example.fA (functions (M Example.s0)))
    by (right; left; reflexivity).
  assert (H1 : writeMain Example.env0 Example.fA Example.s0 = Ok tt s1)
    by (vm_compute; reflexivity).
  eexists.
  assert (H2 : written s1 = written Example.s0 ++ [("mod.main.A.o", _)])
    by (vm_compute; reflexivity).
  split; [split; [exact H0|split; [exact H1|exact H2]]|].
  exact (marking_calls_match_the_declaration Example.env0 Example.s0
           Example.fA s1 "mod.main.A.o" _ H0 H1 H2).
Defined.

(** *** The blocks of a harness *)

Lemma plain_not_terminator env s0 i :
  plain env s0 i -> is_terminator i = false.
Proof.
  unfold plain, is_terminator. now destruct (inst_kind i).
Qed.

Lemma sum_code_no_terminator : forall l n sum,
  Forall (fun i => is_terminator i = false) (fst (sum_code n l sum)).
Proof.
  induction l as [|[idx g] l IH]; intros n sum; [apply Forall_nil|].
  cbn [sum_code]. destruct (isAiState g); [|apply IH].
  cbn [fst]. repeat (apply Forall_cons; [reflexivity|]). apply IH.
Qed.

(** The entry function of a written harness is a well-formed flow
    graph: its blocks are [entry], [final] and [assertBB]; each ends in
    a terminator and contains no other one; and the only branch, at the
    end of [entry], goes to [final] or to [assertBB]. *)
Theorem harness_blocks_are_well_terminated
  (env : Services) (s : KState) (F : Function) (s' : KState)
  (name : string) (M' : Module) :
  writeMain env F s = Ok tt s' ->
  written s' = written s ++ [(name, M')] ->
  exists mainF,
    In mainF (functions M') /\
    map bb_name (fn_blocks mainF) = ["entry"; "final"; "assertBB"] /\
    Forall (well_terminated (fn_blocks mainF)) (fn_blocks mainF).
Proof.
  intros Hw Hwr.
  destruct (writeMain_artifact env F s s' name M' Hw Hwr)
    as (af & dl & decls & ds & Hd & _ & _ & _ & _ & -> & _).
  exists (main_fn env s (h_blocks env s F af dl)).
  split; [cbn [built st M functions]; apply in_or_app; right; now left|].
  split; [reflexivity|].
  cbn [main_fn fn_blocks]. unfold h_blocks.
  repeat apply Forall_cons; [| | |apply Forall_nil].
  - set (c := sum_code (S (S (S (snd (h_ai env s F)))))
                       (indexed 0 (h_globals s F)) zero).
    set (cmp := mkInst (snd (snd c)) (ICmp ICMP_EQ (fst (snd c)) zero) None).
    exists (h_prefix env s F ++ h_call env s F :: fst c ++ [cmp]),
      (mkInst (S (snd (snd c))) (Br (val cmp) "final" "assertBB") None).
    split; [|split; [reflexivity|split]].
    + cbn [bb_insts]. unfold h_entry, h_tail, check_tail. fold c. cbv zeta.
      fold cmp. rewrite <- !app_assoc. cbn [app].
      rewrite <- !app_assoc. reflexivity.
    + unfold h_prefix.
      destruct (params_code_plain env s (fn_args F) (fresh s)
                  (length (globals (M s)))) as [Hf Hb].
      fold (h_params env s F) in Hf, Hb.
      repeat (apply Forall_app; split).
      * eapply Forall_impl; [|exact Hf]. apply plain_not_terminator.
      * eapply Forall_impl; [|exact Hb]. apply plain_not_terminator.
      * eapply Forall_impl; [|apply ai_code_plain].
        apply plain_not_terminator.
      * apply Forall_cons; [reflexivity|].
        apply Forall_app. split; [apply sum_code_no_terminator|].
        repeat constructor.
    + cbn [successors inst_kind map bb_name].
      repeat constructor; cbn; tauto.
  - exists [], (h_ret env s F).
    split; [reflexivity|]. split; [reflexivity|].
    split; constructor.
  - unfold h_assert, assert_block.
    eexists [_], _. split; [reflexivity|]. split; [reflexivity|].
    split; repeat constructor.
Qed.

Lemma harness_blocks_witness :
  let s1 := state_of (writeMain Example.env0 Example.fA Example.s0) in
  exists M',
  (writeMain Example.env0 Example.fA Example.s0 = Ok tt s1 /\
   written s1 = written Example.s0 ++ [("mod.main.A.o", M')]) /\
  exists mainF,
    In mainF (functions M') /\
    map bb_name (fn_blocks mainF) = ["entry"; "final"; "assertBB"] /\
    Forall (well_terminated (fn_blocks mainF)) (fn_blocks mainF).
Proof.
  intros s1.
  assert (H1 : writeMain Example.env0 Example.fA Example.s0 = Ok tt s1)
    by (vm_compute; reflexivity).
  eexists.
  assert (H2 : written s1 = written Example.s0 ++ [("mod.main.A.o", _)])
    by (vm_compute; reflexivity).
  split; [split; [exact H1|exact H2]|].
  exact (harness_blocks_are_well_terminated Example.env0 Example.s0
           Example.fA s1 "mod.main.A.o" _ H1 H2).
Defined.

(** *** The files of a run *)

Lemma writeMain_identifier env F s u s' :
  writeMain env F s = Ok u s' ->
  moduleIdentifier (M s') = moduleIdentifier (M s).
Proof.
  destruct u. intros Hw.
  destruct (writeMain_Ok_cases env F s s' Hw)
    as (af & dl & decls & _ & _ & _ & _ & [[_ ->]|[_ (ds & -> & _)]]);
    reflexivity.
Qed.

Lemma init_function_cast op s F s' :
  init_function op s = Ok F s' ->
  exists ty ty', op = ConstBitCast (VFunction (fn_id F) ty) ty'.
Proof.
  destruct op as [? ?|?|?|? ?|? ?|? ?|c ty|? ? ?]; try discriminate.
  destruct c as [? ?|?|?|? ?|? ?|id ty'|? ?|? ? ?]; try discriminate.
  cbn [init_function]. kunfold. unfold get. kred.
  destruct (getFunctionById (M s) id) as [G|] eqn:Hg; [|discriminate].
  intros [= <- _]. unfold getFunctionById in Hg.
  apply find_some in Hg as [_ Hid]. apply Nat.eqb_eq in Hid. subst id.
  now exists ty', ty.
Qed.

Lemma writeMain_run_state env F m s u s' :
  run_state m s -> writeMain env F s = Ok u s' -> run_state m s'.
Proof.
  destruct u. intros (Hid & (decls0 & Hf) & Hdone) Hw.
  destruct (writeMain_Ok_cases env F s s' Hw)
    as (af & dl & decls & _ & _ & _ & _ & [[_ ->]|[_ (ds & -> & _)]]).
  - split; [exact Hid|]. split; [|exact Hdone].
    eexists. cbn [add_errs built st M functions]. rewrite Hf, <- app_assoc.
    reflexivity.
  - split; [exact Hid|]. split; [|exact Hdone].
    exists (decls0 ++ decls). cbn [cleaned M functions].
    now rewrite Hf, <- app_assoc.
Qed.

(** The files the loop creates and writes are those of qualifying
    candidates of the list, in list order. *)
Lemma candidates_loop_files env Faf m : forall ops s,
  run_state m s ->
  Forall (fun op => candidate_of m op <> None) ops ->
  let r := candidates_loop env Faf ops s in
  exists new extra,
    written (state_of r) = written s ++ new /\
    opened (state_of r) = opened s ++ map fst new ++ extra /\
    sublist (map fst new ++ extra)
            (map (artifact_name m)
                 (List.filter (qualifies env Faf)
                              (omap (candidate_of m) ops))).
Proof.
  induction ops as [|op rest IH]; intros s Hrs Hops; cbn zeta.
  - exists [], []. cbn [candidates_loop state_of map app].
    rewrite !app_nil_r. repeat split. constructor.
  - inversion Hops as [|? ? Hc Hrest]; subst.
    destruct (candidate_of m op) as [F|] eqn:Ec; [clear Hc|contradiction].
    cbn [candidates_loop].
    change (omap (candidate_of m) (op :: rest))
      with (match candidate_of m op with
            | Some y => y :: omap (candidate_of m) rest
            | None => omap (candidate_of m) rest
            end).
    rewrite Ec. cbn [List.filter].
    kunfold. rewrite (init_function_candidate m s op F Hrs Ec). kred.
    rewrite calls_loop_spec.
    assert (Hname : artifact_name (M s) F = artifact_name m F).
    { unfold artifact_name. destruct Hrs as (-> & _). reflexivity. }
    assert (Hdone : forall s1, run_state m s1 -> done s1 = false)
      by (intros s1 (_ & _ & H); exact H).
    destruct (qualifies env Faf F) eqn:Eq.
    + cbn [map].
      pose proof (writeMain_run_state env F m s) as Hrs1.
      destruct (writeMain_files env F s)
        as [(Hw & Hop & Hf)|[(Hw & Hop & Hf)|(M' & Hw & Hop & Hf)]];
        cbn zeta in *; rewrite ?Hname in *.
      * destruct (writeMain env F s) as [[] s1|f s1];
          cbn [state_of failure_of] in Hw, Hop, Hf; kred.
        2:{ exists [], []. cbn [state_of map app]. rewrite !app_nil_r.
            repeat split; try assumption. apply sublist_nil_l. }
        specialize (Hrs1 tt s1 Hrs eq_refl).
        unfold get. kred. rewrite (Hdone s1 Hrs1).
        destruct (IH s1 Hrs1 Hrest) as (new & extra & Hw2 & Hop2 & Hsub).
        cbn zeta in *. exists new, extra.
        rewrite Hw2, Hop2, Hw, Hop. repeat split.
        now apply sublist_cons.
      * destruct (writeMain env F s) as [[] s1|f s1];
          cbn [state_of failure_of] in Hw, Hop, Hf; [discriminate|]; kred.
        exists [], [artifact_name m F]. cbn [state_of map app].
        rewrite app_nil_r. repeat split; try assumption.
        apply sublist_skip, sublist_nil_l.
      * destruct (writeMain env F s) as [[] s1|f s1];
          cbn [state_of failure_of] in Hw, Hop, Hf; [|discriminate]; kred.
        specialize (Hrs1 tt s1 Hrs eq_refl).
        unfold get. kred. rewrite (Hdone s1 Hrs1).
        destruct (IH s1 Hrs1 Hrest) as (new & extra & Hw2 & Hop2 & Hsub).
        cbn zeta in *. exists ((artifact_name m F, M') :: new), extra.
        rewrite Hw2, Hop2, Hw, Hop, <- !app_assoc. cbn [map fst app].
        repeat split. now apply sublist_skip.
    + kred. unfold get. kred. rewrite (Hdone s Hrs). now apply IH.
Qed.

Lemma length_omap_le {A B} (f : A -> option B) (l : list A) :
  (length (omap f l) <= length l)%nat.
Proof.
  induction l as [|a l IH]; [reflexivity|].
  change (omap f (a :: l))
    with (match f a with Some y => y :: omap f l | None => omap f l end).
  destruct (f a); cbn [length]; lia.
Qed.

Lemma sublist_In {A} (l1 l2 : list A) x :
  sublist l1 l2 -> In x l1 -> In x l2.
Proof.
  induction 1 as [|y l1 l2 Hs IH|y l1 l2 Hs IH]; cbn [In]; intuition.
Qed.

(** A run of the pass on a module whose initial-functions array names
    functions of the module creates and writes, however it ends, only
    files of functions of the module that the array names and that have a
    direct call edge to [__assert_fail]: the files written, and likewise
    the files created, are in the order of the array a subsequence of
    the names [<module-id>.main.<name>.o] of those functions, so there is
    at most one per operand. *)
Theorem run_writes_only_for_qualifying_candidates
  (env : Services) (m : Module) (Faf : Function) (ops : list value) :
  getFunction m "__assert_fail" = Some Faf ->
  getInitFuns env = Some ops ->
  Forall (fun op => candidate_of m op <> None) ops ->
  let s' := state_of (runOnModule env m) in
  let names :=
    map (artifact_name m)
        (List.filter (qualifies env Faf) (omap (candidate_of m) ops)) in
  sublist (map fst (written s')) names /\
  sublist (opened s') names /\
  (length (opened s') <= length ops)%nat /\
  Forall (fun nm => exists op F,
            In op ops /\ candidate_of m op = Some F /\
            In F (functions m) /\
            (exists site, In (site, fn_id Faf) (calls (CG env) (fn_id F))) /\
            nm = (moduleIdentifier m ++ ".main." ++ fn_name F ++ ".o")%string)
         (opened s').
Proof.
  intros Hg Hi Hops. cbn zeta.
  set (names := map (artifact_name m)
                  (List.filter (qualifies env Faf)
                               (omap (candidate_of m) ops))).
  assert (Hsub : sublist (map fst (written (state_of (runOnModule env m))))
                         names /\
                 sublist (opened (state_of (runOnModule env m))) names).
  { unfold runOnModule, run. kunfold. unfold get. kred. cbn [M].
    rewrite Hg. destruct (Nat.eqb _ 0).
    { cbn [state_of written opened map]. split; apply sublist_nil_l. }
    rewrite Hi. kunfold. kred.
    destruct (candidates_loop_files env Faf m ops
                (mkState m false [] [] [] 0))
      as (new & extra & Hw & Hop & Hs); [|assumption|].
    { split; [reflexivity|]. split; [exists []; now rewrite app_nil_r|].
      reflexivity. }
    cbn zeta in *. cbn [written opened app] in Hw, Hop. fold names in Hs.
    assert (Hs' : sublist (map fst new) names).
    { etransitivity; [|exact Hs]. apply sublist_inserts_r. reflexivity. }
    destruct (candidates_loop env Faf ops (mkState m false [] [] [] 0))
      as [u s1|f s1]; cbn [state_of] in *; kred; cbn [state_of];
      rewrite Hw, Hop; now split. }
  destruct Hsub as [Hsw Hso]. split; [exact Hsw|]. split; [exact Hso|].
  split.
  - pose proof (sublist_length _ _ Hso) as Hlen.
    etransitivity; [exact Hlen|].
    unfold names. rewrite length_map.
    etransitivity; [apply List.filter_length_le|].
    apply length_omap_le.
  - apply Forall_forall. intros nm Hin.
    apply (sublist_In _ _ _ Hso) in Hin. unfold names in Hin.
    apply in_map_iff in Hin as (F & <- & HF).
    apply filter_In in HF as [HF Hq].
    apply list_elem_of_In, list_elem_of_omap in HF as (op & Hop & Hc).
    exists op, F. split; [now apply list_elem_of_In|]. split; [exact Hc|].
    split.
    { destruct op as [? ?|?|?|? ?|? ?|? ?|c ty|? ? ?]; try discriminate.
      destruct c as [? ?|?|?|? ?|? ?|id ty'|? ?|? ? ?]; try discriminate.
      cbn [candidate_of] in Hc. unfold getFunctionById in Hc.
      now apply find_some in Hc as [Hc _]. }
    split; [|reflexivity].
    unfold qualifies in Hq.
    apply existsb_exists in Hq as ([site c] & Hc' & He).
    cbn [snd] in He. apply Nat.eqb_eq in He. subst c. now exists site.
Qed.

Lemma run_writes_only_witness :
  let s' := state_of (runOnModule Example.env_reject_abort Example.m0) in
  let ops := [Example.cand Example.fA; Example.cand Example.fB] in
  written s' = [] /\
  opened s' = ["mod.main.A.o"] /\
  sublist (opened s')
          (map (artifact_name Example.m0)
             (List.filter
                (qualifies Example.env_reject_abort Example.assert_fail_fn)
                (omap (candidate_of Example.m0) ops))) /\
  Forall (fun nm => exists op F,
            In op ops /\ candidate_of Example.m0 op = Some F /\
            In F (functions Example.m0) /\
            (exists site, In (site, fn_id Example.assert_fail_fn)
                             (calls (CG Example.env_reject_abort) (fn_id F))) /\
            nm = (moduleIdentifier Example.m0 ++ ".main." ++ fn_name F
                  ++ ".o")%string)
         (opened s').
Proof.
  intros s' ops.
  split; [vm_compute; reflexivity|]. split; [vm_compute; reflexivity|].
  assert (Hops : Forall (fun op => candidate_of Example.m0 op <> None) ops)
    by (repeat constructor; discriminate).
  destruct (run_writes_only_for_qualifying_candidates
              Example.env_reject_abort Example.m0 Example.assert_fail_fn ops
              eq_refl eq_refl Hops) as (_ & H2 & _ & H4).
  split; [exact H2|exact H4].
Defined.

(** *** Definitions before uses *)

Lemma ws_cons av i l :
  (forall r, In r (uses i) -> In r av) ->
  well_scoped (inst_id i :: av) l = true ->
  well_scoped av (i :: l) = true.
Proof.
  intros Hu Hl. cbn [well_scoped]. rewrite Hl, andb_true_r.
  apply forallb_forall. intros r Hr. apply existsb_exists.
  exists r. split; [now apply Hu|apply Nat.eqb_refl].
Qed.

Lemma ws_incl : forall l av av',
  (forall r, In r av -> In r av') ->
  well_scoped av l = true -> well_scoped av' l = true.
Proof.
  induction l as [|i l IH]; intros av av' Hinc H; [reflexivity|].
  cbn [well_scoped] in *. apply andb_true_iff in H as [Hu Hl].
  apply andb_true_iff. split.
  - apply forallb_forall. intros r Hr.
    rewrite forallb_forall in Hu. specialize (Hu r Hr).
    apply existsb_exists in Hu as (x & Hx & He).
    apply existsb_exists. exists x. split; [now apply Hinc|assumption].
  - apply (IH (inst_id i :: av)); [|assumption].
    intros r [->|Hr]; [now left|right; now apply Hinc].
Qed.

Lemma ws_app : forall l1 l2 av,
  well_scoped av l1 = true ->
  (forall av', (forall r, In r av -> In r av') ->
               (forall i, In i l1 -> In (inst_id i) av') ->
               well_scoped av' l2 = true) ->
  well_scoped av (l1 ++ l2) = true.
Proof.
  induction l1 as [|i l1 IH]; intros l2 av H1 H2.
  - apply H2; [auto|intros i []].
  - cbn [app well_scoped] in *. apply andb_true_iff in H1 as [Hu Hl].
    rewrite Hu. cbn [andb]. apply IH; [assumption|].
    intros av' Hinc Hids. apply H2.
    + intros r Hr. apply Hinc. now right.
    + intros j [<-|Hj]; [apply Hinc; now left|now apply Hids].
Qed.

Lemma value_uses_const_get ty v : value_uses (ConstantInt_get ty v) = [].
Proof. unfold ConstantInt_get. now destruct ty. Qed.

Lemma value_uses_str_ptr k str : value_uses (str_ptr k str) = [].
Proof.
  unfold str_ptr. cbn [value_uses]. now rewrite !value_uses_const_get.
Qed.

Ltac scoped :=
  repeat (apply ws_cons;
          [ unfold uses; cbn [inst_kind operands flat_map value_uses val
                              inst_id app global_addr fn_value];
            rewrite ?value_uses_const_get, ?value_uses_str_ptr;
            unfold arrSize, zero;
            rewrite ?value_uses_const_get;
            cbn [app In]; intros r Hr; intuition (subst; auto)
          | cbn [inst_id] ]);
  try reflexivity.

Section ScopeFacts.

Variable env : Services.
Variable s0 : KState.

Lemma param_code_scoped n glen param av :
  let c := param_code env s0 n glen param in
  (forall i, In i (pc_front c) -> In (inst_id i) av) ->
  well_scoped av (pc_back c) = true /\
  (forall v r, pc_val c = Some v -> In r (value_uses v) ->
               In r (map inst_id (pc_back c))).
Proof.
  unfold param_code.
  destruct (arg_type param) as [| | | |bits|elem|rt ps va|nm body|k e|k e];
    cbn zeta; try (intros _; split; [reflexivity|intros v r [=]]).
  - unfold integer_code, klee_pre, klee_call, klee_next, klee_cast,
      klee_addr, klee_n1, klee_mul, klee_size, klee_n2.
    cbn [pc_front pc_back pc_val]. intros Hf.
    specialize (Hf _ (or_introl eq_refl)). cbn [inst_id] in Hf.
    destruct (negb (Ty_eqb (type_of (val (mkInst n (Alloca (arg_type param))
                                                 None))) voidPtrType));
      cbn [app]; (split; [scoped|]);
      intros v r [= <-]; cbn [value_uses val inst_id];
      intros [<-|[]]; cbn [map In inst_id]; tauto.
  - unfold pointer_code, klee_pre, klee_call, klee_next, klee_cast,
      klee_addr, klee_n1, klee_mul, klee_size, klee_n2.
    change (type_of (val (malloc_inst env n elem))) with (PointerTy elem).
    intros _.
    destruct (negb (Ty_eqb (PointerTy elem) voidPtrType));
      cbn [pc_front pc_back pc_val app]; unfold malloc_inst;
      (split; [scoped|]);
      intros v r [= <-]; cbn [value_uses val inst_id];
      intros [<-|[]]; cbn [map In inst_id]; tauto.
Qed.

Lemma param_code_front_scoped n glen param av :
  well_scoped av (pc_front (param_code env s0 n glen param)) = true.
Proof.
  unfold param_code.
  destruct (arg_type param) as [| | | |bits|elem|rt ps va|nm body|k e|k e];
    try reflexivity.
  unfold pointer_code. now destruct (negb _).
Qed.

Lemma params_code_scoped : forall args n glen av,
  let r := params_code env s0 n glen args in
  well_scoped av (ps_front r) = true /\
  ((forall i, In i (ps_front r) -> In (inst_id i) av) ->
   well_scoped av (ps_back r) = true) /\
  (forall v x, In v (ps_vals r) -> In x (value_uses v) ->
               In x (map inst_id (ps_back r))).
Proof.
  induction args as [|param rest IH]; intros n glen av.
  - repeat split. intros v x [].
  - cbn [params_code ps_front ps_back ps_vals]. cbn zeta.
    set (c := param_code env s0 n glen param).
    set (r := params_code env s0 (pc_next c) (S glen) rest).
    split; [|split].
    + apply ws_app.
      * destruct (IH (pc_next c) (S glen) av) as (H & _). exact H.
      * intros av' _ _. apply param_code_front_scoped.
    + intros Hf. apply ws_app.
      * apply (param_code_scoped n glen param av).
        intros i Hi. apply Hf. apply in_or_app. now right.
      * intros av' Hinc _.
        destruct (IH (pc_next c) (S glen) av') as (_ & H & _).
        apply H.
        intros i Hi. apply Hinc, Hf. apply in_or_app. now left.
    + intros v x Hv Hx. rewrite map_app. apply in_or_app.
      apply in_app_or in Hv as [Hv|Hv].
      * left. destruct (pc_val c) as [v0|] eqn:Hc; [|contradiction].
        destruct Hv as [<-|[]].
        refine (proj2 (param_code_scoped n glen param
                         (map inst_id (pc_front c)) _) v0 x Hc Hx).
        intros i Hi. now apply in_map.
      * right. destruct (IH (pc_next c) (S glen) av) as (_ & _ & H).
        now apply (H v x).
Qed.

Lemma ai_code_scoped : forall gs n glen av,
  well_scoped av (fst (ai_code env s0 n glen gs)) = true.
Proof.
  induction gs as [|[idx g] gs IH]; intros n glen av; [reflexivity|].
  cbn [ai_code]. destruct (isAiState g); [|apply IH].
  cbn [fst]. apply ws_app; [|intros av' _ _; apply IH].
  unfold ai_insts, klee_pre, klee_call, klee_next, klee_cast,
    klee_addr, klee_n1, klee_mul, klee_size, klee_n2.
  destruct (negb (Ty_eqb (type_of (global_addr idx g)) voidPtrType));
    cbn [app]; scoped.
Qed.

End ScopeFacts.

Lemma check_tail_scoped n gs av : well_scoped av (check_tail n gs) = true.
Proof.
  unfold check_tail.
  assert (H : forall l n sum av,
    (forall r, In r (value_uses sum) -> In r av) ->
    let c := sum_code n l sum in
    well_scoped av
      (fst c ++
       [mkInst (snd (snd c)) (ICmp ICMP_EQ (fst (snd c)) zero) None;
        mkInst (S (snd (snd c)))
               (Br (val (mkInst (snd (snd c))
                                (ICmp ICMP_EQ (fst (snd c)) zero) None))
                   "final" "assertBB") None]) = true).
  { induction l as [|[idx g] l IH]; intros n0 sum av0 Hs; cbn zeta.
    - cbn [sum_code fst snd app]. apply ws_cons.
      { unfold uses. cbn [inst_kind operands flat_map]. unfold zero.
        rewrite value_uses_const_get, !app_nil_r. exact Hs. }
      scoped.
    - cbn [sum_code]. destruct (isAiState g); [|now apply IH].
      cbn [fst snd app]. apply ws_cons.
      { unfold uses. cbn [inst_kind operands flat_map value_uses
                          global_addr app]. intros r []. }
      apply ws_cons.
      { unfold uses. cbn [inst_kind operands flat_map value_uses val
                          inst_id app].
        intros r [<-|Hr]; [now left|].
        rewrite app_nil_r in Hr. right. now apply Hs. }
      apply IH. cbn [value_uses val inst_id]. intros r [<-|[]]. now left. }
  apply H. unfold zero. rewrite value_uses_const_get. intros r [].
Qed.

(** In the entry function of a written harness every instruction uses
    only results of instructions that stand before it in its block: the
    stack slots pushed at the front, the buffers, the casts and the
    loads are all defined before they are used, and the blocks [final]
    and [assertBB] use no result at all. *)
Theorem harness_defines_before_it_uses
  (env : Services) (s : KState) (F : Function) (s' : KState)
  (name : string) (M' : Module) :
  writeMain env F s = Ok tt s' ->
  written s' = written s ++ [(name, M')] ->
  exists mainF,
    In mainF (functions M') /\
    map bb_name (fn_blocks mainF) = ["entry"; "final"; "assertBB"] /\
    Forall (fun b => well_scoped [] (bb_insts b) = true) (fn_blocks mainF).
Proof.
  intros Hw Hwr.
  destruct (writeMain_artifact env F s s' name M' Hw Hwr)
    as (af & dl & decls & ds & Hd & _ & _ & (f_af & _ & _ & Hid) & _
        & -> & _).
  exists (main_fn env s (h_blocks env s F af dl)).
  split; [cbn [built st M functions]; apply in_or_app; right; now left|].
  split; [reflexivity|].
  cbn [main_fn fn_blocks]. unfold h_blocks.
  repeat apply Forall_cons; [| | |apply Forall_nil]; cbn [bb_insts].
  - unfold h_entry, h_prefix.
    destruct (params_code_scoped env s (fn_args F) (fresh s)
                (length (globals (M s))) []) as (Hf & _ & _).
    fold (h_params env s F) in Hf. cbn zeta in Hf.
    rewrite <- !app_assoc.
    apply ws_app; [exact Hf|]. intros av1 _ Hfront.
    destruct (params_code_scoped env s (fn_args F) (fresh s)
                (length (globals (M s))) av1) as (_ & Hb & Hv).
    fold (h_params env s F) in Hb, Hv. cbn zeta in Hb, Hv.
    apply ws_app; [now apply Hb|]. intros av2 _ Hback.
    apply ws_app; [apply ai_code_scoped|]. intros av3 Hinc _.
    apply ws_cons; [|apply check_tail_scoped].
    unfold uses, h_call.
    cbn [inst_kind operands flat_map value_uses fn_value app].
    intros r Hr. apply in_flat_map in Hr as (v & Hv1 & Hv2).
    apply Hinc. specialize (Hv v r Hv1 Hv2).
    apply in_map_iff in Hv as (i & <- & Hi). now apply Hback.
  - unfold h_ret. apply ws_cons; [|reflexivity].
    unfold uses. cbn [inst_kind operands flat_map].
    rewrite value_uses_const_get. intros r [].
  - unfold h_assert, assert_block.
    assert (Haf : value_uses af = []).
    { destruct af as [? ?|?|?|? ?|? ?|? ?|c ty|? ? ?]; try discriminate;
        try reflexivity.
      destruct c; try discriminate; reflexivity. }
    apply ws_cons; [|apply ws_cons; [intros r []|reflexivity]].
    unfold uses. cbn [inst_kind operands flat_map].
    rewrite Haf, !value_uses_str_ptr. unfold zero.
    rewrite value_uses_const_get. intros r [].
Qed.

Lemma harness_defines_before_witness :
  let s1 := state_of (writeMain Example.env0 Example.fA Example.s0) in
  exists M',
  (writeMain Example.env0 Example.fA Example.s0 = Ok tt s1 /\
   written s1 = written Example.s0 ++ [("mod.main.A.o", M')]) /\
  exists mainF,
    In mainF (functions M') /\
    map bb_name (fn_blocks mainF) = ["entry"; "final"; "assertBB"] /\
    Forall (fun b => well_scoped [] (bb_insts b) = true) (fn_blocks mainF).
Proof.
  intros s1.
  assert (H1 : writeMain Example.env0 Example.fA Example.s0 = Ok tt s1)
    by (vm_compute; reflexivity).
  eexists.
  assert (H2 : written s1 = written Example.s0 ++ [("mod.main.A.o", _)])
    by (vm_compute; reflexivity).
  split; [split; [exact H1|exact H2]|].
  exact (harness_defines_before_it_uses Example.env0 Example.s0
           Example.fA s1 "mod.main.A.o" _ H1 H2).
Defined.
